(** * Twitch Drops Bot: campaign scheduling and stream selection

    A shallow embedding of [src/twitch_drops_bot.ts] (class [TwitchDropsBot]):
    the pending-campaign priority queue and its comparator, the watchdog
    handlers, the higher-priority check, campaign processing, the watch-session
    wrapper with its failure counters and temporary blacklist, and the sleep
    computation of the main loop.

    JavaScript values are modelled as follows.
    - strings are [string]; [===] on strings is [String.eqb] and [<] on
      strings is [String.ltb] (campaign ids and urls are ASCII);
    - integral numbers (timestamps in milliseconds, minutes, counters) are [Z];
      the result of [Date.parse] is a [JsNumber], which adds [NaN];
    - objects used as dictionaries are [gmap string _];
    - exceptions are values of type [Error]; code that can throw returns a
      [Result] or runs in the monad [M] below. *)

From Stdlib Require Import ZArith String Bool Lia.
From stdpp Require Import base option list strings gmap.

Open Scope Z_scope.

(** ** Errors ([src/errors.ts], plus the runtime's own) *)

Inductive Error : Type :=
| NoStreamsError
| NoProgressError
| HighPriorityError
| StreamLoadFailedError
| StreamDownError
| TypeError                      (* property read on [undefined] *)
| OtherError (message : string). (* anything else, such as a failed request *)

Inductive Result (A : Type) : Type :=
| Ok (a : A)
| Thrown (e : Error).
Arguments Ok {A} a.
Arguments Thrown {A} e.

Definition isHighPriorityError (e : Error) : bool :=
  match e with HighPriorityError => true | _ => false end.
Definition isStreamLoadFailedError (e : Error) : bool :=
  match e with StreamLoadFailedError => true | _ => false end.
Definition isStreamDownError (e : Error) : bool :=
  match e with StreamDownError => true | _ => false end.
Definition isNoProgressError (e : Error) : bool :=
  match e with NoProgressError => true | _ => false end.
Definition isNoStreamsError (e : Error) : bool :=
  match e with NoStreamsError => true | _ => false end.

(** ** JavaScript numbers as far as the bot needs them *)

Inductive JsNumber : Type :=
| Num (z : Z)
| NaN.

(** [x === y] on numbers: [NaN] is not equal to itself. *)
Definition num_eqb (x y : JsNumber) : bool :=
  match x, y with
  | Num a, Num b => a =? b
  | _, _ => false
  end.

(** [x < y] on numbers: false as soon as one side is [NaN]. *)
Definition num_ltb (x y : JsNumber) : bool :=
  match x, y with
  | Num a, Num b => a <? b
  | _, _ => false
  end.

(** [xs.indexOf(x)]: the first position holding [x], or [-1]. *)
Fixpoint indexOf_from (xs : list string) (x : string) (i : Z) : Z :=
  match xs with
  | [] => -1
  | y :: ys => if String.eqb y x then i else indexOf_from ys x (i + 1)
  end.

Definition indexOf (xs : list string) (x : string) : Z := indexOf_from xs x 0.

(** [xs.includes(x)] *)
Definition includes (xs : list string) (x : string) : bool :=
  existsb (String.eqb x) xs.

(** ** Data model ([src/twitch.ts] declares the types; only the fields the
    bot reads are kept) *)

Record Game : Type := {
  game_id : string;
  displayName : string
}.

Record Channel : Type := { channel_id : string }.

Record Allow : Type := {
  isEnabled : bool;
  channels : option (list Channel)   (* [None] is [null] *)
}.

Record DropCampaign : Type := {
  campaign_id : string;
  campaign_name : string;
  status : string;
  game : Game;
  endAt : string;
  isAccountConnected : bool;          (* [self.isAccountConnected] *)
  allow : Allow
}.

Record TimeBasedDrop : Type := {
  drop_id : string;
  requiredMinutesWatched : Z;
  drop_endAt : string;
  currentMinutesWatched : Z;          (* [self.currentMinutesWatched] *)
  dropInstanceID : string             (* [self.dropInstanceID] *)
}.

Record Stream : Type := {
  url : string;
  broadcaster_id : string
}.

(** "Filter out streams that are not in the allowed channels list, if any",
    the second half of [#getActiveStreams]. *)
Definition restrictToAllowedChannels (details : DropCampaign) (streams : list Stream)
    : list Stream :=
  if isEnabled (allow details) then
    match channels (allow details) with
    | Some channels =>
        let channelIds := map channel_id channels in
        List.filter (fun stream => includes channelIds (broadcaster_id stream)) streams
    | None => streams
    end
  else streams.

(** ** The comparator of [#pendingDropCampaignIds] *)

Section Comparator.

(** [Date.parse], a function of the runtime. *)
Variable Date_parse : string -> JsNumber.

(** The values of [#gameIds] and [#dropCampaignMap] when the comparator runs. *)
Variable priorities : list string.
Variable campaigns : gmap string DropCampaign.

Definition getDropCampaignById (campaignId : string) : option DropCampaign :=
  campaigns !! campaignId.

(** The arrow function given to [new SortedArray(...)]. Reading [.game] of a
    campaign that is not in the map throws. *)
Definition comparator (a b : string) : Result Z :=
  if String.eqb a b then Ok 0
  else
    match getDropCampaignById a, getDropCampaignById b with
    | Some campaignA, Some campaignB =>
        let indexA := indexOf priorities (game_id (game campaignA)) in
        let indexB := indexOf priorities (game_id (game campaignB)) in
        if (indexA =? -1) && negb (indexB =? -1) then Ok 1
        else if negb (indexA =? -1) && (indexB =? -1) then Ok (-1)
        else if indexA =? indexB then
          let endTimeA := Date_parse (endAt campaignA) in
          let endTimeB := Date_parse (endAt campaignB) in
          if num_eqb endTimeA endTimeB then
            Ok (if String.ltb a b then -1 else 1)
          else
            Ok (if num_ltb endTimeA endTimeB then -1 else 1)
        else Ok (Z.sgn (indexA - indexB))
    | _, _ => Thrown TypeError
    end.

End Comparator.

(** ** The temporary blacklist *)

(** Modelled from the spec: [TimedSet] of [src/utils.ts] is not among the
    sources. The spec describes an expiring set: keys with an independent
    time-to-live each, insertion and membership only, entries that lapse
    without being removed. An entry is kept with the instant at which it
    lapses; the set is created with its timeout. *)
Record TimedSet : Type := {
  ts_timeout : Z;
  ts_expiry : gmap string Z
}.

Definition TimedSet_new (timeout : Z) : TimedSet :=
  {| ts_timeout := timeout; ts_expiry := ∅ |}.

Definition TimedSet_add (now : Z) (value : string) (s : TimedSet) : TimedSet :=
  {| ts_timeout := ts_timeout s;
     ts_expiry := <[value := now + ts_timeout s]> (ts_expiry s) |}.

Definition TimedSet_has (now : Z) (value : string) (s : TimedSet) : bool :=
  match ts_expiry s !! value with
  | Some expiry => now <? expiry
  | None => false
  end.

(** ** The sorted array *)

(** Modelled from the spec: [SortedArray] comes from the package
    [sorted-array-type], which is not among the sources. The spec asks for
    an ordered collection with a custom comparator, insertion and in-order
    iteration: [insert] puts the value before the first element that the
    comparator places after it. A comparator that throws makes [insert]
    throw. *)
Fixpoint SortedArray_insert (compare : string -> string -> Result Z)
    (value : string) (xs : list string) : Result (list string) :=
  match xs with
  | [] => Ok [value]
  | y :: ys =>
      match compare value y with
      | Thrown e => Thrown e
      | Ok c =>
          if c <? 0 then Ok (value :: y :: ys)
          else
            match SortedArray_insert compare value ys with
            | Ok r => Ok (y :: r)
            | Thrown e => Thrown e
            end
      end
  end.

(** ** Configuration and state of the bot *)

(** [TwitchDropsBotOptions] after the constructor has applied the defaults. *)
Record Options : Type := {
  gameIds : list string;
  watchUnlistedGames : bool;
  ignoredGameIds : list string;
  failedStreamRetryCount : Z;
  failedStreamBlacklistTimeout : Z;          (* minutes *)
  showAccountNotLinkedWarning : bool;
  attemptImpossibleDropCampaigns : bool;
  watchStreamsWhenNoDropCampaignsActive : bool
}.

Definition sleepTimeMilliseconds : Z := 1000 * 60 * 5.

(** The private fields of [TwitchDropsBot] that change while it runs. *)
Record Bot : Type := {
  pendingDropCampaignIds : list string;
  dropCampaignMap : gmap string DropCampaign;
  currentDropCampaignId : option string;              (* [None] is [null] *)
  pendingHighPriority : bool;
  lastDropCampaignAttemptTimes : gmap string Z;
  failedStreamUrlCounts : gmap string Z;
  streamUrlTemporaryBlacklist : TimedSet
}.

(** The bot as the constructor leaves it. *)
Definition newBot (options : Options) : Bot :=
  {| pendingDropCampaignIds := [];
     dropCampaignMap := ∅;
     currentDropCampaignId := None;
     pendingHighPriority := false;
     lastDropCampaignAttemptTimes := ∅;
     failedStreamUrlCounts := ∅;
     streamUrlTemporaryBlacklist :=
       TimedSet_new (1000 * 60 * failedStreamBlacklistTimeout options) |}.

Definition set_pendingDropCampaignIds (v : list string) (b : Bot) : Bot :=
  {| pendingDropCampaignIds := v;
     dropCampaignMap := dropCampaignMap b;
     currentDropCampaignId := currentDropCampaignId b;
     pendingHighPriority := pendingHighPriority b;
     lastDropCampaignAttemptTimes := lastDropCampaignAttemptTimes b;
     failedStreamUrlCounts := failedStreamUrlCounts b;
     streamUrlTemporaryBlacklist := streamUrlTemporaryBlacklist b |}.

Definition set_dropCampaignMap (v : gmap string DropCampaign) (b : Bot) : Bot :=
  {| pendingDropCampaignIds := pendingDropCampaignIds b;
     dropCampaignMap := v;
     currentDropCampaignId := currentDropCampaignId b;
     pendingHighPriority := pendingHighPriority b;
     lastDropCampaignAttemptTimes := lastDropCampaignAttemptTimes b;
     failedStreamUrlCounts := failedStreamUrlCounts b;
     streamUrlTemporaryBlacklist := streamUrlTemporaryBlacklist b |}.

Definition set_currentDropCampaignId (v : option string) (b : Bot) : Bot :=
  {| pendingDropCampaignIds := pendingDropCampaignIds b;
     dropCampaignMap := dropCampaignMap b;
     currentDropCampaignId := v;
     pendingHighPriority := pendingHighPriority b;
     lastDropCampaignAttemptTimes := lastDropCampaignAttemptTimes b;
     failedStreamUrlCounts := failedStreamUrlCounts b;
     streamUrlTemporaryBlacklist := streamUrlTemporaryBlacklist b |}.

Definition set_pendingHighPriority (v : bool) (b : Bot) : Bot :=
  {| pendingDropCampaignIds := pendingDropCampaignIds b;
     dropCampaignMap := dropCampaignMap b;
     currentDropCampaignId := currentDropCampaignId b;
     pendingHighPriority := v;
     lastDropCampaignAttemptTimes := lastDropCampaignAttemptTimes b;
     failedStreamUrlCounts := failedStreamUrlCounts b;
     streamUrlTemporaryBlacklist := streamUrlTemporaryBlacklist b |}.

Definition set_lastDropCampaignAttemptTimes (v : gmap string Z) (b : Bot) : Bot :=
  {| pendingDropCampaignIds := pendingDropCampaignIds b;
     dropCampaignMap := dropCampaignMap b;
     currentDropCampaignId := currentDropCampaignId b;
     pendingHighPriority := pendingHighPriority b;
     lastDropCampaignAttemptTimes := v;
     failedStreamUrlCounts := failedStreamUrlCounts b;
     streamUrlTemporaryBlacklist := streamUrlTemporaryBlacklist b |}.

Definition set_failedStreamUrlCounts (v : gmap string Z) (b : Bot) : Bot :=
  {| pendingDropCampaignIds := pendingDropCampaignIds b;
     dropCampaignMap := dropCampaignMap b;
     currentDropCampaignId := currentDropCampaignId b;
     pendingHighPriority := pendingHighPriority b;
     lastDropCampaignAttemptTimes := lastDropCampaignAttemptTimes b;
     failedStreamUrlCounts := v;
     streamUrlTemporaryBlacklist := streamUrlTemporaryBlacklist b |}.

Definition set_streamUrlTemporaryBlacklist (v : TimedSet) (b : Bot) : Bot :=
  {| pendingDropCampaignIds := pendingDropCampaignIds b;
     dropCampaignMap := dropCampaignMap b;
     currentDropCampaignId := currentDropCampaignId b;
     pendingHighPriority := pendingHighPriority b;
     lastDropCampaignAttemptTimes := lastDropCampaignAttemptTimes b;
     failedStreamUrlCounts := failedStreamUrlCounts b;
     streamUrlTemporaryBlacklist := v |}.

(** ** The world outside the bot *)

(** What a watch session is given: [DropProgressComponent] with its target
    drop in campaign mode, without one in idle mode, next to a
    [CommunityPointsComponent] in both. *)
Inductive Components : Type :=
| CampaignComponents (targetDrop : TimeBasedDrop)
| IdleComponents.

(** Everything the bot calls and does not own. [World] is the state of the
    outside (the Twitch service, the browser page, the clock); an awaited call
    answers and moves the world on. The clock is read off the world, so code
    that runs without awaiting anything reads one instant however often it
    asks. The helpers of [src/twitch.ts] and the inventory type they read are
    not among the sources and are fields too. *)
Record Env (World Inventory : Type) : Type := {
  (* runtime *)
  Date_parse : string -> JsNumber;
  getTime : World -> Z;                                     (* [new Date().getTime()] *)
  (* [src/twitch.ts] *)
  getFirstUnclaimedDrop :
    string -> DropCampaign -> Inventory -> option TimeBasedDrop;
  getInventoryDrop :
    string -> Inventory -> string -> option TimeBasedDrop;
  (* [Client] *)
  client_getDropCampaigns : World -> Result (list DropCampaign) * World;
  client_getDropCampaignDetails : string -> World -> Result DropCampaign * World;
  client_getInventory : World -> Result Inventory * World;
  client_claimDropReward : string -> World -> Result unit * World;
  client_getActiveStreams : string -> World -> Result (list Stream) * World;
  (* the page and the session run on it *)
  page_goto : string -> World -> Result unit * World;
  watchStream : string -> Components -> World -> Result unit * World;
  SAVE_ERROR_SCREENSHOTS : bool;          (* the variable of [process.env] reads ['true'] *)
  saveScreenshotAndHtml : World -> Result unit * World;
  (* [WaitNotify.wait()]: returns once somebody has notified *)
  notifier_wait : World -> World
}.
Arguments Date_parse {World Inventory} _ _.
Arguments getTime {World Inventory} _ _.
Arguments getFirstUnclaimedDrop {World Inventory} _ _ _ _.
Arguments getInventoryDrop {World Inventory} _ _ _ _.
Arguments client_getDropCampaigns {World Inventory} _ _.
Arguments client_getDropCampaignDetails {World Inventory} _ _ _.
Arguments client_getInventory {World Inventory} _ _.
Arguments client_claimDropReward {World Inventory} _ _ _.
Arguments client_getActiveStreams {World Inventory} _ _ _.
Arguments page_goto {World Inventory} _ _ _.
Arguments watchStream {World Inventory} _ _ _ _.
Arguments SAVE_ERROR_SCREENSHOTS {World Inventory} _.
Arguments saveScreenshotAndHtml {World Inventory} _ _.
Arguments notifier_wait {World Inventory} _ _.

(** What the bot does to the outside, in order. *)
Inductive Event : Type :=
| EvEmit (eventName : string)                   (* the watchdog's emitter *)
| EvGetDropCampaigns
| EvGetDropCampaignDetails (dropCampaignId : string)
| EvGetInventory
| EvClaimDropReward (instanceId : string)
| EvGetActiveStreams (gameName : string)
| EvWatchStream (streamUrl : string)
| EvSaveScreenshot
| EvGoto (pageUrl : string)
| EvNotifyAll                                   (* [#pendingDropCampaignIdsNotifier.notifyAll()] *)
| EvSetTimeoutNotifyAll (delay : Z)             (* [setTimeout(() => notifyAll(), delay)] *)
| EvWait.                                       (* [await #pendingDropCampaignIdsNotifier.wait()] *)

#[global] Instance Event_eq_dec : EqDecision Event.
Proof. solve_decision. Defined.

(** ** The monad of the bot's code *)

(** How a piece of code ends. [Diverges] is the model running out of fuel in
    one of the [while (true)] loops; it is not an exception and no handler
    sees it. *)
Inductive Outcome (A : Type) : Type :=
| Returns (a : A)
| Throws (e : Error)
| Diverges.
Arguments Returns {A} a.
Arguments Throws {A} e.
Arguments Diverges {A}.

Section TwitchDropsBot.

Context {World Inventory : Type}.
Variable env : Env World Inventory.
Variable options : Options.

Record State : Type := {
  bot : Bot;
  world : World;
  trace : list Event            (* oldest first *)
}.

Definition M (A : Type) : Type := State -> Outcome A * State.

#[global] Instance M_ret : MRet M := fun A a s => (Returns a, s).

#[global] Instance M_bind : MBind M := fun A B f m s =>
  match m s with
  | (Returns a, s') => f a s'
  | (Throws e, s') => (Throws e, s')
  | (Diverges, s') => (Diverges, s')
  end.

Definition throw {A} (e : Error) : M A := fun s => (Throws e, s).

Definition diverge {A} : M A := fun s => (Diverges, s).

(** [try { m } catch (error) { ... }], with the caught error handed back as a
    value. *)
Definition try {A} (m : M A) : M (Result A) := fun s =>
  match m s with
  | (Returns a, s') => (Returns (Ok a), s')
  | (Throws e, s') => (Returns (Thrown e), s')
  | (Diverges, s') => (Diverges, s')
  end.

(** [try { m } finally { f }] *)
Definition finally {A} (m : M A) (f : M unit) : M A := fun s =>
  match m s with
  | (Diverges, s') => (Diverges, s')
  | (o, s') =>
      match f s' with
      | (Returns _, s'') => (o, s'')
      | (Throws e, s'') => (Throws e, s'')
      | (Diverges, s'') => (Diverges, s'')
      end
  end.

Definition get_bot : M Bot := fun s => (Returns (bot s), s).

Definition modify_bot (f : Bot -> Bot) : M unit := fun s =>
  (Returns tt, {| bot := f (bot s); world := world s; trace := trace s |}).

(** [new Date().getTime()] *)
Definition now : M Z := fun s => (Returns (getTime env (world s)), s).

(** The state once the world has answered a call: the call is written down
    and the world has moved on. *)
Definition record (ev : Event) (w : World) (s : State) : State :=
  {| bot := bot s; world := w; trace := trace s ++ [ev] |}.

(** An awaited call to the outside. *)
Definition call {A} (ev : Event) (f : World -> Result A * World) : M A := fun s =>
  let (r, w) := f (world s) in
  match r with
  | Ok a => (Returns a, record ev w s)
  | Thrown e => (Throws e, record ev w s)
  end.

(** Something done that the world does not answer, such as starting a timer
    or notifying. *)
Definition emit (ev : Event) : M unit := fun s =>
  (Returns tt, record ev (world s) s).

(** [await this.#pendingDropCampaignIdsNotifier.wait()] *)
Definition wait : M unit := fun s =>
  (Returns tt, record EvWait (notifier_wait env (world s)) s).

(** ** The methods of [TwitchDropsBot] *)

(** [#claimDropReward]: the call to the client; the message that follows it
    is not modelled. *)
Definition claimDropReward (drop : TimeBasedDrop) : M unit :=
  call (EvClaimDropReward (dropInstanceID drop))
       (client_claimDropReward env (dropInstanceID drop)).

(** [#getActiveStreams]: live streams of the campaign's game that have drops
    enabled, restricted to the allowed channels when the campaign names some. *)
Definition getActiveStreams (campaignId : string) (details : DropCampaign)
    : M (list Stream) :=
  b ← get_bot;
  match getDropCampaignById (dropCampaignMap b) campaignId with
  | None => throw TypeError
  | Some campaign =>
      streams ← call (EvGetActiveStreams (displayName (game campaign)))
                     (client_getActiveStreams env (displayName (game campaign)));
      mret (restrictToAllowedChannels details streams)
  end.

(** The test on [lastAttemptTime] shared by the two scans of the queue: a
    recorded (truthy) time less than [sleepTimeMilliseconds] ago. *)
Definition attemptedRecently (b : Bot) (time : Z) (dropCampaignId : string) : bool :=
  match lastDropCampaignAttemptTimes b !! dropCampaignId with
  | Some lastAttemptTime =>
      negb (lastAttemptTime =? 0) && (time - lastAttemptTime <? sleepTimeMilliseconds)
  | None => false
  end.

(** The drop of the inventory when it [!== null] and is ready to be claimed. *)
Definition readyToClaim (inventoryDrop : option TimeBasedDrop) : option TimeBasedDrop :=
  match inventoryDrop with
  | Some d =>
      if requiredMinutesWatched d <=? currentMinutesWatched d then Some d else None
  | None => None
  end.

(** [#hasPendingHigherPriorityStream], the body of its [for ... of] loop over
    what is left of the queue. *)
Fixpoint hasPendingHigherPriorityStream_from (ids : list string) : M bool :=
  match ids with
  | [] => mret false
  | dropCampaignId :: rest =>
      b ← get_bot;
      let campaign := dropCampaignMap b !! dropCampaignId in
      if decide (currentDropCampaignId b = Some dropCampaignId) then mret false
      else
        time ← now;
        if attemptedRecently b time dropCampaignId then
          hasPendingHigherPriorityStream_from rest
        else
          match campaign with
          | None => throw TypeError
          | Some campaign =>
              if negb (String.eqb (status campaign) "ACTIVE") then
                hasPendingHigherPriorityStream_from rest
              else
                inventory ← try (call EvGetInventory (client_getInventory env));
                match inventory with
                | Thrown _ => hasPendingHigherPriorityStream_from rest
                | Ok inventory =>
                    details ← try (call (EvGetDropCampaignDetails dropCampaignId)
                                     (client_getDropCampaignDetails env dropCampaignId));
                    match details with
                    | Thrown _ => hasPendingHigherPriorityStream_from rest
                    | Ok details =>
                        match getFirstUnclaimedDrop env dropCampaignId details inventory with
                        | None => hasPendingHigherPriorityStream_from rest
                        | Some firstUnclaimedDrop =>
                            match readyToClaim
                                    (getInventoryDrop env (drop_id firstUnclaimedDrop)
                                       inventory dropCampaignId) with
                            | Some inventoryDrop =>
                                _ ← try (claimDropReward inventoryDrop);
                                hasPendingHigherPriorityStream_from rest
                            | None =>
                                streams ← try (getActiveStreams dropCampaignId details);
                                match streams with
                                | Ok (_ :: _) => mret true
                                | _ => hasPendingHigherPriorityStream_from rest
                                end
                            end
                        end
                    end
                end
          end
  end.

Definition hasPendingHigherPriorityStream : M bool :=
  b ← get_bot;
  hasPendingHigherPriorityStream_from (pendingDropCampaignIds b).

(** [#getNextPendingDropCampaignId] *)
Fixpoint getNextPendingDropCampaignId_from (b : Bot) (time : Z) (ids : list string)
    : Result (option string) :=
  match ids with
  | [] => Ok None
  | dropCampaignId :: rest =>
      match dropCampaignMap b !! dropCampaignId with
      | None => Thrown TypeError
      | Some campaign =>
          if negb (String.eqb (status campaign) "ACTIVE") then
            getNextPendingDropCampaignId_from b time rest
          else if attemptedRecently b time dropCampaignId then
            getNextPendingDropCampaignId_from b time rest
          else Ok (Some dropCampaignId)
      end
  end.

Definition getNextPendingDropCampaignId : M (option string) :=
  b ← get_bot;
  time ← now;
  match getNextPendingDropCampaignId_from b time (pendingDropCampaignIds b) with
  | Ok r => mret r
  | Thrown e => throw e
  end.

(** The end of the [catch] block of [#watchStreamWrapper], under the comment
    "Increment failure counter". *)
Definition incrementFailureCounter (streamUrl : string) : M unit :=
  modify_bot (fun b =>
    match failedStreamUrlCounts b !! streamUrl with
    | Some _ => b
    | None => set_failedStreamUrlCounts (<[streamUrl := 0]> (failedStreamUrlCounts b)) b
    end);;
  modify_bot (fun b =>
    set_failedStreamUrlCounts
      (<[streamUrl := default 0 (failedStreamUrlCounts b !! streamUrl) + 1]>
         (failedStreamUrlCounts b)) b);;
  b ← get_bot;
  if failedStreamRetryCount options <=? default 0 (failedStreamUrlCounts b !! streamUrl) then
    time ← now;
    modify_bot (fun b =>
      set_failedStreamUrlCounts (<[streamUrl := 0]> (failedStreamUrlCounts b))
        (set_streamUrlTemporaryBlacklist
           (TimedSet_add time streamUrl (streamUrlTemporaryBlacklist b)) b))
  else mret tt.

(** [#watchStream]. The session runs on the page, with its listener and its
    components; how that ends is the environment's [watchStream]. Of the bot's
    fields kept here the session writes one: its main loop sets
    [#pendingHighPriority] to [false] just before it throws
    [HighPriorityError], and makes that error nowhere else. *)
Definition watchStreamSession (streamUrl : string) (components : Components) : M unit :=
  r ← try (call (EvWatchStream streamUrl) (watchStream env streamUrl components));
  match r with
  | Ok _ => mret tt
  | Thrown error =>
      (if isHighPriorityError error then modify_bot (set_pendingHighPriority false)
       else mret tt);;
      throw error
  end.

(** The state once a session has given way: the preemption flag is down. *)
Definition givenWay (s : State) : State :=
  {| bot := set_pendingHighPriority false (bot s); world := world s; trace := trace s |}.

(** [#watchStreamWrapper] *)
Definition watchStreamWrapper (streamUrl : string) (components : Components) : M unit :=
  r ← try (watchStreamSession streamUrl components);
  match r with
  | Ok _ => mret tt
  | Thrown error =>
      (if isHighPriorityError error then mret tt               (* Ignore *)
       else if isStreamLoadFailedError error then mret tt      (* a warning *)
       else if isStreamDownError error then
         time ← now;
         modify_bot (fun b =>
           set_failedStreamUrlCounts (<[streamUrl := 0]> (failedStreamUrlCounts b))
             (set_streamUrlTemporaryBlacklist
                (TimedSet_add time streamUrl (streamUrlTemporaryBlacklist b)) b))
       else if SAVE_ERROR_SCREENSHOTS env then
         call EvSaveScreenshot (saveScreenshotAndHtml env)
       else mret tt);;
      incrementFailureCounter streamUrl;;
      throw error
  end.

(** "Check if we have enough time to watch and claim this drop": the remaining
    time of the drop, in minutes, is less than the minutes still to watch.
    The source divides the milliseconds by [1000] and by [60]; the comparison
    is made on the milliseconds here. An end date that does not parse gives
    [NaN], and no comparison with it holds. *)
Definition isImpossibleDrop (time : Z) (drop : TimeBasedDrop) (currentMinutes : Z) : bool :=
  let remainingWatchTimeMinutes := requiredMinutesWatched drop - currentMinutes in
  match Date_parse env (drop_endAt drop) with
  | Num endTime => endTime - time <? remainingWatchTimeMinutes * 60000
  | NaN => false
  end.

(** The inner [while (true)] of [#processDropCampaign]: choose a stream and
    watch it until a session ends well. *)
Fixpoint watchLoop (fuel : nat) (dropCampaignId : string) (details : DropCampaign)
    (drop : TimeBasedDrop) : M unit :=
  match fuel with
  | O => diverge
  | S fuel' =>
      streams ← getActiveStreams dropCampaignId details;
      b ← get_bot;
      time ← now;
      let streams :=
        List.filter
          (fun stream =>
             negb (TimedSet_has time (url stream) (streamUrlTemporaryBlacklist b)))
          streams in
      match streams with
      | [] => throw NoStreamsError
      | first :: _ =>
          r ← try (watchStreamWrapper (url first) (CampaignComponents drop));
          match r with
          | Ok _ => mret tt
          | Thrown error =>
              if isHighPriorityError error then throw error
              else watchLoop fuel' dropCampaignId details drop
          end
      end
  end.

(** The outer [while (true)] of [#processDropCampaign]. *)
Fixpoint dropLoop (fuel : nat) (dropCampaignId : string) (details : DropCampaign)
    : M unit :=
  match fuel with
  | O => diverge
  | S fuel' =>
      inventory ← call EvGetInventory (client_getInventory env);
      match getFirstUnclaimedDrop env dropCampaignId details inventory with
      | None => mret tt
      | Some drop =>
          let inventoryDrop :=
            getInventoryDrop env (drop_id drop) inventory dropCampaignId in
          match readyToClaim inventoryDrop with
          | Some inventoryDrop =>
              claimDropReward inventoryDrop;;
              dropLoop fuel' dropCampaignId details
          | None =>
              let currentMinutes :=
                match inventoryDrop with
                | Some d => currentMinutesWatched d
                | None => 0
                end in
              time ← now;
              if negb (attemptImpossibleDropCampaigns options)
                 && isImpossibleDrop time drop currentMinutes
              then mret tt
              else
                modify_bot (set_failedStreamUrlCounts ∅);;
                watchLoop fuel' dropCampaignId details drop;;
                dropLoop fuel' dropCampaignId details
          end
      end
  end.

(** [#processDropCampaign] *)
Definition processDropCampaign (fuel : nat) (dropCampaignId : string) : M unit :=
  b ← get_bot;
  match getDropCampaignById (dropCampaignMap b) dropCampaignId with
  | None => throw TypeError
  | Some campaign =>
      time ← now;
      modify_bot (fun b =>
        set_lastDropCampaignAttemptTimes
          (<[dropCampaignId := time]> (lastDropCampaignAttemptTimes b)) b);;
      details ← call (EvGetDropCampaignDetails dropCampaignId)
                     (client_getDropCampaignDetails env dropCampaignId);
      dropLoop fuel dropCampaignId details
  end.

(** ** The handlers of the watchdog's events *)

(** The callback of [campaigns.forEach] in the ['update'] handler. *)
Definition addToPending (campaign : DropCampaign) : M unit :=
  let campaignStatus := status campaign in
  if negb (String.eqb campaignStatus "ACTIVE")
     && negb (String.eqb campaignStatus "UPCOMING") then mret tt
  else if includes (ignoredGameIds options) (game_id (game campaign)) then mret tt
  else
    let dropCampaignId := campaign_id campaign in
    modify_bot (fun b =>
      set_dropCampaignMap (<[dropCampaignId := campaign]> (dropCampaignMap b)) b);;
    if (Nat.eqb (length (gameIds options)) 0)
       || includes (gameIds options) (game_id (game campaign))
       || watchUnlistedGames options
    then
      b ← get_bot;
      match SortedArray_insert
              (comparator (Date_parse env) (gameIds options) (dropCampaignMap b))
              dropCampaignId (pendingDropCampaignIds b) with
      | Ok ids => modify_bot (set_pendingDropCampaignIds ids)
      | Thrown e => throw e
      end
    else mret tt.

Fixpoint forEach {A} (f : A -> M unit) (xs : list A) : M unit :=
  match xs with
  | [] => mret tt
  | x :: rest => f x;; forEach f rest
  end.

(** The ['update'] handler. *)
Definition onUpdate (campaigns : list DropCampaign) : M unit :=
  modify_bot (set_pendingDropCampaignIds []);;
  forEach addToPending campaigns;;
  b ← get_bot;
  match currentDropCampaignId b with
  | Some _ =>
      higher ← hasPendingHigherPriorityStream;
      if higher : bool then modify_bot (set_pendingHighPriority true) else mret tt
  | None => mret tt
  end;;
  emit EvNotifyAll.

(** The ['error'] handler: a debug message. *)
Definition onError (error : Error) : M unit := mret tt.

(** Modelled from the spec: the class [TwitchDropsWatchdog] of
    [src/watchdog.ts] is not among the sources. On each tick it announces the
    refresh, asks the client for the campaigns and emits the refreshed list
    or, when the call fails, an error signal; the tick ends normally either
    way and the next one is scheduled. *)
Definition watchdogTick : M unit :=
  emit (EvEmit "before_update");;
  r ← try (call EvGetDropCampaigns (client_getDropCampaigns env));
  match r with
  | Ok campaigns =>
      emit (EvEmit "update");;
      _ ← try (onUpdate campaigns);
      mret tt
  | Thrown error =>
      emit (EvEmit "error");;
      _ ← try (onError error);
      mret tt
  end.

(** ** The main loop, [start] *)

(** The body of the loop under "Determine how long to sleep": a recorded
    (truthy) attempt time lowers the minimum. *)
Definition earlierAttempt (attempts : gmap string Z) (minTime : Z)
    (pendingDropCampaignId : string) : Z :=
  match attempts !! pendingDropCampaignId with
  | Some lastCheckTime =>
      if lastCheckTime =? 0 then minTime else Z.min minTime lastCheckTime
  | None => minTime
  end.

(** The scan of the queue for the smallest recorded attempt time, begun at the
    clock's reading [time0]. *)
Definition minLastDropCampaignCheckTime (b : Bot) (time0 : Z) : Z :=
  fold_left (earlierAttempt (lastDropCampaignAttemptTimes b))
            (pendingDropCampaignIds b) time0.

(** [sleepTime], from the clock's readings before and after the scan. *)
Definition sleepTime (b : Bot) (time0 time1 : Z) : Z :=
  Z.max 0 (sleepTimeMilliseconds - (time1 - minLastDropCampaignCheckTime b time0)).

(** The branch of [start] taken when no campaign can be attempted and the bot
    does not watch streams in the meantime. *)
Definition sleepUntilNotified : M unit :=
  call (EvGoto "about:blank") (page_goto env "about:blank");;
  time0 ← now;
  b ← get_bot;
  time1 ← now;
  emit (EvSetTimeoutNotifyAll (sleepTime b time0 time1));;
  wait.

(** The branch of [start] that attempts the campaign chosen. *)
Definition attemptCampaign (fuel : nat) (dropCampaignId : string) : M unit :=
  finally
    (r ← try (processDropCampaign fuel dropCampaignId);
     mret tt)
    (modify_bot (set_currentDropCampaignId None)).

(** One turn of the [while (true)] of [start]. The branch that watches a
    stream while no campaign is active starts a timer of its own next to the
    session; it is the argument [idle]. *)
Definition startIteration (idle : M unit) (fuel : nat) : M unit :=
  next ← getNextPendingDropCampaignId;
  modify_bot (set_currentDropCampaignId next);;
  match next with
  | None =>
      if watchStreamsWhenNoDropCampaignsActive options then idle
      else sleepUntilNotified
  | Some dropCampaignId => attemptCampaign fuel dropCampaignId
  end.

(** ** The higher-priority check in the words of its specification

    [HigherPriorityCheck ids s found s'] reads: scanning the candidates [ids]
    in order from the state [s] reports [found] and leaves the state [s']. *)

(** The campaign was attempted within the cool-down window: an attempt is on
    record, less than five minutes before the present time of [s]. (A
    recorded time of 0 is no record: times are read with the clock, and 0 is
    what the program takes for none.) *)
Definition withinCoolDown (s : State) (dropCampaignId : string) : Prop :=
  exists attempt,
    lastDropCampaignAttemptTimes (bot s) !! dropCampaignId = Some attempt /\
    attempt <> 0 /\
    getTime env (world s) - attempt < 5 * 60 * 1000.

(** A live stream that counts for the campaign: when the detail record has its
    allow list enabled and names channels, the stream's broadcaster is one of
    them; otherwise any stream counts. *)
Definition eligibleStream (details : DropCampaign) (stream : Stream) : Prop :=
  forall allowed,
    isEnabled (allow details) = true ->
    channels (allow details) = Some allowed ->
    exists channel, channel ∈ allowed /\ channel_id channel = broadcaster_id stream.

(** A candidate the scan looks into: not the active campaign, not attempted
    within the cool-down window, and ACTIVE. *)
Definition isCandidate (s : State) (dropCampaignId : string) (campaign : DropCampaign)
    : Prop :=
  currentDropCampaignId (bot s) <> Some dropCampaignId /\
  ~ withinCoolDown s dropCampaignId /\
  dropCampaignMap (bot s) !! dropCampaignId = Some campaign /\
  status campaign = "ACTIVE"%string.

(** Both fetches for the candidate succeeded and left the state [s2]. *)
Definition fetched (s : State) (dropCampaignId : string) (inventory : Inventory)
    (details : DropCampaign) (s2 : State) : Prop :=
  exists w1 w2,
    client_getInventory env (world s) = (Ok inventory, w1) /\
    client_getDropCampaignDetails env dropCampaignId w1 = (Ok details, w2) /\
    s2 = record (EvGetDropCampaignDetails dropCampaignId) w2 (record EvGetInventory w1 s).

(** The inventory shows the drop with its minutes watched. *)
Definition watchComplete (inventory : Inventory) (dropCampaignId : string)
    (drop inventoryDrop : TimeBasedDrop) : Prop :=
  getInventoryDrop env (drop_id drop) inventory dropCampaignId = Some inventoryDrop /\
  requiredMinutesWatched inventoryDrop <= currentMinutesWatched inventoryDrop.

Inductive HigherPriorityCheck : list string -> State -> bool -> State -> Prop :=
| check_exhausted s :
    HigherPriorityCheck [] s false s
| check_reaches_active dropCampaignId rest s :
    currentDropCampaignId (bot s) = Some dropCampaignId ->
    HigherPriorityCheck (dropCampaignId :: rest) s false s
| check_skips_recent dropCampaignId rest s found s' :
    currentDropCampaignId (bot s) <> Some dropCampaignId ->
    withinCoolDown s dropCampaignId ->
    HigherPriorityCheck rest s found s' ->
    HigherPriorityCheck (dropCampaignId :: rest) s found s'
| check_skips_inactive dropCampaignId rest campaign s found s' :
    currentDropCampaignId (bot s) <> Some dropCampaignId ->
    dropCampaignMap (bot s) !! dropCampaignId = Some campaign ->
    status campaign <> "ACTIVE"%string ->
    HigherPriorityCheck rest s found s' ->
    HigherPriorityCheck (dropCampaignId :: rest) s found s'
| check_skips_failed_inventory dropCampaignId rest campaign s e w1 found s' :
    isCandidate s dropCampaignId campaign ->
    client_getInventory env (world s) = (Thrown e, w1) ->
    HigherPriorityCheck rest (record EvGetInventory w1 s) found s' ->
    HigherPriorityCheck (dropCampaignId :: rest) s found s'
| check_skips_failed_details dropCampaignId rest campaign s inventory w1 e w2 found s' :
    isCandidate s dropCampaignId campaign ->
    client_getInventory env (world s) = (Ok inventory, w1) ->
    client_getDropCampaignDetails env dropCampaignId w1 = (Thrown e, w2) ->
    HigherPriorityCheck rest
      (record (EvGetDropCampaignDetails dropCampaignId) w2 (record EvGetInventory w1 s))
      found s' ->
    HigherPriorityCheck (dropCampaignId :: rest) s found s'
| check_skips_all_claimed dropCampaignId rest campaign s inventory details s2 found s' :
    isCandidate s dropCampaignId campaign ->
    fetched s dropCampaignId inventory details s2 ->
    getFirstUnclaimedDrop env dropCampaignId details inventory = None ->
    HigherPriorityCheck rest s2 found s' ->
    HigherPriorityCheck (dropCampaignId :: rest) s found s'
| check_claims_ready dropCampaignId rest campaign s inventory details s2
    drop inventoryDrop answer w3 found s' :
    isCandidate s dropCampaignId campaign ->
    fetched s dropCampaignId inventory details s2 ->
    getFirstUnclaimedDrop env dropCampaignId details inventory = Some drop ->
    watchComplete inventory dropCampaignId drop inventoryDrop ->
    client_claimDropReward env (dropInstanceID inventoryDrop) (world s2) = (answer, w3) ->
    HigherPriorityCheck rest
      (record (EvClaimDropReward (dropInstanceID inventoryDrop)) w3 s2) found s' ->
    HigherPriorityCheck (dropCampaignId :: rest) s found s'
| check_finds_stream dropCampaignId rest campaign s inventory details s2 drop streams w3 :
    isCandidate s dropCampaignId campaign ->
    fetched s dropCampaignId inventory details s2 ->
    getFirstUnclaimedDrop env dropCampaignId details inventory = Some drop ->
    (forall inventoryDrop, ~ watchComplete inventory dropCampaignId drop inventoryDrop) ->
    client_getActiveStreams env (displayName (game campaign)) (world s2)
      = (Ok streams, w3) ->
    (exists stream, stream ∈ streams /\ eligibleStream details stream) ->
    HigherPriorityCheck (dropCampaignId :: rest) s true
      (record (EvGetActiveStreams (displayName (game campaign))) w3 s2)
| check_skips_no_stream dropCampaignId rest campaign s inventory details s2 drop
    streams w3 found s' :
    isCandidate s dropCampaignId campaign ->
    fetched s dropCampaignId inventory details s2 ->
    getFirstUnclaimedDrop env dropCampaignId details inventory = Some drop ->
    (forall inventoryDrop, ~ watchComplete inventory dropCampaignId drop inventoryDrop) ->
    client_getActiveStreams env (displayName (game campaign)) (world s2)
      = (Ok streams, w3) ->
    (forall stream, stream ∈ streams -> ~ eligibleStream details stream) ->
    HigherPriorityCheck rest
      (record (EvGetActiveStreams (displayName (game campaign))) w3 s2) found s' ->
    HigherPriorityCheck (dropCampaignId :: rest) s found s'
| check_skips_failed_streams dropCampaignId rest campaign s inventory details s2 drop
    e w3 found s' :
    isCandidate s dropCampaignId campaign ->
    fetched s dropCampaignId inventory details s2 ->
    getFirstUnclaimedDrop env dropCampaignId details inventory = Some drop ->
    (forall inventoryDrop, ~ watchComplete inventory dropCampaignId drop inventoryDrop) ->
    client_getActiveStreams env (displayName (game campaign)) (world s2)
      = (Thrown e, w3) ->
    HigherPriorityCheck rest
      (record (EvGetActiveStreams (displayName (game campaign))) w3 s2) found s' ->
    HigherPriorityCheck (dropCampaignId :: rest) s found s'.

(** Every identifier in the pending queue has its campaign in the map. *)
Definition queueInMap (b : Bot) : Prop :=
  forall id, id ∈ pendingDropCampaignIds b -> is_Some (dropCampaignMap b !! id).

(** ** The refresh in the words of its specification *)

(** A fetched campaign that belongs in the pending queue. *)
Definition eligible (campaign : DropCampaign) : Prop :=
  (status campaign = "ACTIVE"%string \/ status campaign = "UPCOMING"%string) /\
  (game_id (game campaign) ∉ ignoredGameIds options) /\
  (game_id (game campaign) ∈ gameIds options \/
   gameIds options = [] \/
   watchUnlistedGames options = true).

(** The events a piece of code added to the trace. *)
Definition eventsSince (s s' : State) : list Event :=
  drop (length (trace s)) (trace s').

(** The second state has the trace of the first and possibly more. *)
Definition extends (s s' : State) : Prop :=
  exists evs, trace s' = trace s ++ evs.

(** Code that only ever adds to the trace. *)
Definition growing {A} (m : M A) : Prop :=
  forall s, extends s (snd (m s)).

(** Code whose first addition to the trace is [ev]. *)
Definition beginsWith {A} (ev : Event) (m : M A) : Prop :=
  forall s, exists evs, trace (snd (m s)) = trace s ++ ev :: evs.

End TwitchDropsBot.

(** ** A small world to run the bot in *)

Module Scenario.

(** The world: a clock, and the drops the account has not claimed yet, in the
    order of the inventory. *)
Record World : Type := {
  clock : Z;
  unclaimed : list TimeBasedDrop
}.

Definition tick (ms : Z) (w : World) : World :=
  {| clock := clock w + ms; unclaimed := unclaimed w |}.

Definition claim (instanceId : string) (w : World) : World :=
  {| clock := clock w;
     unclaimed :=
       List.filter (fun d => negb (String.eqb (dropInstanceID d) instanceId))
                   (unclaimed w) |}.

Definition parseDate (text : string) : JsNumber :=
  if String.eqb text "2022-03-01T00:00:00Z" then Num 1646092800000
  else if String.eqb text "2022-03-02T00:00:00Z" then Num 1646179200000
  else NaN.

(** The world answers every call; what the campaign list, the stream list,
    the claim and the session answer is chosen by the scenario. *)
Definition scenario (campaigns : Result (list DropCampaign))
    (details : Result DropCampaign) (streams : Result (list Stream))
    (claimed : Result unit) (session : Result unit)
    : Env World (list TimeBasedDrop) :=
  {| Date_parse := parseDate;
     getTime := clock;
     getFirstUnclaimedDrop := fun _ _ inventory => head inventory;
     getInventoryDrop := fun dropId inventory _ =>
       List.find (fun d => String.eqb (drop_id d) dropId) inventory;
     client_getDropCampaigns := fun w => (campaigns, tick 1 w);
     client_getDropCampaignDetails := fun _ w => (details, tick 1 w);
     client_getInventory := fun w => (Ok (unclaimed w), tick 1 w);
     client_claimDropReward := fun instanceId w =>
       match claimed with
       | Ok _ => (claimed, claim instanceId (tick 1 w))
       | Thrown _ => (claimed, tick 1 w)
       end;
     client_getActiveStreams := fun _ w => (streams, tick 1 w);
     page_goto := fun _ w => (Ok tt, tick 1 w);
     watchStream := fun _ _ w => (session, tick 60000 w);
     SAVE_ERROR_SCREENSHOTS := false;
     saveScreenshotAndHtml := fun w => (Ok tt, w);
     notifier_wait := tick sleepTimeMilliseconds |}.

Definition gameOne : Game := {| game_id := "g1"; displayName := "Game One" |}.
Definition gameTwo : Game := {| game_id := "g2"; displayName := "Game Two" |}.

Definition campaignA : DropCampaign :=
  {| campaign_id := "campaign-a"; campaign_name := "Alpha"; status := "ACTIVE";
     game := gameOne; endAt := "2022-03-02T00:00:00Z"; isAccountConnected := true;
     allow := {| isEnabled := false; channels := None |} |}.

Definition campaignB : DropCampaign :=
  {| campaign_id := "campaign-b"; campaign_name := "Beta"; status := "ACTIVE";
     game := gameTwo; endAt := "2022-03-01T00:00:00Z"; isAccountConnected := true;
     allow := {| isEnabled := false; channels := None |} |}.

Definition campaignC : DropCampaign :=
  {| campaign_id := "campaign-c"; campaign_name := "Gamma"; status := "EXPIRED";
     game := gameOne; endAt := "2022-03-01T00:00:00Z"; isAccountConnected := true;
     allow := {| isEnabled := false; channels := None |} |}.

Definition options : Options :=
  {| gameIds := ["g1"%string];
     watchUnlistedGames := true;
     ignoredGameIds := [];
     failedStreamRetryCount := 3;
     failedStreamBlacklistTimeout := 30;
     showAccountNotLinkedWarning := true;
     attemptImpossibleDropCampaigns := true;
     watchStreamsWhenNoDropCampaignsActive := false |}.

Definition streamOne : Stream :=
  {| url := "https://www.twitch.tv/one"; broadcaster_id := "1001" |}.

(** A drop watched for 10 of its 60 minutes, and one watched in full. *)
Definition dropInProgress : TimeBasedDrop :=
  {| drop_id := "drop-1"; requiredMinutesWatched := 60;
     drop_endAt := "2022-03-02T00:00:00Z";
     currentMinutesWatched := 10; dropInstanceID := "instance-1" |}.

Definition dropWatched : TimeBasedDrop :=
  {| drop_id := "drop-2"; requiredMinutesWatched := 60;
     drop_endAt := "2022-03-02T00:00:00Z";
     currentMinutesWatched := 60; dropInstanceID := "instance-2" |}.

Definition campaignMap : gmap string DropCampaign :=
  <["campaign-a"%string := campaignA]> (<["campaign-b"%string := campaignB]> ∅).

(** The bot while it works on campaign B, with campaign A ahead in the
    queue. *)
Definition busyBot : Bot :=
  {| pendingDropCampaignIds := ["campaign-a"%string; "campaign-b"%string];
     dropCampaignMap := campaignMap;
     currentDropCampaignId := Some "campaign-b"%string;
     pendingHighPriority := false;
     lastDropCampaignAttemptTimes := ∅;
     failedStreamUrlCounts := ∅;
     streamUrlTemporaryBlacklist :=
       TimedSet_new (1000 * 60 * failedStreamBlacklistTimeout options) |}.

(** The same bot between two attempts. *)
Definition restingBot : Bot := set_currentDropCampaignId None busyBot.

Definition startState (b : Bot) (drops : list TimeBasedDrop) : State :=
  {| bot := b;
     world := {| clock := 1646000000000; unclaimed := drops |};
     trace := [] |}.

(** The bot with both campaigns attempted a minute and two minutes ago. *)
Definition cooledBot : Bot :=
  set_lastDropCampaignAttemptTimes
    (<["campaign-a"%string := 1646000000000 - 60000]>
       (<["campaign-b"%string := 1646000000000 - 120000]> ∅))
    restingBot.

(** The bot at work on campaign B while the only live stream of campaign A is
    on the blacklist. *)
Definition wearyBot : Bot :=
  set_streamUrlTemporaryBlacklist
    (TimedSet_add 1646000000000 "https://www.twitch.tv/one"
       (streamUrlTemporaryBlacklist busyBot))
    busyBot.

(** Options that give up on a stream at its first failure. *)
Definition strictOptions : Options :=
  {| gameIds := ["g1"%string];
     watchUnlistedGames := true;
     ignoredGameIds := [];
     failedStreamRetryCount := 1;
     failedStreamBlacklistTimeout := 30;
     showAccountNotLinkedWarning := true;
     attemptImpossibleDropCampaigns := true;
     watchStreamsWhenNoDropCampaignsActive := false |}.

End Scenario.

(** * More of the bot

    Code beside the functions modelled so far, and the vocabulary the further
    properties are stated in. *)

(** ** Words for the comparator *)

Section ComparatorRank.
Variable Date_parse : string -> JsNumber.
Variable priorities : list string.
Variable campaigns : gmap string DropCampaign.

(** The rank of a game: its index in the list, or the length of the list
    when it is not there. *)
Definition rank (gameId : string) : Z :=
  let i := indexOf priorities gameId in
  if i =? -1 then Z.of_nat (length priorities) else i.

(** A campaign in the map whose end date parses. *)
Definition dated (campaignId : string) : Prop :=
  exists campaign endTime,
    campaigns !! campaignId = Some campaign /\
    Date_parse (endAt campaign) = Num endTime.
End ComparatorRank.

(** ** Words for the scans of the queue *)

(** A campaign the scans pass over: in the map, and not ACTIVE or attempted
    within the cool-down window. *)
Definition passedOver (b : Bot) (time : Z) (dropCampaignId : string) : Prop :=
  exists campaign,
    dropCampaignMap b !! dropCampaignId = Some campaign /\
    (status campaign <> "ACTIVE"%string \/
     attemptedRecently b time dropCampaignId = true).

(** A campaign the scans stop at: in the map, ACTIVE and not attempted within
    the cool-down window. *)
Definition attemptable (b : Bot) (time : Z) (dropCampaignId : string) : Prop :=
  exists campaign,
    dropCampaignMap b !! dropCampaignId = Some campaign /\
    status campaign = "ACTIVE"%string /\
    attemptedRecently b time dropCampaignId = false.

(** ** Words for what a run leaves alone *)

(** The fields by which campaigns are scheduled, the preemption flag apart. *)
Definition sameSchedule (b b' : Bot) : Prop :=
  pendingDropCampaignIds b' = pendingDropCampaignIds b /\
  dropCampaignMap b' = dropCampaignMap b /\
  currentDropCampaignId b' = currentDropCampaignId b /\
  lastDropCampaignAttemptTimes b' = lastDropCampaignAttemptTimes b.

(** The run ended by throwing the preemption signal. *)
Definition preempted {A} (o : Outcome A) : bool :=
  match o with
  | Throws e => isHighPriorityError e
  | _ => false
  end.

(** A computation that never raises the preemption flag, and leaves it as it
    was unless it ends by throwing the preemption signal. *)
Definition yieldsOnPreemption {World A} (m : @M World A) : Prop :=
  forall s,
    (preempted (fst (m s)) = false ->
     pendingHighPriority (bot (snd (m s))) = pendingHighPriority (bot s)) /\
    (pendingHighPriority (bot (snd (m s))) = true -> pendingHighPriority (bot s) = true).

(** Only a session makes the preemption signal: no call of the client and no
    screenshot throws it. *)
Definition onlySessionsPreempt {World Inventory} (env : Env World Inventory) : Prop :=
  (forall w e, fst (client_getInventory env w) = Thrown e -> isHighPriorityError e = false) /\
  (forall id w e, fst (client_getDropCampaignDetails env id w) = Thrown e ->
                  isHighPriorityError e = false) /\
  (forall id w e, fst (client_claimDropReward env id w) = Thrown e ->
                  isHighPriorityError e = false) /\
  (forall name w e, fst (client_getActiveStreams env name w) = Thrown e ->
                    isHighPriorityError e = false) /\
  (forall w e, fst (saveScreenshotAndHtml env w) = Thrown e -> isHighPriorityError e = false).

(** A computation that, when it ends by throwing the preemption signal, leaves
    the preemption flag down. *)
Definition givesWay {World A} (m : @M World A) : Prop :=
  forall s,
    preempted (fst (m s)) = true -> pendingHighPriority (bot (snd (m s))) = false.

(** The counters and blacklist entries of the urls other than [streamUrl]. *)
Definition sameOtherStreams (streamUrl : string) (b b' : Bot) : Prop :=
  ts_timeout (streamUrlTemporaryBlacklist b') = ts_timeout (streamUrlTemporaryBlacklist b) /\
  forall other, other <> streamUrl ->
    failedStreamUrlCounts b' !! other = failedStreamUrlCounts b !! other /\
    ts_expiry (streamUrlTemporaryBlacklist b') !! other
      = ts_expiry (streamUrlTemporaryBlacklist b) !! other.

(** What a run of the ['update'] handler leaves alone: everything but the
    queue, the map and the preemption flag. *)
Definition sameSession (b b' : Bot) : Prop :=
  currentDropCampaignId b' = currentDropCampaignId b /\
  lastDropCampaignAttemptTimes b' = lastDropCampaignAttemptTimes b /\
  failedStreamUrlCounts b' = failedStreamUrlCounts b /\
  streamUrlTemporaryBlacklist b' = streamUrlTemporaryBlacklist b.

(** A computation that, however it ends, leaves the schedule as it was. *)
Definition keepsSchedule {World A} (m : @M World A) : Prop :=
  forall s, sameSchedule (bot s) (bot (snd (m s))).

(** The errors [#watchStreamWrapper] has a branch for. *)
Definition expectedError (e : Error) : bool :=
  isHighPriorityError e || isStreamLoadFailedError e || isStreamDownError e.

(** A fetched campaign that the ['update'] handler writes to the map: ACTIVE
    or UPCOMING, of a game that is not ignored. *)
Definition recorded (options : Options) (campaign : DropCampaign) : Prop :=
  (status campaign = "ACTIVE"%string \/ status campaign = "UPCOMING"%string) /\
  game_id (game campaign) ∉ ignoredGameIds options.

(** ** Sessions one after the other *)

Section Sessions.
Context {World Inventory : Type}.
Variable env : Env World Inventory.
Variable options : Options.

(** Sessions on one stream one after the other, each caught as the loops that
    call [#watchStreamWrapper] do. *)
Fixpoint sessionsInARow (n : nat) (streamUrl : string) (components : Components)
    : M unit :=
  match n with
  | O => mret tt
  | S k =>
      _ ← try (watchStreamWrapper env options streamUrl components);
      sessionsInARow k streamUrl components
  end.
End Sessions.

(** ** Choosing a stream to idle on *)

(** The two calls of [Client] that only [#getNextIdleStreamUrl] makes:
    [isStreamOnline(broadcasterId)] and [getActiveStreams(gameName)] without
    the tag filter. *)
Record IdleClient (World : Type) : Type := {
  client_isStreamOnline : string -> World -> Result bool * World;
  client_getStreamsOfGame : string -> World -> Result (list Stream) * World
}.
Arguments client_isStreamOnline {World} _ _ _.
Arguments client_getStreamsOfGame {World} _ _ _.

Section Idle.
Context {World Inventory : Type}.
Variable env : Env World Inventory.
Variable idleClient : IdleClient World.

(** The first loop of [#getNextIdleStreamUrl], over [#broadcasterIds]. *)
Fixpoint idleBroadcasterUrl (blacklist : TimedSet) (broadcasterIds : list string)
    (w : World) : Result (option string) * World :=
  match broadcasterIds with
  | [] => (Ok None, w)
  | broadcasterId :: rest =>
      let (online, w1) := client_isStreamOnline idleClient broadcasterId w in
      match online with
      | Thrown e => (Thrown e, w1)
      | Ok false => idleBroadcasterUrl blacklist rest w1
      | Ok true =>
          let streamUrl := ("https://www.twitch.tv/" ++ broadcasterId)%string in
          if TimedSet_has (getTime env w1) streamUrl blacklist
          then idleBroadcasterUrl blacklist rest w1
          else (Ok (Some streamUrl), w1)
      end
  end.

(** The last loop, over [#pendingDropCampaignIds]: only [streams[0]] of each
    campaign's game is looked at. *)
Fixpoint idleCampaignUrl (b : Bot) (ids : list string) (w : World)
    : Result (option string) * World :=
  match ids with
  | [] => (Ok None, w)
  | dropCampaignId :: rest =>
      match dropCampaignMap b !! dropCampaignId with
      | None => (Thrown TypeError, w)
      | Some campaign =>
          let (streams, w1) :=
            client_getStreamsOfGame idleClient (displayName (game campaign)) w in
          match streams with
          | Thrown e => (Thrown e, w1)
          | Ok [] => idleCampaignUrl b rest w1
          | Ok (first :: _) =>
              if TimedSet_has (getTime env w1) (url first) (streamUrlTemporaryBlacklist b)
              then idleCampaignUrl b rest w1
              else (Ok (Some (url first)), w1)
          end
      end
  end.

(** [#getNextIdleStreamUrl]; the loop over [#gameIds] has an empty body.
    [broadcasterIds] is the bot's [#broadcasterIds]. *)
Definition getNextIdleStreamUrl (broadcasterIds : list string) (b : Bot) (w : World)
    : Result (option string) * World :=
  match idleBroadcasterUrl (streamUrlTemporaryBlacklist b) broadcasterIds w with
  | (Ok None, w1) => idleCampaignUrl b (pendingDropCampaignIds b) w1
  | found => found
  end.

(** Where an idle stream can come from: a configured broadcaster, or the
    first stream listed for the game of a pending campaign. *)
Definition idleSource (broadcasterIds : list string) (b : Bot) (streamUrl : string)
    : Prop :=
  (exists broadcasterId,
     broadcasterId ∈ broadcasterIds /\
     streamUrl = ("https://www.twitch.tv/" ++ broadcasterId)%string) \/
  (exists dropCampaignId campaign w first others,
     dropCampaignId ∈ pendingDropCampaignIds b /\
     dropCampaignMap b !! dropCampaignId = Some campaign /\
     fst (client_getStreamsOfGame idleClient (displayName (game campaign)) w)
       = Ok (first :: others) /\
     streamUrl = url first).
End Idle.

(** ** Waiting for an element to render *)

(** A JavaScript string as its UTF-16 code units, so that [.length] is the
    length of the list. *)
Definition JsString : Type := list N.

(** The element and the page as [#waitUntilElementRendered] uses them:
    [(await element.getProperty('outerHTML'))?.jsonValue()], which may be
    undefined, and [page.waitForTimeout]. *)
Record RenderedPage (World : Type) : Type := {
  element_outerHTML : World -> Result (option JsString) * World;
  page_waitForTimeout : Z -> World -> Result unit * World
}.
Arguments element_outerHTML {World} _ _.
Arguments page_waitForTimeout {World} _ _ _.

(** What a run of the loop leaves: how it ended, the world, and the sizes it
    read in order. *)
Record Rendering (World : Type) : Type := {
  ended : Result unit;
  worldAfter : World;
  sizesRead : list Z
}.
Arguments ended {World} _.
Arguments worldAfter {World} _.
Arguments sizesRead {World} _.

Section Render.
Context {World : Type}.
Variable page : RenderedPage World.

Definition checkDurationMsecs : Z := 1000.
Definition minStableSizeIterations : Z := 3.

Definition read (size : Z) (r : Rendering World) : Rendering World :=
  {| ended := ended r; worldAfter := worldAfter r; sizesRead := size :: sizesRead r |}.

(** The [while (checkCounts++ <= maxChecks)] of [#waitUntilElementRendered],
    with [checks] turns left. *)
Fixpoint renderLoop (checks : nat) (lastHTMLSize countStableSizeIterations : Z)
    (w : World) : Rendering World :=
  match checks with
  | O => {| ended := Ok tt; worldAfter := w; sizesRead := [] |}
  | S remaining =>
      let (html, w1) := element_outerHTML page w in
      match html with
      | Thrown e => {| ended := Thrown e; worldAfter := w1; sizesRead := [] |}
      | Ok None | Ok (Some []) =>
          {| ended := Thrown (OtherError "HTML was undefined!"); worldAfter := w1; sizesRead := [] |}
      | Ok (Some text) =>
          let currentHTMLSize := Z.of_nat (length text) in
          let count :=
            if negb (lastHTMLSize =? 0) && (currentHTMLSize =? lastHTMLSize)
            then countStableSizeIterations + 1 else 0 in
          if minStableSizeIterations <=? count
          then {| ended := Ok tt; worldAfter := w1; sizesRead := [currentHTMLSize] |}
          else
            let (waited, w2) := page_waitForTimeout page checkDurationMsecs w1 in
            match waited with
            | Thrown e => {| ended := Thrown e; worldAfter := w2; sizesRead := [currentHTMLSize] |}
            | Ok _ => read currentHTMLSize (renderLoop remaining currentHTMLSize count w2)
            end
      end
  end.

(** [#waitUntilElementRendered(page, element, timeout)]: [checkCounts] runs
    from 1 while it is at most [timeout / 1000], so the loop has
    [floor(timeout / 1000)] turns at most. *)
Definition waitUntilElementRendered (timeout : Z) (w : World) : Rendering World :=
  renderLoop (Z.to_nat (timeout / checkDurationMsecs)) 0 0 w.
End Render.

(** ** The community points component *)

(** The stream page as [CommunityPointsComponent.onUpdate] uses it:
    [expandChatColumn()], the number of buttons [page.$x] finds, and the
    click on the first of them. *)
Record PointsPage (World : Type) : Type := {
  expandChatColumn : World -> Result unit * World;
  claimButtons : World -> Result nat * World;
  clickFirstButton : World -> Result unit * World
}.
Arguments expandChatColumn {World} _ _.
Arguments claimButtons {World} _ _.
Arguments clickFirstButton {World} _ _.

Section CommunityPoints.
Context {World : Type}.
Variable page : PointsPage World.

End CommunityPoints.

(** ** Further small worlds *)

Module Cases.

(** A campaign of game one whose end date does not parse. *)
Definition campaignD : DropCampaign :=
  {| campaign_id := "campaign-d"; campaign_name := "Delta"; status := "ACTIVE";
     game := Scenario.gameOne; endAt := "soon"; isAccountConnected := true;
     allow := {| isEnabled := false; channels := None |} |}.

Definition threeCampaigns : gmap string DropCampaign :=
  <["campaign-c"%string := Scenario.campaignC]> Scenario.campaignMap.

Definition undatedCampaigns : gmap string DropCampaign :=
  <["campaign-d"%string := campaignD]> Scenario.campaignMap.

Definition streamTwo : Stream :=
  {| url := "https://www.twitch.tv/two"; broadcaster_id := "1002" |}.

(** The detail record of campaign D, with its allow list enabled: the channel
    of stream one only. *)
Definition detailsD : DropCampaign :=
  {| campaign_id := "campaign-d"; campaign_name := "Delta"; status := "ACTIVE";
     game := Scenario.gameOne; endAt := "soon"; isAccountConnected := true;
     allow := {| isEnabled := true; channels := Some [{| channel_id := "1001" |}] |} |}.

(** The bot at work on campaign B with campaigns A and D ahead in the queue,
    campaign A attempted a minute ago. *)
Definition choosyBot : Bot :=
  set_lastDropCampaignAttemptTimes
    (<["campaign-a"%string := 1646000000000 - 60000]> ∅)
    (set_dropCampaignMap undatedCampaigns
       (set_pendingDropCampaignIds
          ["campaign-a"%string; "campaign-d"%string; "campaign-b"%string]
          Scenario.busyBot)).


(** A world whose inventory lags: a claim is answered, and the drop stays in
    the inventory. *)
Definition lagging (env : Env Scenario.World (list TimeBasedDrop))
    : Env Scenario.World (list TimeBasedDrop) :=
  {| Date_parse := Date_parse env;
     getTime := getTime env;
     getFirstUnclaimedDrop := getFirstUnclaimedDrop env;
     getInventoryDrop := getInventoryDrop env;
     client_getDropCampaigns := client_getDropCampaigns env;
     client_getDropCampaignDetails := client_getDropCampaignDetails env;
     client_getInventory := client_getInventory env;
     client_claimDropReward := fun _ w => (Ok tt, Scenario.tick 1 w);
     client_getActiveStreams := client_getActiveStreams env;
     page_goto := page_goto env;
     watchStream := watchStream env;
     SAVE_ERROR_SCREENSHOTS := SAVE_ERROR_SCREENSHOTS env;
     saveScreenshotAndHtml := saveScreenshotAndHtml env;
     notifier_wait := notifier_wait env |}.

(** A client that answers at once: the broadcasters of [online] are live, and
    every game has the streams [streams]. *)
Definition quietClient (online : list string) (streams : list Stream)
    : IdleClient Scenario.World :=
  {| client_isStreamOnline := fun broadcasterId w => (Ok (includes online broadcasterId), w);
     client_getStreamsOfGame := fun _ w => (Ok streams, w) |}.


(** An element whose html has three code units at every reading; the world
    counts the readings. *)
Definition settledPage : RenderedPage nat :=
  {| element_outerHTML := fun w => (Ok (Some [60%N; 112%N; 62%N]), S w);
     page_waitForTimeout := fun _ w => (Ok tt, w) |}.

End Cases.

(** * Properties *)
(** *** Facts about [indexOf] *)

Lemma indexOf_from_range xs x i :
  indexOf_from xs x i = -1 \/ i <= indexOf_from xs x i.
Proof.
  revert i. induction xs as [|y ys IH]; intros i; simpl.
  - now left.
  - destruct (String.eqb y x).
    + right. lia.
    + destruct (IH (i + 1)) as [H|H]; [now left | right; lia].
Qed.

Lemma indexOf_from_absent xs x i :
  0 <= i -> (indexOf_from xs x i = -1 <-> x ∉ xs).
Proof.
  revert i. induction xs as [|y ys IH]; intros i Hi; simpl.
  - split; [intros _; apply not_elem_of_nil | reflexivity].
  - destruct (String.eqb_spec y x) as [->|Hne].
    + split; [lia | intros H; exfalso; apply H; left].
    + rewrite (IH (i + 1)) by lia. rewrite not_elem_of_cons.
      split; [intros H; split; [congruence | exact H] | intros [_ H]; exact H].
Qed.

Lemma indexOf_absent xs x : indexOf xs x = -1 <-> x ∉ xs.
Proof. apply indexOf_from_absent. lia. Qed.

Lemma indexOf_present xs x : indexOf xs x <> -1 <-> x ∈ xs.
Proof.
  rewrite indexOf_absent. split.
  - intros H. destruct (decide (x ∈ xs)); [assumption | contradiction].
  - intros H Hn. contradiction.
Qed.

Lemma indexOf_head x xs : indexOf (x :: xs) x = 0.
Proof. unfold indexOf. simpl. now rewrite String.eqb_refl. Qed.

Lemma indexOf_nonneg xs x : indexOf xs x = -1 \/ 0 <= indexOf xs x.
Proof. apply indexOf_from_range. Qed.

Lemma includes_elem_of xs x : includes xs x = true <-> x ∈ xs.
Proof.
  unfold includes. rewrite existsb_exists. split.
  - intros (y & Hy & Heq). apply String.eqb_eq in Heq. subst y.
    now apply list_elem_of_In.
  - intros H. exists x. split; [now apply list_elem_of_In | apply String.eqb_refl].
Qed.

(** The streams the allow-list filter keeps are the streams that count for
    the campaign. *)
Lemma restrict_elem_of (details : DropCampaign) (streams : list Stream) (stream : Stream) :
  stream ∈ restrictToAllowedChannels details streams <->
  stream ∈ streams /\
  (forall allowed,
     isEnabled (allow details) = true ->
     channels (allow details) = Some allowed ->
     exists channel, channel ∈ allowed /\ channel_id channel = broadcaster_id stream).
Proof.
  unfold restrictToAllowedChannels.
  destruct (isEnabled (allow details)).
  2:{ split; [intros H; split; [exact H | discriminate] | tauto]. }
  destruct (channels (allow details)) as [allowed|].
  2:{ split; [intros H; split; [exact H | discriminate] | tauto]. }
  rewrite list_elem_of_In, filter_In, <- list_elem_of_In, includes_elem_of, list_elem_of_fmap.
  split.
  - intros [H1 (channel & H2 & H3)]. split; [exact H1 |].
    intros allowed' _ [= <-]. exists channel. split; [exact H3 | congruence].
  - intros [H1 H2]. split; [exact H1 |].
    destruct (H2 allowed eq_refl eq_refl) as (channel & H3 & H4).
    exists channel. split; [congruence | exact H3].
Qed.

(** *** The order on strings *)

Lemma ltb_total a b : a <> b -> String.ltb a b = false -> String.ltb b a = true.
Proof.
  unfold String.ltb. intros Hne H.
  rewrite (String.compare_antisym b a).
  destruct (String.compare a b) eqn:E; simpl; try reflexivity.
  - apply String.compare_eq_iff in E. contradiction.
  - discriminate.
Qed.

Lemma ltb_asym a b : String.ltb a b = true -> String.ltb b a = false.
Proof.
  unfold String.ltb. rewrite (String.compare_antisym b a).
  destruct (String.compare a b); simpl; congruence.
Qed.

(** ** The comparator *)

Section ComparatorFacts.

Variable Date_parse : string -> JsNumber.
Variable priorities : list string.
Variable campaigns : gmap string DropCampaign.

Lemma comparator_equal a : comparator Date_parse priorities campaigns a a = Ok 0.
Proof. unfold comparator. now rewrite String.eqb_refl. Qed.

(** With both campaigns in the map the comparator answers, and the answer
    is [-1], [0] or [1]. *)
Lemma comparator_total a b campaignA campaignB :
  campaigns !! a = Some campaignA ->
  campaigns !! b = Some campaignB ->
  exists c, comparator Date_parse priorities campaigns a b = Ok c /\ (c = -1 \/ c = 0 \/ c = 1).
Proof.
  intros HA HB. unfold comparator, getDropCampaignById.
  rewrite HA, HB.
  destruct (String.eqb a b); [eauto |].
  repeat match goal with
         | |- context [if ?c then _ else _] => destruct c
         end; eauto.
  eexists. split; [reflexivity |]. lia.
Qed.

(** The unfolding of the comparator on two different identifiers. *)
Lemma comparator_unfold a b campaignA campaignB :
  a <> b ->
  campaigns !! a = Some campaignA ->
  campaigns !! b = Some campaignB ->
  comparator Date_parse priorities campaigns a b =
    let indexA := indexOf priorities (game_id (game campaignA)) in
    let indexB := indexOf priorities (game_id (game campaignB)) in
    if (indexA =? -1) && negb (indexB =? -1) then Ok 1
    else if negb (indexA =? -1) && (indexB =? -1) then Ok (-1)
    else if indexA =? indexB then
      if num_eqb (Date_parse (endAt campaignA)) (Date_parse (endAt campaignB)) then
        Ok (if String.ltb a b then -1 else 1)
      else
        Ok (if num_ltb (Date_parse (endAt campaignA)) (Date_parse (endAt campaignB))
            then -1 else 1)
    else Ok (Z.sgn (indexA - indexB)).
Proof.
  intros Hne HA HB. unfold comparator, getDropCampaignById.
  rewrite HA, HB. apply String.eqb_neq in Hne. now rewrite Hne.
Qed.

End ComparatorFacts.

(** C1. For two campaign identifiers in the campaign map the comparator of the
    pending queue answers as follows: [0] on equal identifiers; a campaign
    whose game is not in the priority list comes after ([1]) one whose game
    is, and before ([-1]) the other way round; when the two games have the
    same index (both absent included) the strictly earlier end timestamp
    comes first, and on equal end timestamps the smaller identifier in
    lexicographic order comes first; otherwise the smaller index comes first.
    In particular a campaign whose game heads the priority list comes before
    one whose game is not in the list, whatever the end times. *)
Theorem comparator_order (Date_parse : string -> JsNumber) (priorities : list string)
    (campaigns : gmap string DropCampaign) (a b : string)
    (campaignA campaignB : DropCampaign) :
  campaigns !! a = Some campaignA ->
  campaigns !! b = Some campaignB ->
  let gameA := game_id (game campaignA) in
  let gameB := game_id (game campaignB) in
  let compare := comparator Date_parse priorities campaigns in
  (a = b -> compare a b = Ok 0) /\
  (a <> b -> gameA ∉ priorities -> gameB ∈ priorities -> compare a b = Ok 1) /\
  (a <> b -> gameA ∈ priorities -> gameB ∉ priorities -> compare a b = Ok (-1)) /\
  (a <> b -> indexOf priorities gameA = indexOf priorities gameB ->
   forall endTimeA endTimeB,
     Date_parse (endAt campaignA) = Num endTimeA ->
     Date_parse (endAt campaignB) = Num endTimeB ->
     (endTimeA < endTimeB -> compare a b = Ok (-1)) /\
     (endTimeB < endTimeA -> compare a b = Ok 1) /\
     (endTimeA = endTimeB ->
      (String.ltb a b = true -> compare a b = Ok (-1)) /\
      (String.ltb b a = true -> compare a b = Ok 1))) /\
  (a <> b -> gameA ∈ priorities -> gameB ∈ priorities ->
   (indexOf priorities gameA < indexOf priorities gameB -> compare a b = Ok (-1)) /\
   (indexOf priorities gameB < indexOf priorities gameA -> compare a b = Ok 1)) /\
  (head priorities = Some gameA -> gameB ∉ priorities ->
   compare a b = Ok (-1) /\ compare b a = Ok 1).
Proof.
  intros HA HB gameA gameB compare.
  assert (Hunfold : a <> b -> compare a b = _)
    by (intros Hne; exact (comparator_unfold Date_parse priorities campaigns
                             a b campaignA campaignB Hne HA HB)).
  assert (Hunfold' : b <> a -> compare b a = _)
    by (intros Hne; exact (comparator_unfold Date_parse priorities campaigns
                             b a campaignB campaignA Hne HB HA)).
  cbv zeta in Hunfold, Hunfold'. fold gameA gameB in Hunfold, Hunfold'.
  assert (Hhead : head priorities = Some gameA -> gameB ∉ priorities ->
                  indexOf priorities gameA = 0 /\ indexOf priorities gameB = -1 /\ a <> b).
  { intros Hhd HnB.
    assert (HiA : indexOf priorities gameA = 0).
    { destruct priorities as [|g gs]; [discriminate |].
      simpl in Hhd. injection Hhd as ->. apply indexOf_head. }
    assert (HiB : indexOf priorities gameB = -1) by now apply indexOf_absent.
    repeat split; try assumption.
    intros ->. rewrite HA in HB. injection HB as ->.
    unfold gameA, gameB in *. lia. }
  split; [| split; [| split; [| split; [| split]]]].
  - intros ->. apply comparator_equal.
  - intros Hne HnA HinB. rewrite (Hunfold Hne).
    apply indexOf_absent in HnA. apply indexOf_present in HinB.
    rewrite HnA.
    destruct (Z.eqb_spec (indexOf priorities gameB) (-1)); [contradiction | reflexivity].
  - intros Hne HinA HnB. rewrite (Hunfold Hne).
    apply indexOf_present in HinA. apply indexOf_absent in HnB.
    rewrite HnB.
    destruct (Z.eqb_spec (indexOf priorities gameA) (-1)); [contradiction | reflexivity].
  - intros Hne Hidx endTimeA endTimeB HtA HtB.
    rewrite (Hunfold Hne), Hidx, HtA, HtB, Z.eqb_refl. simpl.
    assert (Hsame : forall r : Result Z,
               (if (indexOf priorities gameB =? -1) && negb (indexOf priorities gameB =? -1)
                then Ok 1
                else if negb (indexOf priorities gameB =? -1) && (indexOf priorities gameB =? -1)
                     then Ok (-1) else r) = r)
      by (intros r; destruct (indexOf priorities gameB =? -1); reflexivity).
    rewrite Hsame.
    split; [| split].
    + intros Hlt. destruct (Z.eqb_spec endTimeA endTimeB); [lia |].
      destruct (Z.ltb_spec endTimeA endTimeB); [reflexivity | lia].
    + intros Hlt. destruct (Z.eqb_spec endTimeA endTimeB); [lia |].
      destruct (Z.ltb_spec endTimeA endTimeB); [lia | reflexivity].
    + intros ->. rewrite Z.eqb_refl. split; intros Hlt.
      * now rewrite Hlt.
      * apply ltb_asym in Hlt. now rewrite Hlt.
  - intros Hne HinA HinB. rewrite (Hunfold Hne).
    apply indexOf_present in HinA, HinB.
    destruct (indexOf_nonneg priorities gameA) as [?|?]; [contradiction |].
    destruct (indexOf_nonneg priorities gameB) as [?|?]; [contradiction |].
    destruct (Z.eqb_spec (indexOf priorities gameA) (-1)); [contradiction |].
    destruct (Z.eqb_spec (indexOf priorities gameB) (-1)); [contradiction |]. simpl.
    split; intros Hlt;
      (destruct (Z.eqb_spec (indexOf priorities gameA) (indexOf priorities gameB));
       [lia | f_equal; lia]).
  - intros Hhd HnB. destruct (Hhead Hhd HnB) as (HiA & HiB & Hne).
    split.
    + rewrite (Hunfold Hne), HiA, HiB. reflexivity.
    + rewrite (Hunfold' (not_eq_sym Hne)), HiA, HiB. reflexivity.
Qed.

Lemma comparator_order_witness :
  comparator Scenario.parseDate ["g1"%string] Scenario.campaignMap
    "campaign-a" "campaign-b" = Ok (-1) /\
  comparator Scenario.parseDate ["g1"%string] Scenario.campaignMap
    "campaign-b" "campaign-a" = Ok 1.
Proof.
  destruct (comparator_order Scenario.parseDate ["g1"%string] Scenario.campaignMap
              "campaign-a" "campaign-b" Scenario.campaignA Scenario.campaignB)
    as (_ & _ & _ & _ & _ & H).
  - vm_compute; reflexivity.
  - vm_compute; reflexivity.
  - apply H.
    + reflexivity.
    + apply indexOf_absent. reflexivity.
Defined.

(** ** The sorted array *)

Lemma SortedArray_insert_elements compare value xs :
  (forall y, y ∈ xs -> exists c, compare value y = Ok c) ->
  exists r, SortedArray_insert compare value xs = Ok r /\
            forall x, x ∈ r <-> x = value \/ x ∈ xs.
Proof.
  induction xs as [|y ys IH]; intros Hcmp; simpl.
  - exists [value]. split; [reflexivity |]. intros x.
    rewrite list_elem_of_singleton. rewrite elem_of_nil. tauto.
  - destruct (Hcmp y) as [c Hc]; [left |]. rewrite Hc.
    destruct (c <? 0).
    + eexists. split; [reflexivity |]. intros x. rewrite elem_of_cons. tauto.
    + destruct IH as (r & Hr & Hin).
      { intros z Hz. apply Hcmp. now right. }
      rewrite Hr. eexists. split; [reflexivity |]. intros x.
      rewrite !elem_of_cons, Hin. tauto.
Qed.

(** *** The scan for the least recent attempt *)

Section MinScan.

Variable attempts : gmap string Z.

Lemma scan_le_start ids :
  forall start, fold_left (earlierAttempt attempts) ids start <= start.
Proof.
  induction ids as [|id rest IH]; intros start; simpl; [lia |].
  specialize (IH (earlierAttempt attempts start id)). unfold earlierAttempt in *.
  destruct (attempts !! id) as [t|]; [| exact IH].
  destruct (t =? 0); lia.
Qed.

Lemma scan_le_recorded ids : forall start id t,
  id ∈ ids -> attempts !! id = Some t -> t <> 0 ->
  fold_left (earlierAttempt attempts) ids start <= t.
Proof.
  induction ids as [|id0 rest IH]; intros start id t Hin Hat Hnz; simpl.
  - apply elem_of_nil in Hin. contradiction.
  - apply elem_of_cons in Hin as [->|Hin].
    + pose proof (scan_le_start rest (earlierAttempt attempts start id0)) as H.
      assert (Hs : earlierAttempt attempts start id0 <= t).
      { unfold earlierAttempt. rewrite Hat. destruct (Z.eqb_spec t 0); [contradiction | lia]. }
      lia.
    + now apply IH with id.
Qed.

Lemma scan_lower_bound ids : forall start m,
  m <= start ->
  (forall id t, id ∈ ids -> attempts !! id = Some t -> t <> 0 -> m <= t) ->
  m <= fold_left (earlierAttempt attempts) ids start.
Proof.
  induction ids as [|id0 rest IH]; intros start m Hstart Hall; simpl; [exact Hstart |].
  apply IH.
  - unfold earlierAttempt. destruct (attempts !! id0) as [t|] eqn:E; [| exact Hstart].
    destruct (Z.eqb_spec t 0); [exact Hstart |].
    assert (m <= t) by (apply (Hall id0 t); [left | exact E | assumption]). lia.
  - intros id t Hin. apply Hall. now right.
Qed.

Lemma scan_nothing_recorded ids : forall start,
  (forall id, id ∈ ids -> attempts !! id = None) ->
  fold_left (earlierAttempt attempts) ids start = start.
Proof.
  induction ids as [|id0 rest IH]; intros start Hall; simpl; [reflexivity |].
  assert (Hs : earlierAttempt attempts start id0 = start) by (unfold earlierAttempt; now rewrite (Hall id0) by left).
  rewrite Hs. apply IH. intros id Hin. apply Hall. now right.
Qed.

End MinScan.

Lemma minLast_least_recent (b : Bot) (time0 : Z) id t :
  id ∈ pendingDropCampaignIds b ->
  lastDropCampaignAttemptTimes b !! id = Some t ->
  t <> 0 -> t <= time0 ->
  (forall id' t', id' ∈ pendingDropCampaignIds b ->
                  lastDropCampaignAttemptTimes b !! id' = Some t' -> t' <> 0 -> t <= t') ->
  minLastDropCampaignCheckTime b time0 = t.
Proof.
  intros Hin Hat Hnz Hle Hmin. unfold minLastDropCampaignCheckTime.
  apply Z.le_antisymm.
  - now apply scan_le_recorded with id.
  - now apply scan_lower_bound.
Qed.

Lemma minLast_nothing_recorded (b : Bot) (time0 : Z) :
  (forall id, id ∈ pendingDropCampaignIds b ->
              lastDropCampaignAttemptTimes b !! id = None) ->
  minLastDropCampaignCheckTime b time0 = time0.
Proof. intros H. unfold minLastDropCampaignCheckTime. now apply scan_nothing_recorded. Qed.

(** With nothing recorded the sleep is the cool-down window less what the
    clock advanced between its two readings. *)
Lemma sleepTime_nothing_recorded (b : Bot) (time0 time1 : Z) :
  (forall id, id ∈ pendingDropCampaignIds b ->
              lastDropCampaignAttemptTimes b !! id = None) ->
  sleepTime b time0 time1 = Z.max 0 (sleepTimeMilliseconds - (time1 - time0)).
Proof. intros H. unfold sleepTime. now rewrite minLast_nothing_recorded. Qed.

(** ** The code of the bot, step by step *)

Section BotFacts.

Context {World Inventory : Type}.
Variable env : Env World Inventory.
Variable options : Options.

(** *** Running the monad *)

Lemma try_call {A} (ev : Event) (f : World -> Result A * World) (s : State) :
  try (call ev f) s = (Returns (fst (f (world s))), record ev (snd (f (world s))) s).
Proof.
  unfold try, call. destruct (f (world s)) as [[a|e] w]; reflexivity.
Qed.

Lemma run_bind {A B} (m : M A) (f : A -> M B) (s : @State World) :
  (m ≫= f) s =
    match m s with
    | (Returns a, s') => f a s'
    | (Throws e, s') => (Throws e, s')
    | (Diverges, s') => (Diverges, s')
    end.
Proof. reflexivity. Qed.

(** A session caught: the call is made, and the flag is down when the session
    was preempted. *)
Lemma try_watchStreamSession streamUrl components (s : State) :
  try (watchStreamSession env streamUrl components) s =
    (Returns (fst (watchStream env streamUrl components (world s))),
     match fst (watchStream env streamUrl components (world s)) with
     | Thrown error =>
         if isHighPriorityError error
         then givenWay (record (EvWatchStream streamUrl)
                          (snd (watchStream env streamUrl components (world s))) s)
         else record (EvWatchStream streamUrl)
                (snd (watchStream env streamUrl components (world s))) s
     | Ok _ =>
         record (EvWatchStream streamUrl)
           (snd (watchStream env streamUrl components (world s))) s
     end).
Proof.
  unfold try at 1, watchStreamSession. rewrite run_bind, try_call.
  destruct (watchStream env streamUrl components (world s)) as [[[]|error] w];
    cbn [fst snd]; [reflexivity |].
  destruct (isHighPriorityError error); reflexivity.
Qed.

Lemma try_getActiveStreams dropCampaignId details campaign (s : State) :
  dropCampaignMap (bot s) !! dropCampaignId = Some campaign ->
  try (getActiveStreams env dropCampaignId details) s =
    (Returns
       match fst (client_getActiveStreams env (displayName (game campaign)) (world s)) with
       | Ok streams => Ok (restrictToAllowedChannels details streams)
       | Thrown e => Thrown e
       end,
     record (EvGetActiveStreams (displayName (game campaign)))
       (snd (client_getActiveStreams env (displayName (game campaign)) (world s))) s).
Proof.
  intros Hc. unfold try, getActiveStreams. rewrite run_bind.
  unfold get_bot at 1. cbn beta iota. unfold getDropCampaignById. rewrite Hc.
  rewrite run_bind. unfold call.
  destruct (client_getActiveStreams env (displayName (game campaign)) (world s))
    as [[streams|e] w]; reflexivity.
Qed.

(** *** The higher-priority check *)

Lemma readyToClaim_Some inventoryDrop d :
  readyToClaim inventoryDrop = Some d <->
  inventoryDrop = Some d /\ requiredMinutesWatched d <= currentMinutesWatched d.
Proof.
  unfold readyToClaim. destruct inventoryDrop as [d'|]; [| split; [discriminate | intros [? _]; discriminate]].
  destruct (Z.leb_spec (requiredMinutesWatched d') (currentMinutesWatched d')); split.
  - intros [= ->]. now split.
  - intros [[= ->] _]. reflexivity.
  - discriminate.
  - intros [[= ->] ?]. lia.
Qed.

Lemma readyToClaim_None inventoryDrop :
  readyToClaim inventoryDrop = None <->
  forall d, ~ (inventoryDrop = Some d /\ requiredMinutesWatched d <= currentMinutesWatched d).
Proof.
  split.
  - intros H d Hd. apply readyToClaim_Some in Hd. congruence.
  - intros H. destruct (readyToClaim inventoryDrop) as [d|] eqn:E; [| reflexivity].
    apply readyToClaim_Some in E. exfalso. exact (H d E).
Qed.

(** The test of the code on the attempt time is the cool-down window. *)
Lemma attemptedRecently_withinCoolDown (s : State) (dropCampaignId : string) :
  attemptedRecently (bot s) (getTime env (world s)) dropCampaignId = true <->
  withinCoolDown env s dropCampaignId.
Proof.
  unfold attemptedRecently, withinCoolDown, sleepTimeMilliseconds.
  destruct (lastDropCampaignAttemptTimes (bot s) !! dropCampaignId) as [attempt|].
  - rewrite andb_true_iff, negb_true_iff, Z.eqb_neq, Z.ltb_lt. split.
    + intros [H1 H2]. exists attempt. split; [reflexivity |]. split; [exact H1 | lia].
    + intros (attempt' & [= <-] & H1 & H2). split; [exact H1 | lia].
  - split; [discriminate | intros (attempt & H & _); discriminate].
Qed.

(** The check counts the streams the filter keeps: some is left exactly when
    some fetched stream counts for the campaign. *)
Lemma restrict_nonempty (details : DropCampaign) (streams : list Stream) :
  restrictToAllowedChannels details streams <> [] <->
  exists stream, stream ∈ streams /\ eligibleStream details stream.
Proof.
  split.
  - destruct (restrictToAllowedChannels details streams) as [|stream others] eqn:E;
      [congruence |]. intros _. exists stream.
    apply restrict_elem_of. rewrite E. left.
  - intros (stream & H) E. apply restrict_elem_of in H. rewrite E in H.
    apply elem_of_nil in H. exact H.
Qed.

Lemma hasPending_from_sound ids :
  forall s : State,
    (forall id, id ∈ ids -> is_Some (dropCampaignMap (bot s) !! id)) ->
    exists found s',
      hasPendingHigherPriorityStream_from env ids s = (Returns found, s') /\
      HigherPriorityCheck env ids s found s' /\
      bot s' = bot s.
Proof.
  induction ids as [|dropCampaignId rest IH]; intros s Hmap.
  - exists false, s. repeat split. constructor.
  - assert (Hrest : forall s1 : State, bot s1 = bot s ->
              exists found s',
                hasPendingHigherPriorityStream_from env rest s1 = (Returns found, s') /\
                HigherPriorityCheck env rest s1 found s' /\ bot s' = bot s).
    { intros s1 Hb. destruct (IH s1) as (found & s' & H1 & H2 & H3).
      - intros id Hid. rewrite Hb. apply Hmap. now right.
      - exists found, s'. repeat split; try assumption. congruence. }
    cbn [hasPendingHigherPriorityStream_from].
    unfold mbind at 1, M_bind, get_bot at 1. cbn beta iota.
    destruct (decide (currentDropCampaignId (bot s) = Some dropCampaignId)) as [Hcur|Hcur].
    { exists false, s. repeat split. now constructor. }
    unfold mbind at 1, now at 1. cbn beta iota.
    destruct (attemptedRecently (bot s) (getTime env (world s)) dropCampaignId) eqn:Hrecent.
    { destruct (Hrest s eq_refl) as (found & s' & H1 & H2 & H3).
      exists found, s'. repeat split; try assumption.
      apply check_skips_recent; [assumption | | assumption].
      now apply attemptedRecently_withinCoolDown. }
    destruct (Hmap dropCampaignId) as [campaign Hcampaign]; [now left |].
    rewrite Hcampaign.
    destruct (String.eqb_spec (status campaign) "ACTIVE") as [Hactive|Hactive]; cbn [negb].
    2:{ destruct (Hrest s eq_refl) as (found & s' & H1 & H2 & H3).
        exists found, s'. repeat split; try assumption.
        eapply check_skips_inactive; eassumption. }
    assert (Hcand : isCandidate env s dropCampaignId campaign).
    { split; [assumption |]. split; [| split; assumption].
      rewrite <- attemptedRecently_withinCoolDown. congruence. }
    rewrite run_bind, try_call.
    destruct (client_getInventory env (world s)) as [[inventory|e] w1] eqn:Hinv; cbn [fst snd].
    2:{ destruct (Hrest (record EvGetInventory w1 s) eq_refl) as (found & s' & H1 & H2 & H3).
        exists found, s'. repeat split; try assumption.
        eapply check_skips_failed_inventory; eassumption. }
    rewrite run_bind, try_call. cbn [world record].
    destruct (client_getDropCampaignDetails env dropCampaignId w1)
      as [[details|e] w2] eqn:Hdet; cbn [fst snd].
    2:{ destruct (Hrest (record (EvGetDropCampaignDetails dropCampaignId) w2
                           (record EvGetInventory w1 s)) eq_refl)
          as (found & s' & H1 & H2 & H3).
        exists found, s'. repeat split; try assumption.
        eapply check_skips_failed_details; eassumption. }
    set (s2 := record (EvGetDropCampaignDetails dropCampaignId) w2
                 (record EvGetInventory w1 s)).
    assert (Hfetched : fetched env s dropCampaignId inventory details s2)
      by (exists w1, w2; repeat split; assumption).
    destruct (getFirstUnclaimedDrop env dropCampaignId details inventory)
      as [drop|] eqn:Hfirst.
    2:{ destruct (Hrest s2 eq_refl) as (found & s' & H1 & H2 & H3).
        exists found, s'. repeat split; try assumption.
        eapply check_skips_all_claimed; eassumption. }
    destruct (readyToClaim (getInventoryDrop env (drop_id drop) inventory dropCampaignId))
      as [inventoryDrop|] eqn:Hready.
    { apply readyToClaim_Some in Hready.
      rewrite run_bind. unfold claimDropReward. rewrite try_call.
      destruct (client_claimDropReward env (dropInstanceID inventoryDrop) (world s2))
        as [answer w3] eqn:Hclaim; cbn [fst snd].
      destruct (Hrest (record (EvClaimDropReward (dropInstanceID inventoryDrop)) w3 s2)
                  eq_refl) as (found & s' & H1 & H2 & H3).
      exists found, s'. repeat split; try assumption.
      eapply check_claims_ready; eassumption. }
    assert (Hnot : forall inventoryDrop,
               ~ watchComplete env inventory dropCampaignId drop inventoryDrop)
      by (intros d; exact (proj1 (readyToClaim_None _) Hready d)).
    rewrite run_bind, (try_getActiveStreams dropCampaignId details campaign s2 Hcampaign).
    destruct (client_getActiveStreams env (displayName (game campaign)) (world s2))
      as [[streams|e] w3] eqn:Hstreams; cbn [fst snd].
    + destruct (restrictToAllowedChannels details streams) as [|stream others] eqn:Hallowed.
      * destruct (Hrest (record (EvGetActiveStreams (displayName (game campaign))) w3 s2)
                    eq_refl) as (found & s' & H1 & H2 & H3).
        exists found, s'. repeat split; try assumption.
        eapply check_skips_no_stream; try eassumption.
        intros stream Hin Hel.
        apply (proj2 (restrict_nonempty details streams)); [eauto | exact Hallowed].
      * exists true, (record (EvGetActiveStreams (displayName (game campaign))) w3 s2).
        repeat split.
        eapply check_finds_stream; try eassumption.
        apply restrict_nonempty. rewrite Hallowed. discriminate.
    + destruct (Hrest (record (EvGetActiveStreams (displayName (game campaign))) w3 s2)
                  eq_refl) as (found & s' & H1 & H2 & H3).
      exists found, s'. repeat split; try assumption.
      eapply check_skips_failed_streams; eassumption.
Qed.

Ltac unpack :=
  repeat match goal with
         | H : isCandidate _ _ _ _ |- _ => destruct H as (? & ? & ? & ?)
         | H : fetched _ _ _ _ _ _ |- _ => destruct H as (? & ? & ? & ? & ?)
         | H : watchComplete _ _ _ _ _ |- _ => destruct H as (? & ?)
         end.

Ltac merge :=
  repeat match goal with
         | H1 : ?t = ?a, H2 : ?t = ?b |- _ =>
             lazymatch t with
             | client_getInventory _ _ => idtac
             | client_getDropCampaignDetails _ _ _ => idtac
             | client_claimDropReward _ _ _ => idtac
             | client_getActiveStreams _ _ _ => idtac
             | getFirstUnclaimedDrop _ _ _ _ => idtac
             | getInventoryDrop _ _ _ _ => idtac
             | lookup _ _ => idtac
             end;
             rewrite H1 in H2; simplify_eq
         end.

Ltac clash :=
  solve [ congruence
        | contradiction
        | match goal with
          | H : forall d, ~ watchComplete _ _ _ _ d |- _ =>
              exfalso; eapply H; split; eassumption
          | H : forall stream, stream ∈ _ -> ~ eligibleStream _ stream,
            H' : exists stream, stream ∈ _ /\ eligibleStream _ stream |- _ =>
              exfalso; destruct H' as (? & ? & ?); eapply H; eassumption
          end ].

(** The relation leaves no choice: it is the graph of a function. *)
Lemma check_deterministic ids (s : State) found1 s1 found2 s2 :
  HigherPriorityCheck env ids s found1 s1 ->
  HigherPriorityCheck env ids s found2 s2 ->
  found1 = found2 /\ s1 = s2.
Proof.
  intros H1. revert found2 s2.
  induction H1; intros foundB sB HB; inversion HB; subst;
    try solve [split; reflexivity];
    try solve [unpack; simplify_eq; merge; cbn [world record] in *; merge; try clash; eauto].
Qed.

Lemma hasPending_run (s : State) :
  queueInMap (bot s) ->
  exists found s',
    hasPendingHigherPriorityStream env s = (Returns found, s') /\
    HigherPriorityCheck env (pendingDropCampaignIds (bot s)) s found s' /\
    bot s' = bot s.
Proof.
  intros Hmap. unfold hasPendingHigherPriorityStream.
  rewrite run_bind. unfold get_bot at 1. cbn beta iota.
  now apply hasPending_from_sound.
Qed.


(** C2. The higher-priority check goes through the pending queue in order. It
    answers false when it reaches the active campaign or the end of the
    queue. Before that it passes over a candidate attempted within the
    cool-down window, one that is not ACTIVE, one for which the inventory or
    the campaign detail cannot be fetched, one with no unclaimed drop, and
    one with no eligible live stream; a candidate whose first unclaimed drop
    is watched in full gets a claim call and is passed over too; it answers
    true at the first candidate with an eligible live stream. Whatever the
    client's calls answer, the check returns, and it leaves the bot's fields
    as they were. The rules of [HigherPriorityCheck] leave one outcome only,
    which is the one the code computes. *)
Theorem higher_priority_check (s : State) :
  (forall id, id ∈ pendingDropCampaignIds (bot s) ->
              is_Some (dropCampaignMap (bot s) !! id)) ->
  exists found s',
    hasPendingHigherPriorityStream env s = (Returns found, s') /\
    HigherPriorityCheck env (pendingDropCampaignIds (bot s)) s found s' /\
    bot s' = bot s /\
    (forall found0 s0,
       HigherPriorityCheck env (pendingDropCampaignIds (bot s)) s found0 s0 ->
       found0 = found /\ s0 = s').
Proof.
  intros Hmap. destruct (hasPending_run s Hmap) as (found & s' & Hrun & Hspec & Hbot).
  exists found, s'. repeat split; try assumption.
  - exact (proj1 (check_deterministic _ _ _ _ _ _ H Hspec)).
  - exact (proj2 (check_deterministic _ _ _ _ _ _ H Hspec)).
Qed.

(** *** The refresh of the pending queue *)

Lemma eligible_dec (campaign : DropCampaign) :
  let wanted :=
    negb (negb (String.eqb (status campaign) "ACTIVE")
          && negb (String.eqb (status campaign) "UPCOMING"))
    && negb (includes (ignoredGameIds options) (game_id (game campaign)))
    && ((Nat.eqb (length (gameIds options)) 0)
        || includes (gameIds options) (game_id (game campaign))
        || watchUnlistedGames options) in
  wanted = true <-> eligible options campaign.
Proof.
  unfold eligible. cbv zeta.
  rewrite !andb_true_iff, !orb_true_iff, !negb_true_iff, andb_false_iff, !negb_false_iff.
  rewrite !String.eqb_eq, !includes_elem_of, Nat.eqb_eq.
  rewrite <- not_true_iff_false, includes_elem_of.
  assert (Hlen : length (gameIds options) = 0%nat <-> gameIds options = [])
    by (destruct (gameIds options); simpl; split; congruence).
  rewrite Hlen. tauto.
Qed.

(** What [addToPending] does to the bot, as a function. *)
Lemma addToPending_run (campaign : DropCampaign) (s : State) :
  queueInMap (bot s) ->
  exists s',
    addToPending env options campaign s = (Returns tt, s') /\
    queueInMap (bot s') /\
    (forall id, id ∈ pendingDropCampaignIds (bot s') <->
                id ∈ pendingDropCampaignIds (bot s) \/
                (id = campaign_id campaign /\ eligible options campaign)) /\
    world s' = world s /\ trace s' = trace s /\
    currentDropCampaignId (bot s') = currentDropCampaignId (bot s).
Proof.
  intros Hq. pose proof (eligible_dec campaign) as Hel. cbv zeta in Hel.
  unfold addToPending.
  destruct (negb (String.eqb (status campaign) "ACTIVE")
            && negb (String.eqb (status campaign) "UPCOMING")) eqn:Hstatus.
  { exists s. repeat split; try assumption; [tauto |].
    intros [H|[_ H]]; [assumption |]. apply Hel in H. discriminate. }
  destruct (includes (ignoredGameIds options) (game_id (game campaign))) eqn:Hign.
  { exists s. repeat split; try assumption; [tauto |].
    intros [H|[_ H]]; [assumption |]. apply Hel in H. discriminate. }
  rewrite run_bind. unfold modify_bot at 1. cbn beta iota.
  set (b1 := set_dropCampaignMap
               (<[campaign_id campaign := campaign]> (dropCampaignMap (bot s))) (bot s)).
  assert (Hq1 : queueInMap b1).
  { intros id Hid. unfold b1; simpl.
    destruct (decide (campaign_id campaign = id)) as [<-|Hne].
    - rewrite lookup_insert_eq. eauto.
    - rewrite lookup_insert_ne by assumption. now apply Hq. }
  simpl in Hel.
  destruct ((Nat.eqb (length (gameIds options)) 0)
            || includes (gameIds options) (game_id (game campaign))
            || watchUnlistedGames options) eqn:Hwanted.
  2:{ eexists. split; [reflexivity |]. repeat split; try assumption; simpl.
      - tauto.
      - intros [H|[_ H]]; [assumption |]. apply Hel in H. discriminate. }
  rewrite run_bind. unfold get_bot at 1. cbn beta iota. cbn [bot].
  destruct (SortedArray_insert_elements
              (comparator (Date_parse env) (gameIds options) (dropCampaignMap b1))
              (campaign_id campaign) (pendingDropCampaignIds b1))
    as (ids & Hins & Hin).
  { intros y Hy. destruct (Hq1 y Hy) as [cy Hcy].
    destruct (comparator_total (Date_parse env) (gameIds options) (dropCampaignMap b1)
                (campaign_id campaign) y campaign cy) as (c & Hc & _).
    - unfold b1; simpl. apply lookup_insert_eq.
    - assumption.
    - eauto. }
  rewrite Hins. eexists. split; [reflexivity |].
  assert (Hyes : eligible options campaign) by (apply Hel; reflexivity).
  repeat split; simpl; try reflexivity.
  - intros id Hid. simpl in Hid. apply Hin in Hid as [->|Hid].
    + unfold b1; simpl. rewrite lookup_insert_eq. eauto.
    + apply (Hq1 id Hid).
  - intros Hid. apply Hin in Hid as [->|Hid]; [right; now split | now left].
  - intros [Hid|[-> _]]; apply Hin; [now right | now left].
Qed.

Lemma forEach_addToPending_run (campaigns : list DropCampaign) :
  forall s : State,
    queueInMap (bot s) ->
    exists s',
      forEach (addToPending env options) campaigns s = (Returns tt, s') /\
      queueInMap (bot s') /\
      (forall id, id ∈ pendingDropCampaignIds (bot s') <->
                  id ∈ pendingDropCampaignIds (bot s) \/
                  exists campaign, campaign ∈ campaigns /\
                                   campaign_id campaign = id /\
                                   eligible options campaign) /\
      world s' = world s /\ trace s' = trace s /\
      currentDropCampaignId (bot s') = currentDropCampaignId (bot s).
Proof.
  induction campaigns as [|campaign rest IH]; intros s Hq.
  - exists s. repeat split; try assumption; [tauto |].
    intros [H|(c & Hc & _)]; [assumption |]. apply elem_of_nil in Hc. contradiction.
  - cbn [forEach]. rewrite run_bind.
    destruct (addToPending_run campaign s Hq) as (s1 & Hrun & Hq1 & Hin1 & Hw1 & Ht1 & Hc1).
    rewrite Hrun.
    destruct (IH s1 Hq1) as (s2 & Hrun2 & Hq2 & Hin2 & Hw2 & Ht2 & Hc2).
    exists s2. repeat split; try assumption; try congruence.
    + intros Hid. apply Hin2 in Hid as [Hid|(c & Hc & Hcid & Hel)].
      * apply Hin1 in Hid as [Hid|[-> Hel]]; [now left |].
        right. exists campaign. split; [left | split; [reflexivity | assumption]].
      * right. exists c. split; [now right | split; assumption].
    + intros [Hid|(c & Hc & Hcid & Hel)]; apply Hin2.
      * left. apply Hin1. now left.
      * apply elem_of_cons in Hc as [->|Hc].
        -- left. apply Hin1. right. now split.
        -- right. exists c. split; [assumption | split; assumption].
Qed.

Lemma eventsSince_app (s s' : @State World) evs :
  trace s' = trace s ++ evs -> eventsSince s s' = evs.
Proof.
  intros H. unfold eventsSince. rewrite H. apply drop_app_length.
Qed.

(** The check only adds calls to the client to the trace. *)
Lemma check_trace ids (s : State) found s' :
  HigherPriorityCheck env ids s found s' ->
  exists evs, trace s' = trace s ++ evs /\ EvNotifyAll ∉ evs.
Proof.
  assert (Hstep : forall ev (w : World) (s1 s2 : @State World),
             ev <> EvNotifyAll ->
             (exists evs, trace s2 = trace (record ev w s1) ++ evs /\ EvNotifyAll ∉ evs) ->
             exists evs, trace s2 = trace s1 ++ evs /\ EvNotifyAll ∉ evs).
  { intros ev w s1 s2 Hev (evs & Ht & Hn). exists (ev :: evs). split.
    - rewrite Ht. simpl. now rewrite <- app_assoc.
    - rewrite not_elem_of_cons. split; [congruence | assumption]. }
  assert (Hnil : forall s1 : @State World,
             exists evs, trace s1 = trace s1 ++ evs /\ EvNotifyAll ∉ evs).
  { intros s1. exists []. split; [now rewrite app_nil_r | apply not_elem_of_nil]. }
  assert (Hfetched : forall (s1 : @State World) id inventory details (s2 s3 : @State World),
             fetched env s1 id inventory details s2 ->
             (exists evs, trace s3 = trace s2 ++ evs /\ EvNotifyAll ∉ evs) ->
             exists evs, trace s3 = trace s1 ++ evs /\ EvNotifyAll ∉ evs).
  { intros s1 id inventory details s2 s3 (w1 & w2 & _ & _ & ->) H.
    apply Hstep in H; [| discriminate]. apply Hstep in H; [| discriminate]. exact H. }
  induction 1; eauto.
  - apply Hstep in IHHigherPriorityCheck; [| discriminate]. assumption.
  - apply Hstep in IHHigherPriorityCheck; [| discriminate].
    apply Hstep in IHHigherPriorityCheck; [| discriminate]. assumption.
  - apply Hstep in IHHigherPriorityCheck; [| discriminate]. eauto.
  - eapply Hfetched; [eassumption |]. eapply Hstep; [| apply Hnil]. discriminate.
  - apply Hstep in IHHigherPriorityCheck; [| discriminate]. eauto.
  - apply Hstep in IHHigherPriorityCheck; [| discriminate]. eauto.
Qed.

(** The ['update'] handler returns; it leaves in the queue the eligible
    campaigns of the list it was given, and its last act is to notify. *)
Lemma onUpdate_run (campaigns : list DropCampaign) (s : State) :
  exists s' evs,
    onUpdate env options campaigns s = (Returns tt, s') /\
    queueInMap (bot s') /\
    (forall id, id ∈ pendingDropCampaignIds (bot s') <->
                exists campaign, campaign ∈ campaigns /\
                                 campaign_id campaign = id /\
                                 eligible options campaign) /\
    trace s' = trace s ++ evs ++ [EvNotifyAll] /\
    EvNotifyAll ∉ evs.
Proof.
  unfold onUpdate. rewrite run_bind. unfold modify_bot at 1. cbn beta iota.
  set (s0 := {| bot := set_pendingDropCampaignIds [] (bot s);
                world := world s; trace := trace s |}).
  destruct (forEach_addToPending_run campaigns s0)
    as (s1 & Hrun & Hq1 & Hin1 & Hw1 & Ht1 & Hc1).
  { intros id Hid. simpl in Hid. apply elem_of_nil in Hid. contradiction. }
  rewrite run_bind, Hrun. rewrite run_bind. unfold get_bot at 1. cbn beta iota.
  assert (Hin : forall id, id ∈ pendingDropCampaignIds (bot s1) <->
                  exists campaign, campaign ∈ campaigns /\
                                   campaign_id campaign = id /\
                                   eligible options campaign).
  { intros id. rewrite Hin1. simpl. rewrite elem_of_nil. tauto. }
  rewrite run_bind.
  destruct (currentDropCampaignId (bot s1)) as [current|].
  - destruct (hasPending_run s1 Hq1) as (found & s2 & Hcheck & Hspec & Hbot).
    rewrite run_bind, Hcheck.
    destruct (check_trace _ _ _ _ Hspec) as (evs & Ht2 & Hn).
    exists (if found
            then record EvNotifyAll (world s2)
                   {| bot := set_pendingHighPriority true (bot s2);
                      world := world s2; trace := trace s2 |}
            else record EvNotifyAll (world s2) s2), evs.
    destruct found; (split; [reflexivity |]); simpl; rewrite Hbot;
      (split; [exact Hq1 |]); (split; [exact Hin |]);
      (split; [| exact Hn]); rewrite Ht2, Ht1, <- app_assoc; reflexivity.
  - exists (record EvNotifyAll (world s1) s1), [].
    split; [reflexivity |]. simpl.
    split; [exact Hq1 |]. split; [exact Hin |].
    split; [now rewrite Ht1 | apply not_elem_of_nil].
Qed.

Lemma watchdogTick_run (s : State) :
  exists s',
    watchdogTick env options s = (Returns tt, s') /\
    match client_getDropCampaigns env (world s) with
    | (Ok campaigns, _) =>
        (forall id, id ∈ pendingDropCampaignIds (bot s') <->
                    exists campaign, campaign ∈ campaigns /\
                                     campaign_id campaign = id /\
                                     eligible options campaign) /\
        exists evs,
          eventsSince s s' =
            [EvEmit "before_update"; EvGetDropCampaigns; EvEmit "update"]
              ++ evs ++ [EvNotifyAll] /\
          EvNotifyAll ∉ evs
    | (Thrown _, _) =>
        bot s' = bot s /\
        eventsSince s s' = [EvEmit "before_update"; EvGetDropCampaigns; EvEmit "error"]
    end.
Proof.
  unfold watchdogTick. rewrite run_bind. unfold emit at 1. cbn beta iota.
  rewrite run_bind, try_call. cbn [world record].
  destruct (client_getDropCampaigns env (world s)) as [[campaigns|e] w]; cbn [fst snd].
  - rewrite run_bind. unfold emit at 1. cbn beta iota.
    rewrite run_bind. unfold try.
    match goal with
    | |- context [onUpdate env options campaigns ?s0] =>
        destruct (onUpdate_run campaigns s0) as (s' & evs & Hrun & _ & Hin & Ht & Hn)
    end.
    rewrite Hrun. exists s'. split; [reflexivity |]. split; [exact Hin |].
    exists evs. split; [| exact Hn]. apply eventsSince_app.
    rewrite Ht. simpl. rewrite <- !app_assoc. reflexivity.
  - rewrite run_bind. unfold emit at 1. cbn beta iota.
    eexists. split; [reflexivity |]. split; [reflexivity |].
    apply eventsSince_app. simpl. rewrite <- !app_assoc. reflexivity.
Qed.

(** C5. On a tick of the watchdog whose fetch succeeds, the pending queue is
    cleared and rebuilt: afterwards it holds exactly the identifiers of the
    fetched campaigns that are ACTIVE or UPCOMING, whose game is not ignored,
    and whose game is configured, or for which no game is configured, or
    unlisted games are watched. On a tick whose fetch fails the queue (like
    every field of the bot) is left as it was and the error signal is
    emitted. The tick ends normally in both cases. The same holds of the
    ['update'] handler for any list it is given. *)
Theorem refresh_rebuilds_pending_queue (s : State) :
  (exists s',
     watchdogTick env options s = (Returns tt, s') /\
     match fst (client_getDropCampaigns env (world s)) with
     | Ok campaigns =>
         forall id, id ∈ pendingDropCampaignIds (bot s') <->
                    exists campaign, campaign ∈ campaigns /\
                                     campaign_id campaign = id /\
                                     eligible options campaign
     | Thrown _ =>
         pendingDropCampaignIds (bot s') = pendingDropCampaignIds (bot s) /\
         EvEmit "error" ∈ eventsSince s s'
     end) /\
  (forall campaigns, exists s',
     onUpdate env options campaigns s = (Returns tt, s') /\
     forall id, id ∈ pendingDropCampaignIds (bot s') <->
                exists campaign, campaign ∈ campaigns /\
                                 campaign_id campaign = id /\
                                 eligible options campaign).
Proof.
  split.
  - destruct (watchdogTick_run s) as (s' & Hrun & H). exists s'.
    split; [exact Hrun |].
    destruct (client_getDropCampaigns env (world s)) as [[campaigns|e] w]; cbn [fst].
    + exact (proj1 H).
    + destruct H as [Hbot Hev]. split; [now rewrite Hbot |].
      rewrite Hev. do 2 right. left.
  - intros campaigns.
    destruct (onUpdate_run campaigns s) as (s' & evs & Hrun & _ & Hin & _).
    exists s'. split; assumption.
Qed.

(** C8, as the code has it. A tick of the watchdog whose fetch succeeds ends
    by waking every waiter of the pending-campaigns notifier: [notifyAll] is
    its last act and is called once. A tick whose fetch fails runs the
    ['error'] handler, which writes a debug message and wakes nobody. *)
Theorem refresh_notifies_after_update (s : State) :
  exists s',
    watchdogTick env options s = (Returns tt, s') /\
    match fst (client_getDropCampaigns env (world s)) with
    | Ok _ =>
        exists evs, eventsSince s s' = evs ++ [EvNotifyAll] /\ EvNotifyAll ∉ evs
    | Thrown _ => EvNotifyAll ∉ eventsSince s s'
    end.
Proof.
  destruct (watchdogTick_run s) as (s' & Hrun & H). exists s'.
  split; [exact Hrun |].
  destruct (client_getDropCampaigns env (world s)) as [[campaigns|e] w]; cbn [fst].
  - destruct H as (_ & evs & Hev & Hn).
    exists ([EvEmit "before_update"; EvGetDropCampaigns; EvEmit "update"] ++ evs).
    split; [now rewrite Hev, <- app_assoc |]. simpl.
    rewrite !not_elem_of_cons. repeat split; try discriminate. exact Hn.
  - destruct H as [_ Hev]. rewrite Hev.
    rewrite !not_elem_of_cons. repeat split; try discriminate. apply not_elem_of_nil.
Qed.

(** *** The failure counter *)

Lemma incrementFailureCounter_run (streamUrl : string) (s : State) :
  let count := default 0 (failedStreamUrlCounts (bot s) !! streamUrl) in
  let time := getTime env (world s) in
  exists s',
    incrementFailureCounter env options streamUrl s = (Returns tt, s') /\
    world s' = world s /\ trace s' = trace s /\
    (forall other, other <> streamUrl ->
       failedStreamUrlCounts (bot s') !! other = failedStreamUrlCounts (bot s) !! other) /\
    (if failedStreamRetryCount options <=? count + 1 then
       failedStreamUrlCounts (bot s') !! streamUrl = Some 0 /\
       streamUrlTemporaryBlacklist (bot s') =
         TimedSet_add time streamUrl (streamUrlTemporaryBlacklist (bot s))
     else
       failedStreamUrlCounts (bot s') !! streamUrl = Some (count + 1) /\
       streamUrlTemporaryBlacklist (bot s') = streamUrlTemporaryBlacklist (bot s)).
Proof.
  intros count time. unfold incrementFailureCounter.
  rewrite run_bind. unfold modify_bot at 1. cbn beta iota.
  rewrite run_bind. unfold modify_bot at 1. cbn beta iota.
  rewrite run_bind. unfold get_bot at 1. cbn beta iota. cbn [bot world trace].
  set (b1 := match failedStreamUrlCounts (bot s) !! streamUrl with
             | Some _ => bot s
             | None => set_failedStreamUrlCounts
                         (<[streamUrl := 0]> (failedStreamUrlCounts (bot s))) (bot s)
             end).
  assert (Hb1 : default 0 (failedStreamUrlCounts b1 !! streamUrl) = count
                /\ streamUrlTemporaryBlacklist b1 = streamUrlTemporaryBlacklist (bot s)
                /\ forall other, other <> streamUrl ->
                     failedStreamUrlCounts b1 !! other = failedStreamUrlCounts (bot s) !! other).
  { unfold b1, count.
    destruct (failedStreamUrlCounts (bot s) !! streamUrl) as [c|] eqn:E.
    - rewrite E. repeat split.
    - simpl. rewrite lookup_insert_eq. repeat split.
      intros other Hne. now rewrite lookup_insert_ne. }
  destruct Hb1 as (Hcount & Hbl & Hother).
  cbn [failedStreamUrlCounts set_failedStreamUrlCounts].
  rewrite lookup_insert_eq. cbn [from_option id]. rewrite Hcount.
  destruct (failedStreamRetryCount options <=? count + 1).
  - rewrite run_bind. unfold now at 1. cbn beta iota. unfold modify_bot. cbn [world bot].
    eexists. split; [reflexivity |]. cbn.
    repeat split.
    + intros other Hne. rewrite !lookup_insert_ne by congruence. now apply Hother.
    + apply lookup_insert_eq.
    + now rewrite Hbl.
  - eexists. split; [reflexivity |]. cbn.
    repeat split.
    + intros other Hne. rewrite lookup_insert_ne by congruence. now apply Hother.
    + apply lookup_insert_eq.
    + exact Hbl.
Qed.

(** A preempted session is counted like a failed one. *)
Lemma preempted_session_is_counted streamUrl components (s : State) w :
  watchStream env streamUrl components (world s) = (Thrown HighPriorityError, w) ->
  exists s',
    watchStreamWrapper env options streamUrl components s = (Throws HighPriorityError, s') /\
    incrementFailureCounter env options streamUrl
      (givenWay (record (EvWatchStream streamUrl) w s))
      = (Returns tt, s').
Proof.
  intros Hrun. unfold watchStreamWrapper.
  rewrite run_bind, try_watchStreamSession, Hrun. cbn [fst snd isHighPriorityError].
  rewrite run_bind. unfold mret at 1, M_ret at 1. cbn beta iota.
  rewrite run_bind.
  destruct (incrementFailureCounter_run streamUrl
              (givenWay (record (EvWatchStream streamUrl) w s))) as (s' & Hinc & _).
  rewrite Hinc. exists s'. split; reflexivity.
Qed.

(** C6. Recording a failure of a stream adds one to the counter of its url,
    which counts from zero when the url has none. When the counter reaches
    the retry threshold the url enters the temporary blacklist, to lapse
    after the configured timeout, and its counter goes back to zero. A session
    that fails because the stream went down puts the url on the blacklist at
    once, whatever its counter. *)
Theorem stream_failures_are_counted (streamUrl : string) (s : State) :
  ts_timeout (streamUrlTemporaryBlacklist (bot s))
    = 1000 * 60 * failedStreamBlacklistTimeout options ->
  let count := default 0 (failedStreamUrlCounts (bot s) !! streamUrl) in
  (exists s',
     incrementFailureCounter env options streamUrl s = (Returns tt, s') /\
     (count + 1 < failedStreamRetryCount options ->
        failedStreamUrlCounts (bot s') !! streamUrl = Some (count + 1) /\
        streamUrlTemporaryBlacklist (bot s') = streamUrlTemporaryBlacklist (bot s)) /\
     (failedStreamRetryCount options <= count + 1 ->
        failedStreamUrlCounts (bot s') !! streamUrl = Some 0 /\
        ts_expiry (streamUrlTemporaryBlacklist (bot s')) !! streamUrl
          = Some (getTime env (world s) + 1000 * 60 * failedStreamBlacklistTimeout options))) /\
  (forall components w,
     watchStream env streamUrl components (world s) = (Thrown StreamDownError, w) ->
     exists s',
       watchStreamWrapper env options streamUrl components s = (Throws StreamDownError, s') /\
       ts_expiry (streamUrlTemporaryBlacklist (bot s')) !! streamUrl
         = Some (getTime env w + 1000 * 60 * failedStreamBlacklistTimeout options)).
Proof.
  intros Htimeout count. split.
  - destruct (incrementFailureCounter_run streamUrl s) as (s' & Hrun & _ & _ & _ & H).
    fold count in H. exists s'. split; [exact Hrun |]. split.
    + intros Hlt. destruct (Z.leb_spec (failedStreamRetryCount options) (count + 1)); [lia |].
      exact H.
    + intros Hle. destruct (Z.leb_spec (failedStreamRetryCount options) (count + 1)); [| lia].
      destruct H as [Hc Hb]. split; [exact Hc |].
      rewrite Hb. simpl. rewrite lookup_insert_eq, Htimeout. reflexivity.
  - intros components w Hdown. unfold watchStreamWrapper.
    rewrite run_bind, try_watchStreamSession, Hdown. cbn [fst snd isHighPriorityError
      isStreamLoadFailedError isStreamDownError].
    rewrite run_bind, run_bind. unfold now at 1. cbn beta iota.
    unfold modify_bot at 1. cbn beta iota. cbn [world record bot trace].
    rewrite run_bind.
    match goal with
    | |- context [incrementFailureCounter env options streamUrl ?s0] =>
        destruct (incrementFailureCounter_run streamUrl s0)
          as (s' & Hrun & _ & _ & _ & H)
    end.
    rewrite Hrun. eexists. split; [reflexivity |].
    cbn [bot world] in H.
    destruct (failedStreamRetryCount options <=? _) in H; destruct H as [_ ->];
      simpl; rewrite ?lookup_insert_eq, Htimeout; reflexivity.
Qed.

(** *** Sleeping *)

(** C9. When the main loop finds no campaign to attempt and the bot does not
    watch streams in the meantime, it goes to the blank page, starts a timer
    and waits. The delay of the timer is [max(0, window - elapsed)], where
    [window] is the cool-down window and [elapsed] the time since the
    attempt of the pending campaign attempted least recently; when no pending
    campaign has a recorded attempt (an empty queue included) the delay is
    the whole window. Recorded attempts lie in the past, and the two readings
    of the clock in this synchronous stretch are the same instant. *)
Theorem sleep_duration (idle : M unit) (fuel : nat) (s : State) (w1 : World) :
  getNextPendingDropCampaignId_from (bot s) (getTime env (world s))
    (pendingDropCampaignIds (bot s)) = Ok None ->
  watchStreamsWhenNoDropCampaignsActive options = false ->
  page_goto env "about:blank" (world s) = (Ok tt, w1) ->
  let time := getTime env w1 in
  let attempts := lastDropCampaignAttemptTimes (bot s) in
  let pending := pendingDropCampaignIds (bot s) in
  (forall id t, id ∈ pending -> attempts !! id = Some t -> 0 < t <= time) ->
  exists delay s',
    startIteration env options idle fuel s = (Returns tt, s') /\
    eventsSince s s' = [EvGoto "about:blank"; EvSetTimeoutNotifyAll delay; EvWait] /\
    (forall id t,
       id ∈ pending -> attempts !! id = Some t ->
       (forall id' t', id' ∈ pending -> attempts !! id' = Some t' -> t <= t') ->
       delay = Z.max 0 (sleepTimeMilliseconds - (time - t))) /\
    ((forall id, id ∈ pending -> attempts !! id = None) ->
     delay = sleepTimeMilliseconds).
Proof.
  intros Hnext Hidle Hgoto time attempts pending Hpast.
  assert (Hn : getNextPendingDropCampaignId env s = (Returns None, s)).
  { unfold getNextPendingDropCampaignId. rewrite run_bind. unfold get_bot at 1.
    cbn beta iota. rewrite run_bind. unfold now at 1. cbn beta iota.
    rewrite Hnext. reflexivity. }
  unfold startIteration. rewrite run_bind, Hn.
  rewrite run_bind. unfold modify_bot at 1. cbn beta iota. rewrite Hidle.
  unfold sleepUntilNotified. rewrite run_bind. unfold call at 1. cbn [world].
  rewrite Hgoto.
  set (b := set_currentDropCampaignId None (bot s)).
  exists (sleepTime b time time). eexists. split; [reflexivity |].
  split; [apply eventsSince_app; simpl; rewrite <- !app_assoc; reflexivity |].
  split.
  - intros id t Hin Hat Hmin. unfold sleepTime.
    destruct (Hpast id t Hin Hat) as [Hpos Hle].
    rewrite (minLast_least_recent b time id t); try assumption; [reflexivity | lia |].
    intros id' t' Hin' Hat' _. now apply Hmin with id'.
  - intros Hnone. rewrite sleepTime_nothing_recorded by exact Hnone.
    unfold sleepTimeMilliseconds. lia.
Qed.
(** *** The trace only grows *)

Lemma extends_refl (s : @State World) : extends s s.
Proof. exists []. now rewrite app_nil_r. Qed.

Lemma extends_trans (s1 s2 s3 : @State World) :
  extends s1 s2 -> extends s2 s3 -> extends s1 s3.
Proof.
  intros [e1 H1] [e2 H2]. exists (e1 ++ e2). now rewrite H2, H1, app_assoc.
Qed.

Lemma growing_ret {A} (a : A) : growing (mret a : @M World A).
Proof. intros s. apply extends_refl. Qed.

Lemma growing_throw {A} (e : Error) : growing (@throw World A e).
Proof. intros s. apply extends_refl. Qed.

Lemma growing_diverge {A} : growing (@diverge World A).
Proof. intros s. apply extends_refl. Qed.

Lemma growing_get_bot : growing (@get_bot World).
Proof. intros s. apply extends_refl. Qed.

Lemma growing_now : growing (now env).
Proof. intros s. apply extends_refl. Qed.

Lemma growing_modify_bot f : growing (@modify_bot World f).
Proof. intros s. exists []. simpl. now rewrite app_nil_r. Qed.

Lemma growing_emit ev : growing (@emit World ev).
Proof. intros s. exists [ev]. reflexivity. Qed.

Lemma growing_call {A} ev (f : World -> Result A * World) : growing (call ev f).
Proof.
  intros s. unfold call. destruct (f (world s)) as [[a|e] w]; exists [ev]; reflexivity.
Qed.

Lemma growing_bind {A B} (m : @M World A) (f : A -> @M World B) :
  growing m -> (forall a, growing (f a)) -> growing (m ≫= f).
Proof.
  intros Hm Hf s. rewrite run_bind. specialize (Hm s).
  destruct (m s) as [[a|e|] s1]; simpl in *; try assumption.
  eapply extends_trans; [exact Hm | apply Hf].
Qed.

Lemma growing_try {A} (m : @M World A) : growing m -> growing (try m).
Proof.
  intros Hm s. unfold try. specialize (Hm s).
  destruct (m s) as [[a|e|] s1]; exact Hm.
Qed.

Lemma growing_if {A} (c : bool) (m1 m2 : @M World A) :
  growing m1 -> growing m2 -> growing (if c then m1 else m2).
Proof. destruct c; auto. Qed.

Lemma beginsWith_call {A} ev (f : World -> Result A * World) : beginsWith ev (call ev f).
Proof.
  intros s. exists []. unfold call. destruct (f (world s)) as [[a|e] w]; reflexivity.
Qed.

Lemma beginsWith_try {A} ev (m : @M World A) : beginsWith ev m -> beginsWith ev (try m).
Proof.
  intros Hm s. destruct (Hm s) as [evs Hevs]. exists evs. unfold try.
  destruct (m s) as [[a|e|] s1]; exact Hevs.
Qed.

Lemma beginsWith_bind {A B} ev (m : @M World A) (k : A -> @M World B) :
  beginsWith ev m -> (forall a, growing (k a)) -> beginsWith ev (m ≫= k).
Proof.
  intros Hm Hk s. destruct (Hm s) as [evs Hevs]. rewrite run_bind.
  destruct (m s) as [[a|e|] s1]; cbn [snd] in *; try (exists evs; exact Hevs).
  destruct (Hk a s1) as [evs' Hevs']. exists (evs ++ evs').
  rewrite Hevs', Hevs, <- app_assoc. reflexivity.
Qed.

Create HintDb growing.
Hint Resolve growing_ret growing_throw growing_diverge growing_get_bot growing_now
  growing_modify_bot growing_emit growing_call growing_try growing_if : growing.

Ltac growing :=
  repeat first
    [ apply growing_bind; [| intros ? ]
    | progress auto with growing
    | match goal with
      | |- growing (match ?x with _ => _ end) => destruct x
      end ].

Lemma growing_claimDropReward drop : growing (claimDropReward env drop).
Proof. unfold claimDropReward. growing. Qed.

Lemma growing_getActiveStreams id details : growing (getActiveStreams env id details).
Proof. unfold getActiveStreams. growing. Qed.

Lemma growing_incrementFailureCounter streamUrl :
  growing (incrementFailureCounter env options streamUrl).
Proof. unfold incrementFailureCounter. growing. Qed.

Lemma growing_watchStreamSession streamUrl components :
  growing (watchStreamSession env streamUrl components).
Proof. unfold watchStreamSession. growing. Qed.

Hint Resolve growing_claimDropReward growing_getActiveStreams
  growing_incrementFailureCounter growing_watchStreamSession : growing.

Lemma growing_watchStreamWrapper streamUrl components :
  growing (watchStreamWrapper env options streamUrl components).
Proof. unfold watchStreamWrapper. growing. Qed.

Hint Resolve growing_watchStreamWrapper : growing.

Lemma watchStreamWrapper_watches_first streamUrl components :
  beginsWith (EvWatchStream streamUrl)
    (watchStreamWrapper env options streamUrl components).
Proof.
  unfold watchStreamWrapper. apply beginsWith_bind.
  - apply beginsWith_try. unfold watchStreamSession. apply beginsWith_bind.
    + apply beginsWith_try, beginsWith_call.
    + intros r. growing.
  - intros r. growing.
Qed.

Lemma growing_watchLoop fuel id details drop :
  growing (watchLoop env options fuel id details drop).
Proof.
  induction fuel as [|fuel IH]; cbn [watchLoop]; growing.
Qed.

Hint Resolve growing_watchLoop : growing.

(** X10. The stream selection of campaign processing passes over the urls on the
    blacklist: it gives up when no other is left, and the stream it goes on to
    watch is not on the blacklist. *)
Lemma watchLoop_avoids_blacklist fuel id details drop (s s1 : State) streams :
  getActiveStreams env id details s = (Returns streams, s1) ->
  let unlisted stream :=
    negb (TimedSet_has (getTime env (world s1)) (url stream)
            (streamUrlTemporaryBlacklist (bot s1))) in
  match List.filter unlisted streams with
  | [] => watchLoop env options (S fuel) id details drop s = (Throws NoStreamsError, s1)
  | first :: _ =>
      first ∈ streams /\
      TimedSet_has (getTime env (world s1)) (url first)
        (streamUrlTemporaryBlacklist (bot s1)) = false /\
      exists evs,
        trace (snd (watchLoop env options (S fuel) id details drop s))
          = trace s1 ++ EvWatchStream (url first) :: evs
  end.
Proof.
  intros Hstreams unlisted.
  assert (Hstep :
    watchLoop env options (S fuel) id details drop s =
      match List.filter unlisted streams with
      | [] => (Throws NoStreamsError, s1)
      | first :: _ =>
          (try (watchStreamWrapper env options (url first) (CampaignComponents drop))
             ≫= λ r : Result (),
                  match r with
                  | Ok _ => mret tt
                  | Thrown error =>
                      if isHighPriorityError error then throw error
                      else watchLoop env options fuel id details drop
                  end) s1
      end).
  { cbn [watchLoop]. rewrite run_bind, Hstreams.
    rewrite run_bind. unfold get_bot at 1. cbn beta iota.
    rewrite run_bind. unfold now at 1. cbn beta iota. fold unlisted.
    destruct (List.filter unlisted streams); reflexivity. }
  rewrite Hstep. clear Hstep.
  destruct (List.filter unlisted streams) as [|first others] eqn:Hf; [reflexivity |].
  assert (Hin : In first (List.filter unlisted streams)) by (rewrite Hf; left; reflexivity).
  apply filter_In in Hin as [Hin Hun].
  split; [now apply list_elem_of_In |].
  split; [unfold unlisted in Hun; now apply negb_true_iff in Hun |].
  apply beginsWith_bind.
  - apply beginsWith_try, watchStreamWrapper_watches_first.
  - intros r. growing.
Qed.

Lemma growing_dropLoop fuel id details :
  growing (dropLoop env options fuel id details).
Proof.
  induction fuel as [|fuel IH]; cbn [dropLoop]; growing.
Qed.

(** Every turn of the outer loop begins by fetching the inventory. *)
Lemma dropLoop_fetches_inventory_first fuel id details :
  beginsWith EvGetInventory (dropLoop env options (S fuel) id details).
Proof.
  cbn [dropLoop]. apply beginsWith_bind; [apply beginsWith_call |].
  intros inventory. pose proof (growing_dropLoop fuel id details).
  growing.
Qed.

(** C7. In the processing of a campaign, when the inventory just fetched
    shows the first unclaimed drop watched for its required minutes, the loop
    issues one claim call for the claim instance of that drop and nothing
    else: no stream is looked for. When the call returns the loop goes round,
    and its next act is to fetch the inventory again; when the call fails the
    error leaves the loop. *)
Theorem ready_drop_is_claimed_first (fuel : nat) (dropCampaignId : string)
    (details : DropCampaign) (s : State) (inventory : Inventory) (w1 w2 : World)
    (drop inventoryDrop : TimeBasedDrop) (answer : Result unit) :
  client_getInventory env (world s) = (Ok inventory, w1) ->
  getFirstUnclaimedDrop env dropCampaignId details inventory = Some drop ->
  getInventoryDrop env (drop_id drop) inventory dropCampaignId = Some inventoryDrop ->
  requiredMinutesWatched inventoryDrop <= currentMinutesWatched inventoryDrop ->
  client_claimDropReward env (dropInstanceID inventoryDrop) w1 = (answer, w2) ->
  let claimed :=
    record (EvClaimDropReward (dropInstanceID inventoryDrop)) w2
      (record EvGetInventory w1 s) in
  match answer with
  | Ok _ =>
      dropLoop env options (S fuel) dropCampaignId details s
        = dropLoop env options fuel dropCampaignId details claimed /\
      (fuel <> O ->
       exists evs,
         eventsSince s (snd (dropLoop env options (S fuel) dropCampaignId details s))
           = EvGetInventory :: EvClaimDropReward (dropInstanceID inventoryDrop)
               :: EvGetInventory :: evs)
  | Thrown e =>
      dropLoop env options (S fuel) dropCampaignId details s = (Throws e, claimed)
  end.
Proof.
  intros Hinv Hfirst Hdrop Hready Hclaim claimed.
  assert (Hstep : dropLoop env options (S fuel) dropCampaignId details s =
                  match answer with
                  | Ok _ => dropLoop env options fuel dropCampaignId details claimed
                  | Thrown e => (Throws e, claimed)
                  end).
  { cbn [dropLoop]. rewrite run_bind. unfold call at 1. rewrite Hinv.
    rewrite Hfirst, Hdrop.
    assert (Hr : readyToClaim (Some inventoryDrop) = Some inventoryDrop)
      by (apply readyToClaim_Some; now split).
    rewrite Hr, run_bind. unfold claimDropReward, call. cbn [world record].
    rewrite Hclaim. destruct answer as [[]|e]; reflexivity. }
  destruct answer as [[]|e]; [| exact Hstep].
  split; [exact Hstep |].
  intros Hfuel. destruct fuel as [|fuel']; [contradiction |].
  rewrite Hstep.
  destruct (dropLoop_fetches_inventory_first fuel' dropCampaignId details claimed)
    as [evs Hevs].
  exists evs. apply eventsSince_app. rewrite Hevs. simpl.
  rewrite <- !app_assoc. reflexivity.
Qed.

(** *** The attempt of a campaign *)

(** A turn of the main loop that finds a campaign attempts it. *)
Lemma startIteration_attempts (idle : M unit) (fuel : nat) (s : State) id :
  getNextPendingDropCampaignId_from (bot s) (getTime env (world s))
    (pendingDropCampaignIds (bot s)) = Ok (Some id) ->
  startIteration env options idle fuel s =
    attemptCampaign env options fuel id
      {| bot := set_currentDropCampaignId (Some id) (bot s);
         world := world s; trace := trace s |}.
Proof.
  intros Hnext.
  assert (Hn : getNextPendingDropCampaignId env s = (Returns (Some id), s)).
  { unfold getNextPendingDropCampaignId. rewrite run_bind. unfold get_bot at 1.
    cbn beta iota. rewrite run_bind. unfold now at 1. cbn beta iota.
    rewrite Hnext. reflexivity. }
  unfold startIteration. rewrite run_bind, Hn.
  rewrite run_bind. unfold modify_bot at 1. cbn beta iota. reflexivity.
Qed.

(** C10. A turn of the main loop that finds a campaign marks it as current
    and attempts it. Whatever way [#processDropCampaign] ends, by returning
    or by throwing the no-streams signal, the preemption signal or any other
    error, the attempt ends normally with the current campaign reset to
    [null], so that the next turn starts with no campaign marked. (While the
    processing runs on, so does the attempt.) *)
Theorem attempt_resets_current_campaign (idle : M unit) (fuel : nat)
    (dropCampaignId : string) (s : State) :
  (getNextPendingDropCampaignId_from (bot s) (getTime env (world s))
     (pendingDropCampaignIds (bot s)) = Ok (Some dropCampaignId) ->
   startIteration env options idle fuel s =
     attemptCampaign env options fuel dropCampaignId
       {| bot := set_currentDropCampaignId (Some dropCampaignId) (bot s);
          world := world s; trace := trace s |}) /\
  forall s0 : State,
    match processDropCampaign env options fuel dropCampaignId s0 with
    | (Diverges, s') =>
        attemptCampaign env options fuel dropCampaignId s0 = (Diverges, s')
    | (_, s') =>
        exists s'',
          attemptCampaign env options fuel dropCampaignId s0 = (Returns tt, s'') /\
          currentDropCampaignId (bot s'') = None /\
          world s'' = world s' /\ trace s'' = trace s'
    end.
Proof.
  split; [apply startIteration_attempts |].
  intros s0. unfold attemptCampaign, finally. rewrite run_bind. unfold try.
  destruct (processDropCampaign env options fuel dropCampaignId s0) as [[[]|e|] s'];
    cbn; eauto.
Qed.

End BotFacts.

(** ** The properties at work in the small world *)

Lemma higher_priority_check_witness :
  let env := Scenario.scenario (Ok []) (Ok Cases.detailsD)
               (Ok [Cases.streamTwo; Scenario.streamOne]) (Ok tt) (Ok tt) in
  let s := Scenario.startState Cases.choosyBot [Scenario.dropInProgress] in
  let s' := snd (hasPendingHigherPriorityStream env s) in
  (forall id, id ∈ pendingDropCampaignIds (bot s) ->
              is_Some (dropCampaignMap (bot s) !! id)) /\
  hasPendingHigherPriorityStream env s = (Returns true, s') /\
  eventsSince s s'
    = [EvGetInventory; EvGetDropCampaignDetails "campaign-d"; EvGetActiveStreams "Game One"] /\
  HigherPriorityCheck env (pendingDropCampaignIds (bot s)) s true s' /\
  bot s' = bot s.
Proof.
  intros env s s'.
  assert (H : forall id, id ∈ pendingDropCampaignIds (bot s) ->
                         is_Some (dropCampaignMap (bot s) !! id)).
  { intros id Hid. simpl in Hid.
    apply elem_of_cons in Hid as [->|Hid];
      [exists Scenario.campaignA; vm_compute; reflexivity |].
    apply elem_of_cons in Hid as [->|Hid];
      [exists Cases.campaignD; vm_compute; reflexivity |].
    apply elem_of_cons in Hid as [->|Hid];
      [exists Scenario.campaignB; vm_compute; reflexivity |].
    apply elem_of_nil in Hid. contradiction. }
  destruct (higher_priority_check env s H) as (found & s1 & Hrun & Hspec & Hbot & _).
  assert (E : hasPendingHigherPriorityStream env s = (Returns true, s'))
    by (vm_compute; reflexivity).
  rewrite E in Hrun. injection Hrun as <- <-.
  split; [exact H |]. split; [exact E |]. split; [vm_compute; reflexivity |].
  split; [exact Hspec | exact Hbot].
Defined.

(** C8 as the specification words it fails: after a tick whose fetch failed
    nobody has been notified. *)
Lemma refresh_failure_notifies_nobody :
  let env := Scenario.scenario (Thrown (OtherError "network")) (Ok Scenario.campaignA)
               (Ok [Scenario.streamOne]) (Ok tt) (Ok tt) in
  let s := Scenario.startState Scenario.restingBot [] in
  ~ (EvNotifyAll ∈ eventsSince s (snd (watchdogTick env Scenario.options s))).
Proof.
  intros env s H. vm_compute in H.
  repeat (apply elem_of_cons in H as [H|H]; [discriminate H |]).
  apply elem_of_nil in H. exact H.
Qed.

Lemma stream_failures_are_counted_witness :
  let env := Scenario.scenario (Ok []) (Ok Scenario.campaignA)
               (Ok [Scenario.streamOne]) (Ok tt) (Thrown StreamDownError) in
  let s := Scenario.startState Scenario.restingBot [Scenario.dropInProgress] in
  let streamUrl := url Scenario.streamOne in
  ts_timeout (streamUrlTemporaryBlacklist (bot s))
    = 1000 * 60 * failedStreamBlacklistTimeout Scenario.options /\
  exists s',
    watchStreamWrapper env Scenario.options streamUrl IdleComponents s
      = (Throws StreamDownError, s') /\
    ts_expiry (streamUrlTemporaryBlacklist (bot s')) !! streamUrl
      = Some (1646000060000 + 1000 * 60 * failedStreamBlacklistTimeout Scenario.options).
Proof.
  intros env s streamUrl.
  split; [reflexivity |].
  destruct (stream_failures_are_counted env Scenario.options streamUrl s eq_refl)
    as [_ H].
  exact (H IdleComponents _ eq_refl).
Defined.

Lemma sleep_duration_witness :
  let env := Scenario.scenario (Ok []) (Ok Scenario.campaignA)
               (Ok [Scenario.streamOne]) (Ok tt) (Ok tt) in
  let s := Scenario.startState Scenario.cooledBot [Scenario.dropInProgress] in
  exists delay s',
    startIteration env Scenario.options (mret tt) 0 s = (Returns tt, s') /\
    eventsSince s s' = [EvGoto "about:blank"; EvSetTimeoutNotifyAll delay; EvWait] /\
    delay = 179999.
Proof.
  intros env s.
  destruct (sleep_duration env Scenario.options (mret tt) 0%nat s
              (Scenario.tick 1 (world s)))
    as (delay & s' & Hrun & Hevents & Hleast & _).
  - vm_compute; reflexivity.
  - reflexivity.
  - reflexivity.
  - intros id t Hin Hat. simpl in Hin.
    apply elem_of_cons in Hin as [->|Hin];
      [vm_compute in Hat; injection Hat as <-; vm_compute; split; reflexivity || discriminate |].
    apply elem_of_cons in Hin as [->|Hin];
      [vm_compute in Hat; injection Hat as <-; vm_compute; split; reflexivity || discriminate |].
    apply elem_of_nil in Hin. contradiction.
  - exists delay, s'. split; [exact Hrun |]. split; [exact Hevents |].
    rewrite (Hleast "campaign-b"%string (1646000000000 - 120000)).
    + reflexivity.
    + simpl. right. left.
    + vm_compute; reflexivity.
    + intros id' t' Hin Hat. simpl in Hin.
      apply elem_of_cons in Hin as [->|Hin];
        [vm_compute in Hat; injection Hat as <-; vm_compute; discriminate |].
      apply elem_of_cons in Hin as [->|Hin];
        [vm_compute in Hat; injection Hat as <-; vm_compute; discriminate |].
      apply elem_of_nil in Hin. contradiction.
Defined.

Lemma ready_drop_is_claimed_first_witness :
  let env := Scenario.scenario (Ok []) (Ok Scenario.campaignA)
               (Ok [Scenario.streamOne]) (Ok tt) (Ok tt) in
  let s := Scenario.startState Scenario.restingBot
             [Scenario.dropWatched; Scenario.dropInProgress] in
  let claimed :=
    record (EvClaimDropReward "instance-2")
      (Scenario.claim "instance-2" (Scenario.tick 1 (Scenario.tick 1 (world s))))
      (record EvGetInventory (Scenario.tick 1 (world s)) s) in
  requiredMinutesWatched Scenario.dropWatched
    <= currentMinutesWatched Scenario.dropWatched /\
  dropLoop env Scenario.options 3 "campaign-a" Scenario.campaignA s
    = dropLoop env Scenario.options 2 "campaign-a" Scenario.campaignA claimed /\
  (2%nat <> 0%nat ->
   exists evs,
     eventsSince s (snd (dropLoop env Scenario.options 3 "campaign-a"
                           Scenario.campaignA s))
       = EvGetInventory :: EvClaimDropReward "instance-2" :: EvGetInventory :: evs).
Proof.
  intros env s claimed.
  assert (H : requiredMinutesWatched Scenario.dropWatched
              <= currentMinutesWatched Scenario.dropWatched) by (simpl; lia).
  split; [exact H |].
  exact (ready_drop_is_claimed_first env Scenario.options 2 "campaign-a"
           Scenario.campaignA s
           [Scenario.dropWatched; Scenario.dropInProgress]
           (Scenario.tick 1 (world s))
           (Scenario.claim "instance-2" (Scenario.tick 1 (Scenario.tick 1 (world s))))
           Scenario.dropWatched Scenario.dropWatched (Ok tt)
           eq_refl eq_refl eq_refl H eq_refl).
Defined.

(** C7 as the specification words it fails when the claim call fails: the
    inventory shows the first unclaimed drop watched in full and one claim
    call is made, but the error of the call ends the loop, and the inventory
    is not fetched again. *)
Lemma failed_claim_ends_the_loop :
  let env := Scenario.scenario (Ok []) (Ok Scenario.campaignA)
               (Ok [Scenario.streamOne]) (Thrown (OtherError "network")) (Ok tt) in
  let s := Scenario.startState Scenario.restingBot
             [Scenario.dropWatched; Scenario.dropInProgress] in
  let inventory := [Scenario.dropWatched; Scenario.dropInProgress] in
  let run := dropLoop env Scenario.options 3 "campaign-a" Scenario.campaignA s in
  ~ (fst (client_getInventory env (world s)) = Ok inventory ->
     getFirstUnclaimedDrop env "campaign-a" Scenario.campaignA inventory
       = Some Scenario.dropWatched ->
     requiredMinutesWatched Scenario.dropWatched
       <= currentMinutesWatched Scenario.dropWatched ->
     exists evs,
       eventsSince s (snd run)
         = EvGetInventory :: EvClaimDropReward "instance-2" :: EvGetInventory :: evs).
Proof.
  intros env s inventory run H.
  destruct H as [evs H]; [reflexivity | reflexivity | simpl; lia |].
  vm_compute in H. discriminate H.
Qed.

(** What the run of that input is: the fetch, the claim call, and the error. *)
Lemma failed_claim_run :
  let env := Scenario.scenario (Ok []) (Ok Scenario.campaignA)
               (Ok [Scenario.streamOne]) (Thrown (OtherError "network")) (Ok tt) in
  let s := Scenario.startState Scenario.restingBot
             [Scenario.dropWatched; Scenario.dropInProgress] in
  let run := dropLoop env Scenario.options 3 "campaign-a" Scenario.campaignA s in
  fst run = Throws (OtherError "network") /\
  eventsSince s (snd run) = [EvGetInventory; EvClaimDropReward "instance-2"].
Proof. intros env s run. split; vm_compute; reflexivity. Qed.

(** With an inventory that lags behind the claim, every turn of the loop
    claims the same drop again. *)
Lemma lagging_inventory_repeats_the_claim :
  let env := Cases.lagging
               (Scenario.scenario (Ok []) (Ok Scenario.campaignA)
                  (Ok [Scenario.streamOne]) (Ok tt) (Ok tt)) in
  let s := Scenario.startState Scenario.restingBot
             [Scenario.dropWatched; Scenario.dropInProgress] in
  let run := dropLoop env Scenario.options 3 "campaign-a" Scenario.campaignA s in
  eventsSince s (snd run)
    = [EvGetInventory; EvClaimDropReward "instance-2";
       EvGetInventory; EvClaimDropReward "instance-2";
       EvGetInventory; EvClaimDropReward "instance-2"].
Proof. intros env s run. vm_compute. reflexivity. Qed.

(** C3, what the code does. A session that ends with the preemption signal
    goes through the same counting as any failed session: a url without a
    counter gets the counter 1, and with a retry threshold of 1 the url is put
    on the temporary blacklist. *)
Theorem preemption_is_counted_as_failure :
  let env := Scenario.scenario (Ok []) (Ok Scenario.campaignA)
               (Ok [Scenario.streamOne]) (Ok tt) (Thrown HighPriorityError) in
  let s := Scenario.startState Scenario.restingBot [Scenario.dropInProgress] in
  let streamUrl := url Scenario.streamOne in
  let run options := watchStreamWrapper env options streamUrl IdleComponents s in
  failedStreamUrlCounts (bot s) !! streamUrl = None /\
  TimedSet_has (getTime env (world s)) streamUrl
    (streamUrlTemporaryBlacklist (bot s)) = false /\
  fst (run Scenario.options) = Throws HighPriorityError /\
  failedStreamUrlCounts (bot (snd (run Scenario.options))) !! streamUrl = Some 1 /\
  fst (run Scenario.strictOptions) = Throws HighPriorityError /\
  TimedSet_has (getTime env (world (snd (run Scenario.strictOptions)))) streamUrl
    (streamUrlTemporaryBlacklist (bot (snd (run Scenario.strictOptions)))) = true.
Proof. vm_compute. repeat split. Qed.

(** C4, what the code does. While campaign B is being worked on and the only
    live stream of campaign A is on the temporary blacklist, the
    higher-priority check answers true for campaign A; the stream selection
    of campaign processing, from the same state, finds no stream to watch. *)
Theorem check_counts_blacklisted_stream :
  let env := Scenario.scenario (Ok []) (Ok Scenario.campaignA)
               (Ok [Scenario.streamOne]) (Ok tt) (Ok tt) in
  let s := Scenario.startState Scenario.wearyBot [Scenario.dropInProgress] in
  let checked := hasPendingHigherPriorityStream env s in
  eventsSince s (snd checked)
    = [EvGetInventory; EvGetDropCampaignDetails "campaign-a";
       EvGetActiveStreams "Game One"] /\
  TimedSet_has (getTime env (world (snd checked))) (url Scenario.streamOne)
    (streamUrlTemporaryBlacklist (bot (snd checked))) = true /\
  fst checked = Returns true /\
  fst (watchLoop env Scenario.options 1 "campaign-a" Scenario.campaignA
         Scenario.dropInProgress s) = Throws NoStreamsError.
Proof. vm_compute. repeat split. Qed.

Lemma attempt_resets_current_campaign_witness :
  let env := Scenario.scenario (Ok []) (Ok Scenario.campaignA)
               (Ok [Scenario.streamOne]) (Ok tt) (Thrown HighPriorityError) in
  let s := Scenario.startState Scenario.restingBot [Scenario.dropInProgress] in
  getNextPendingDropCampaignId_from (bot s) (getTime env (world s))
    (pendingDropCampaignIds (bot s)) = Ok (Some "campaign-a"%string) /\
  exists s'',
    startIteration env Scenario.options (mret tt) 2 s = (Returns tt, s'') /\
    currentDropCampaignId (bot s'') = None.
Proof.
  intros env s.
  assert (Hnext : getNextPendingDropCampaignId_from (bot s) (getTime env (world s))
                    (pendingDropCampaignIds (bot s)) = Ok (Some "campaign-a"%string))
    by (vm_compute; reflexivity).
  split; [exact Hnext |].
  destruct (attempt_resets_current_campaign env Scenario.options (mret tt) 2%nat
              "campaign-a" s) as [Hturn Hattempt].
  rewrite (Hturn Hnext).
  match goal with
  | |- context [attemptCampaign _ _ _ _ ?s0] => specialize (Hattempt s0)
  end.
  destruct (processDropCampaign env Scenario.options 2 "campaign-a" _)
    as [[[]|e|] s'] eqn:Hrun.
  - destruct Hattempt as (s'' & H1 & H2 & _). exists s''. split; assumption.
  - destruct Hattempt as (s'' & H1 & H2 & _). exists s''. split; assumption.
  - vm_compute in Hrun. discriminate Hrun.
Defined.

(** ** The comparator as an order *)

(** *** The order on strings, continued *)

Lemma ascii_compare_lt_trans a b c :
  Ascii.compare a b = Lt -> Ascii.compare b c = Lt -> Ascii.compare a c = Lt.
Proof.
  unfold Ascii.compare. rewrite !N.compare_lt_iff. lia.
Qed.

Lemma ascii_compare_refl a : Ascii.compare a a = Eq.
Proof. unfold Ascii.compare. apply N.compare_refl. Qed.

Lemma string_compare_lt_trans a : forall b c,
  String.compare a b = Lt -> String.compare b c = Lt -> String.compare a c = Lt.
Proof.
  induction a as [|x a IH]; intros [|y b] [|z c]; simpl; try congruence.
  destruct (Ascii.compare x y) eqn:Exy; try discriminate;
    destruct (Ascii.compare y z) eqn:Eyz; try discriminate; intros H1 H2.
  - apply Ascii.compare_eq_iff in Exy, Eyz. subst.
    rewrite ascii_compare_refl. now apply IH with b.
  - apply Ascii.compare_eq_iff in Exy. subst. now rewrite Eyz.
  - apply Ascii.compare_eq_iff in Eyz. subst. now rewrite Exy.
  - now rewrite (ascii_compare_lt_trans x y z).
Qed.

Lemma ltb_trans a b c :
  String.ltb a b = true -> String.ltb b c = true -> String.ltb a c = true.
Proof.
  unfold String.ltb. intros H1 H2.
  destruct (String.compare a b) eqn:E1; try discriminate.
  destruct (String.compare b c) eqn:E2; try discriminate.
  now rewrite (string_compare_lt_trans a b c).
Qed.

Lemma ltb_irrefl a : String.ltb a a = false.
Proof.
  unfold String.ltb.
  assert (E : String.compare a a = Eq).
  { induction a as [|x a IH]; simpl; [reflexivity |].
    now rewrite ascii_compare_refl. }
  now rewrite E.
Qed.

(** *** [indexOf], continued *)

Lemma indexOf_from_bound xs x i :
  indexOf_from xs x i = -1 \/ indexOf_from xs x i < i + Z.of_nat (length xs).
Proof.
  revert i. induction xs as [|y ys IH]; intros i; simpl; [now left |].
  destruct (String.eqb y x); [right; lia |].
  destruct (IH (i + 1)) as [H|H]; [now left | right; lia].
Qed.

Lemma indexOf_from_same xs : forall x y i,
  0 <= i -> indexOf_from xs x i = indexOf_from xs y i -> indexOf_from xs x i <> -1 -> x = y.
Proof.
  induction xs as [|z zs IH]; intros x y i Hi; simpl; [congruence |].
  destruct (String.eqb_spec z x) as [Hzx|Hzx]; destruct (String.eqb_spec z y) as [Hzy|Hzy].
  - congruence.
  - intros H _. exfalso.
    destruct (indexOf_from_range zs y (i + 1)) as [E|E]; lia.
  - intros H _. exfalso.
    destruct (indexOf_from_range zs x (i + 1)) as [E|E]; lia.
  - apply IH. lia.
Qed.

Section ComparatorOrder.

Variable Date_parse : string -> JsNumber.
Variable priorities : list string.
Variable campaigns : gmap string DropCampaign.

Lemma rank_index g1 g2 :
  rank priorities g1 = rank priorities g2 <-> indexOf priorities g1 = indexOf priorities g2.
Proof.
  unfold rank.
  destruct (indexOf_from_bound priorities g1 0) as [H1|H1];
    destruct (indexOf_from_bound priorities g2 0) as [H2|H2];
    fold (indexOf priorities g1) in *; fold (indexOf priorities g2) in *;
    destruct (Z.eqb_spec (indexOf priorities g1) (-1));
    destruct (Z.eqb_spec (indexOf priorities g2) (-1)); try lia.
Qed.

(** The comparator is the order by rank, then end time, then identifier. *)
Lemma comparator_before a b campaignA campaignB endTimeA endTimeB :
  a <> b ->
  campaigns !! a = Some campaignA ->
  campaigns !! b = Some campaignB ->
  Date_parse (endAt campaignA) = Num endTimeA ->
  Date_parse (endAt campaignB) = Num endTimeB ->
  let rA := rank priorities (game_id (game campaignA)) in
  let rB := rank priorities (game_id (game campaignB)) in
  let before :=
    rA < rB \/ (rA = rB /\ (endTimeA < endTimeB \/
                            (endTimeA = endTimeB /\ String.ltb a b = true))) in
  (before -> comparator Date_parse priorities campaigns a b = Ok (-1)) /\
  (~ before -> comparator Date_parse priorities campaigns a b = Ok 1).
Proof.
  intros Hne HA HB HtA HtB rA rB before.
  rewrite (comparator_unfold Date_parse priorities campaigns a b campaignA campaignB
             Hne HA HB). cbv zeta. rewrite HtA, HtB. simpl.
  pose proof (rank_index (game_id (game campaignA)) (game_id (game campaignB))) as Hrank.
  unfold before, rA, rB, rank in *. clear before rA rB.
  destruct (indexOf_from_bound priorities (game_id (game campaignA)) 0) as [H1|H1];
    destruct (indexOf_from_bound priorities (game_id (game campaignB)) 0) as [H2|H2];
    destruct (indexOf_nonneg priorities (game_id (game campaignA))) as [H3|H3];
    destruct (indexOf_nonneg priorities (game_id (game campaignB))) as [H4|H4];
    fold (indexOf priorities (game_id (game campaignA))) in *;
    fold (indexOf priorities (game_id (game campaignB))) in *;
    destruct (Z.eqb_spec (indexOf priorities (game_id (game campaignA))) (-1));
    destruct (Z.eqb_spec (indexOf priorities (game_id (game campaignB))) (-1));
    try lia; simpl;
    destruct (Z.eqb_spec (indexOf priorities (game_id (game campaignA)))
                (indexOf priorities (game_id (game campaignB))));
    try lia;
    destruct (Z.eqb_spec endTimeA endTimeB);
    destruct (Z.ltb_spec endTimeA endTimeB);
    destruct (String.ltb a b) eqn:Hlt;
    try lia;
    (split; [intros Hb | intros Hb]);
    try reflexivity;
    try (exfalso; intuition (try lia; try congruence); fail);
    try (f_equal; lia).
Qed.

(** X1. On campaigns of the map whose end dates parse, the comparator is a
    strict total order: it answers -1, 0 or 1, the answers for (a, b) and
    (b, a) are opposite, 0 is for equal identifiers only, and "before" is
    transitive. *)
Theorem comparator_strict_total_order (a b c : string) :
  dated Date_parse campaigns a -> dated Date_parse campaigns b ->
  dated Date_parse campaigns c ->
  (exists x,
     comparator Date_parse priorities campaigns a b = Ok x /\
     comparator Date_parse priorities campaigns b a = Ok (- x) /\
     (x = -1 \/ x = 0 \/ x = 1) /\
     (x = 0 <-> a = b)) /\
  (comparator Date_parse priorities campaigns a b = Ok (-1) ->
   comparator Date_parse priorities campaigns b c = Ok (-1) ->
   comparator Date_parse priorities campaigns a c = Ok (-1)).
Proof.
  intros (campaignA & tA & HA & HtA) (campaignB & tB & HB & HtB)
         (campaignC & tC & HC & HtC).
  set (rA := rank priorities (game_id (game campaignA))).
  set (rB := rank priorities (game_id (game campaignB))).
  set (rC := rank priorities (game_id (game campaignC))).
  pose (before (r1 t1 : Z) (i1 : string) (r2 t2 : Z) (i2 : string) :=
          r1 < r2 \/ (r1 = r2 /\ (t1 < t2 \/ (t1 = t2 /\ String.ltb i1 i2 = true)))).
  assert (Hdec : forall r1 t1 i1 r2 t2 i2,
             before r1 t1 i1 r2 t2 i2 \/ ~ before r1 t1 i1 r2 t2 i2).
  { intros. unfold before. destruct (String.ltb i1 i2); [| intuition lia].
    destruct (Z.lt_total r1 r2) as [?|[?|?]]; [intuition lia | | intuition lia].
    destruct (Z.lt_total t1 t2) as [?|[?|?]]; intuition lia. }
  assert (Hcmp : forall i1 i2 c1 c2 t1 t2,
             i1 <> i2 ->
             campaigns !! i1 = Some c1 -> campaigns !! i2 = Some c2 ->
             Date_parse (endAt c1) = Num t1 -> Date_parse (endAt c2) = Num t2 ->
             (before (rank priorities (game_id (game c1))) t1 i1 (rank priorities (game_id (game c2))) t2 i2 ->
              comparator Date_parse priorities campaigns i1 i2 = Ok (-1)) /\
             (~ before (rank priorities (game_id (game c1))) t1 i1 (rank priorities (game_id (game c2))) t2 i2 ->
              comparator Date_parse priorities campaigns i1 i2 = Ok 1)).
  { intros. now apply comparator_before. }
  assert (Hflip : forall r1 t1 i1 r2 t2 i2,
             i1 <> i2 ->
             (before r1 t1 i1 r2 t2 i2 <-> ~ before r2 t2 i2 r1 t1 i1)).
  { intros r1 t1 i1 r2 t2 i2 Hne. unfold before. split.
    - intros [H|[-> [H|[-> H]]]]; [intuition lia | intuition lia |].
      apply ltb_asym in H. intuition (try lia; congruence).
    - intros H. destruct (Z.lt_total r1 r2) as [?|[?|?]]; [now left | | exfalso; apply H; now left].
      right. split; [assumption |].
      destruct (Z.lt_total t1 t2) as [?|[?|?]];
        [now left | | exfalso; apply H; right; split; [lia | now left]].
      right. split; [assumption |].
      destruct (String.ltb i1 i2) eqn:E; [reflexivity |].
      exfalso. apply H. right. split; [lia |]. right. split; [lia |].
      apply ltb_total; [congruence | exact E]. }
  split.
  - destruct (decide (a = b)) as [->|Hne].
    + exists 0. rewrite comparator_equal. repeat split; auto.
    + destruct (Hcmp a b campaignA campaignB tA tB Hne HA HB HtA HtB) as [H1 H2].
      destruct (Hcmp b a campaignB campaignA tB tA (not_eq_sym Hne) HB HA HtB HtA)
        as [H3 H4].
      destruct (Hdec rA tA a rB tB b) as [Hb|Hb].
      * exists (-1). rewrite (H1 Hb), H4 by (now apply Hflip).
        repeat split; auto; [lia | contradiction].
      * exists 1. rewrite (H2 Hb), H3 by (apply Hflip; [congruence | exact Hb]).
        repeat split; auto; [lia | contradiction].
  - intros Hab Hbc.
    assert (Hne1 : a <> b).
    { intros ->. rewrite comparator_equal in Hab. discriminate. }
    assert (Hne2 : b <> c).
    { intros ->. rewrite comparator_equal in Hbc. discriminate. }
    assert (Bab : before rA tA a rB tB b).
    { destruct (Hdec rA tA a rB tB b) as [Hb|Hb]; [exact Hb |].
      apply (Hcmp a b campaignA campaignB tA tB Hne1 HA HB HtA HtB) in Hb.
      rewrite Hab in Hb. discriminate. }
    assert (Bbc : before rB tB b rC tC c).
    { destruct (Hdec rB tB b rC tC c) as [Hb|Hb]; [exact Hb |].
      apply (Hcmp b c campaignB campaignC tB tC Hne2 HB HC HtB HtC) in Hb.
      rewrite Hbc in Hb. discriminate. }
    assert (Bac : before rA tA a rC tC c).
    { unfold before in *.
      destruct Bab as [?|[? [?|[? Hl1]]]]; destruct Bbc as [?|[? [?|[? Hl2]]]];
        try (left; lia); try (right; split; [lia |]; left; lia).
      right. split; [lia |]. right. split; [lia |]. now apply ltb_trans with b. }
    assert (Hne3 : a <> c).
    { intros ->. apply (Hflip rA tA c rB tB b Hne1) in Bab.
      assert (campaignA = campaignC) by congruence. subst campaignC.
      assert (tA = tC) by congruence. subst tC. contradiction. }
    now apply (Hcmp a c campaignA campaignC tA tC Hne3 HA HC HtA HtC).
Qed.

(** X2. An end date that does not parse breaks the order: of two campaigns
    whose games sit at the same place in the priority list, each one sorts
    after the other as soon as one of the two end dates is not a number. *)
Theorem comparator_unparsable_end_date (a b : string) (campaignA campaignB : DropCampaign) :
  a <> b ->
  campaigns !! a = Some campaignA ->
  campaigns !! b = Some campaignB ->
  indexOf priorities (game_id (game campaignA))
    = indexOf priorities (game_id (game campaignB)) ->
  Date_parse (endAt campaignA) = NaN \/ Date_parse (endAt campaignB) = NaN ->
  comparator Date_parse priorities campaigns a b = Ok 1 /\
  comparator Date_parse priorities campaigns b a = Ok 1.
Proof.
  intros Hne HA HB Hidx Hnan.
  rewrite (comparator_unfold Date_parse priorities campaigns a b campaignA campaignB
             Hne HA HB).
  rewrite (comparator_unfold Date_parse priorities campaigns b a campaignB campaignA
             (not_eq_sym Hne) HB HA).
  cbv zeta. rewrite Hidx, Z.eqb_refl.
  destruct (indexOf priorities (game_id (game campaignB)) =? -1); simpl;
    destruct Hnan as [-> | ->];
    destruct (Date_parse (endAt campaignA)); destruct (Date_parse (endAt campaignB));
    simpl; split; reflexivity.
Qed.
End ComparatorOrder.

(** ** The scans of the queue *)

(** X3. [#getNextPendingDropCampaignId] returns the first campaign of the
    queue that is ACTIVE and was not attempted within the cool-down window:
    all before it are passed over, null means all are passed over, and the
    scan throws only at an identifier missing from the map. *)
Theorem next_pending_is_first_attemptable (b : Bot) (time : Z) (ids : list string) :
  match getNextPendingDropCampaignId_from b time ids with
  | Ok (Some dropCampaignId) =>
      exists before after,
        ids = before ++ dropCampaignId :: after /\
        Forall (passedOver b time) before /\
        attemptable b time dropCampaignId
  | Ok None => Forall (passedOver b time) ids
  | Thrown e =>
      e = TypeError /\
      exists before missing after,
        ids = before ++ missing :: after /\
        Forall (passedOver b time) before /\
        dropCampaignMap b !! missing = None
  end.
Proof.
  induction ids as [|id rest IH]; simpl; [constructor |].
  destruct (dropCampaignMap b !! id) as [campaign|] eqn:Hc.
  2:{ split; [reflexivity |]. exists [], id, rest.
      split; [reflexivity | split; [constructor | exact Hc]]. }
  assert (Hskip : (status campaign <> "ACTIVE"%string \/
                   attemptedRecently b time id = true) ->
                  match getNextPendingDropCampaignId_from b time rest with
                  | Ok (Some dropCampaignId) =>
                      exists before after,
                        id :: rest = before ++ dropCampaignId :: after /\
                        Forall (passedOver b time) before /\
                        attemptable b time dropCampaignId
                  | Ok None => Forall (passedOver b time) (id :: rest)
                  | Thrown e =>
                      e = TypeError /\
                      exists before missing after,
                        id :: rest = before ++ missing :: after /\
                        Forall (passedOver b time) before /\
                        dropCampaignMap b !! missing = None
                  end).
  { intros Hp. assert (passedOver b time id) by (exists campaign; split; assumption).
    destruct (getNextPendingDropCampaignId_from b time rest) as [[next|]|e].
    - destruct IH as (before & after & -> & Hb & Ha).
      exists (id :: before), after.
      split; [reflexivity | split; [constructor; assumption | exact Ha]].
    - constructor; assumption.
    - destruct IH as (-> & before & missing & after & -> & Hb & Hm).
      split; [reflexivity |].
      exists (id :: before), missing, after.
      split; [reflexivity | split; [constructor; assumption | exact Hm]]. }
  destruct (String.eqb_spec (status campaign) "ACTIVE") as [Hact|Hact]; cbn [negb].
  - destruct (attemptedRecently b time id) eqn:Hrec.
    + apply Hskip. now right.
    + exists [], rest. split; [reflexivity | split; [constructor |]].
      exists campaign. split; [assumption | split; assumption].
  - apply Hskip. now left.
Qed.

Section CheckFacts.
Context {World Inventory : Type}.
Variable env : Env World Inventory.
Variable options : Options.

(** A check that answers true has found, ahead of the active campaign, a
    campaign that can be attempted at the time the scan came to it: [s0] is
    the state the scan of the candidates before it has left. *)
Lemma check_found_attemptable ids (s : State) found s' :
  HigherPriorityCheck env ids s found s' ->
  bot s' = bot s /\
  (found = true ->
   exists before dropCampaignId after s0,
     ids = before ++ dropCampaignId :: after /\
     currentDropCampaignId (bot s) <> Some dropCampaignId /\
     Forall (fun other => currentDropCampaignId (bot s) <> Some other) before /\
     HigherPriorityCheck env before s false s0 /\
     attemptable (bot s) (getTime env (world s0)) dropCampaignId).
Proof.
  assert (Hgo : forall (s1 s2 : @State World) id rest found,
             bot s2 = bot s1 ->
             currentDropCampaignId (bot s1) <> Some id ->
             (forall pre s0, HigherPriorityCheck env pre s2 false s0 ->
                             HigherPriorityCheck env (id :: pre) s1 false s0) ->
             (found = true ->
              exists before next after s0,
                rest = before ++ next :: after /\
                currentDropCampaignId (bot s2) <> Some next /\
                Forall (fun other => currentDropCampaignId (bot s2) <> Some other) before /\
                HigherPriorityCheck env before s2 false s0 /\
                attemptable (bot s2) (getTime env (world s0)) next) ->
             found = true ->
             exists before next after s0,
               id :: rest = before ++ next :: after /\
               currentDropCampaignId (bot s1) <> Some next /\
               Forall (fun other => currentDropCampaignId (bot s1) <> Some other) before /\
               HigherPriorityCheck env before s1 false s0 /\
               attemptable (bot s1) (getTime env (world s0)) next).
  { intros s1 s2 id rest answer Hb Hcur Hrule IH Hfound.
    destruct (IH Hfound) as (before & next & after & s0 & -> & Hc & Hall & Hpre & Ha).
    rewrite Hb in Hc, Hall, Ha.
    exists (id :: before), next, after, s0.
    split; [reflexivity |]. split; [exact Hc |].
    split; [constructor; assumption |]. split; [apply Hrule; exact Hpre | exact Ha]. }
  induction 1;
    try (assert (Hs2 : bot s2 = bot s)
           by (match goal with
               | Hf : fetched _ _ _ _ _ _ |- _ =>
                   destruct Hf as (? & ? & _ & _ & ->); reflexivity
               end)).
  - split; [reflexivity | discriminate].
  - split; [reflexivity | discriminate].
  - destruct IHHigherPriorityCheck as [Hb IH]. split; [exact Hb |].
    apply (Hgo s s dropCampaignId rest found); [reflexivity | assumption | | exact IH].
    intros pre s0 Hpre. now apply check_skips_recent.
  - destruct IHHigherPriorityCheck as [Hb IH]. split; [exact Hb |].
    apply (Hgo s s dropCampaignId rest found); [reflexivity | assumption | | exact IH].
    intros pre s0 Hpre. eapply check_skips_inactive; eassumption.
  - destruct IHHigherPriorityCheck as [Hb IH]. split; [exact Hb |].
    apply (Hgo s (record EvGetInventory w1 s) dropCampaignId rest found);
      [reflexivity | apply H | | exact IH].
    intros pre s0 Hpre. eapply check_skips_failed_inventory; eassumption.
  - destruct IHHigherPriorityCheck as [Hb IH]. split; [exact Hb |].
    apply (Hgo s (record (EvGetDropCampaignDetails dropCampaignId) w2
                    (record EvGetInventory w1 s)) dropCampaignId rest found);
      [reflexivity | apply H | | exact IH].
    intros pre s0 Hpre. eapply check_skips_failed_details; eassumption.
  - destruct IHHigherPriorityCheck as [Hb IH]. split; [congruence |].
    apply (Hgo s s2 dropCampaignId rest found); [exact Hs2 | apply H | | exact IH].
    intros pre s0 Hpre. eapply check_skips_all_claimed; eassumption.
  - destruct IHHigherPriorityCheck as [Hb IH]. split; [exact (eq_trans Hb Hs2) |].
    apply (Hgo s (record (EvClaimDropReward (dropInstanceID inventoryDrop)) w3 s2)
             dropCampaignId rest found); [exact Hs2 | apply H | | exact IH].
    intros pre s0 Hpre. eapply check_claims_ready; eassumption.
  - split; [exact Hs2 |]. intros _.
    destruct H as (Hcur & Hcool & Hmap & Hact).
    exists [], dropCampaignId, rest, s.
    split; [reflexivity |]. split; [exact Hcur |]. split; [constructor |].
    split; [constructor |].
    exists campaign. split; [exact Hmap |]. split; [exact Hact |].
    destruct (attemptedRecently (bot s) (getTime env (world s)) dropCampaignId) eqn:E;
      [| reflexivity].
    apply attemptedRecently_withinCoolDown in E. contradiction.
  - destruct IHHigherPriorityCheck as [Hb IH]. split; [exact (eq_trans Hb Hs2) |].
    apply (Hgo s (record (EvGetActiveStreams (displayName (game campaign))) w3 s2)
             dropCampaignId rest found); [exact Hs2 | apply H | | exact IH].
    intros pre s0 Hpre. eapply check_skips_no_stream; eassumption.
  - destruct IHHigherPriorityCheck as [Hb IH]. split; [exact (eq_trans Hb Hs2) |].
    apply (Hgo s (record (EvGetActiveStreams (displayName (game campaign))) w3 s2)
             dropCampaignId rest found); [exact Hs2 | apply H | | exact IH].
    intros pre s0 Hpre. eapply check_skips_failed_streams; eassumption.
Qed.

(** A queue of campaigns that are all passed over costs nothing. *)
Lemma check_silent ids : forall s : State,
  Forall (passedOver (bot s) (getTime env (world s))) ids ->
  hasPendingHigherPriorityStream_from env ids s = (Returns false, s).
Proof.
  induction ids as [|id rest IH]; intros s Hall; [reflexivity |].
  apply Forall_cons in Hall as [(campaign & Hc & Hp) Hrest].
  cbn [hasPendingHigherPriorityStream_from].
  rewrite run_bind. unfold get_bot at 1. cbn beta iota.
  destruct (decide (currentDropCampaignId (bot s) = Some id)); [reflexivity |].
  rewrite run_bind. unfold now at 1. cbn beta iota.
  destruct (attemptedRecently (bot s) (getTime env (world s)) id) eqn:Hrec;
    [now apply IH |].
  rewrite Hc. destruct Hp as [Hp|Hp]; [| congruence].
  apply String.eqb_neq in Hp. rewrite Hp. cbn [negb]. now apply IH.
Qed.

(** X4. When the higher-priority check answers true, the queue holds a
    campaign other than the active one, with only campaigns other than the
    active one before it, that is ACTIVE and was out of its cool-down window
    at the time the scan came to it: the time of the state in which the scan
    of the campaigns before it ends, answering false. *)
Theorem check_true_means_attemptable (s : State) :
  (forall id, id ∈ pendingDropCampaignIds (bot s) ->
              is_Some (dropCampaignMap (bot s) !! id)) ->
  fst (hasPendingHigherPriorityStream env s) = Returns true ->
  exists before dropCampaignId after s0,
    pendingDropCampaignIds (bot s) = before ++ dropCampaignId :: after /\
    currentDropCampaignId (bot s) <> Some dropCampaignId /\
    Forall (fun other => currentDropCampaignId (bot s) <> Some other) before /\
    hasPendingHigherPriorityStream_from env before s = (Returns false, s0) /\
    attemptable (bot s) (getTime env (world s0)) dropCampaignId.
Proof.
  intros Hmap Htrue.
  destruct (hasPending_run env s Hmap) as (found & s' & Hrun & Hspec & _).
  rewrite Hrun in Htrue. cbn [fst] in Htrue. injection Htrue as ->.
  destruct (check_found_attemptable _ _ _ _ Hspec) as [_ H].
  destruct (H eq_refl) as (before & id & after & s0 & Hq & Hc & Hall & Hpre & Ha).
  exists before, id, after, s0.
  split; [exact Hq |]. split; [exact Hc |]. split; [exact Hall |]. split; [| exact Ha].
  destruct (hasPending_from_sound env before s) as (found' & s'' & Hf & Hc' & _).
  { intros other Hother. apply Hmap. rewrite Hq. apply elem_of_app. now left. }
  destruct (check_deterministic env _ _ _ _ _ _ Hc' Hpre) as [-> ->]. exact Hf.
Qed.

(** X5. When every campaign of the queue is passed over (not ACTIVE, or
    attempted within the cool-down window) the higher-priority check answers
    false without a call to the outside: state, world and trace are as
    before. *)
Theorem check_of_resting_queue_is_silent (s : State) :
  Forall (passedOver (bot s) (getTime env (world s))) (pendingDropCampaignIds (bot s)) ->
  hasPendingHigherPriorityStream env s = (Returns false, s).
Proof.
  intros Hall. unfold hasPendingHigherPriorityStream.
  rewrite run_bind. unfold get_bot at 1. cbn beta iota. now apply check_silent.
Qed.
End CheckFacts.

(** ** The allowed channels *)

Lemma filter_sublist {A} (f : A -> bool) (xs : list A) : sublist (List.filter f xs) xs.
Proof.
  induction xs as [|x xs IH]; simpl; [constructor |].
  destruct (f x); [now apply sublist_skip | now apply sublist_cons].
Qed.

(** X6. The allow-list filter of [#getActiveStreams] keeps the streams in
    their order; with the list enabled and present it keeps exactly those
    whose broadcaster is on it, so an empty list leaves no stream; with the
    list disabled or null it keeps all. *)
Theorem allowed_channels_restrict (details : DropCampaign) (streams : list Stream) :
  let kept := restrictToAllowedChannels details streams in
  sublist kept streams /\
  (forall stream,
     stream ∈ kept <->
     stream ∈ streams /\
     match isEnabled (allow details), channels (allow details) with
     | true, Some allowed =>
         exists channel, channel ∈ allowed /\ channel_id channel = broadcaster_id stream
     | _, _ => True
     end) /\
  (isEnabled (allow details) = true -> channels (allow details) = Some [] -> kept = []).
Proof.
  cbv zeta. unfold restrictToAllowedChannels.
  destruct (isEnabled (allow details)).
  2:{ split; [reflexivity |]. split; [intros; tauto | discriminate]. }
  destruct (channels (allow details)) as [allowed|].
  2:{ split; [reflexivity |]. split; [intros; tauto | discriminate]. }
  split; [apply filter_sublist |]. split.
  - intros stream. rewrite list_elem_of_In, filter_In, <- list_elem_of_In.
    rewrite includes_elem_of, list_elem_of_fmap.
    split; intros [H1 (channel & H2 & H3)]; (split; [exact H1 |]); exists channel; split;
      congruence || assumption.
  - intros _ [= ->]. simpl. induction streams as [|x xs IH]; simpl; [reflexivity | exact IH].
Qed.

(** ** One session *)

Section SessionFacts.
Context {World Inventory : Type}.
Variable env : Env World Inventory.
Variable options : Options.

Lemma sameSchedule_refl b : sameSchedule b b.
Proof. repeat split. Qed.

Lemma sameSchedule_trans b1 b2 b3 :
  sameSchedule b1 b2 -> sameSchedule b2 b3 -> sameSchedule b1 b3.
Proof.
  unfold sameSchedule. intros (?&?&?&?) (?&?&?&?). repeat split; congruence.
Qed.

Lemma incrementFailureCounter_frame streamUrl (s : @State World) :
  let s' := snd (incrementFailureCounter env options streamUrl s) in
  sameSchedule (bot s) (bot s') /\ sameOtherStreams streamUrl (bot s) (bot s') /\
  pendingHighPriority (bot s') = pendingHighPriority (bot s).
Proof.
  destruct s as [b w t].
  unfold incrementFailureCounter, mbind, M_bind, modify_bot, get_bot, now, mret, M_ret.
  cbn [bot world trace fst snd].
  assert (Hother : forall (m : gmap string Z) x other,
             other <> streamUrl -> <[streamUrl := x]> m !! other = m !! other)
    by (intros; now rewrite lookup_insert_ne by congruence).
  destruct (failedStreamUrlCounts b !! streamUrl) eqn:E;
    cbn [failedStreamUrlCounts set_failedStreamUrlCounts];
    rewrite lookup_insert_eq;
    match goal with |- context [if ?c then _ else _] => destruct c end;
    cbn; (split; [repeat split |]); (split; [| reflexivity]); (split; [reflexivity |]);
    intros other Hne; simpl; rewrite ?Hother by exact Hne; split; reflexivity.
Qed.

(** X7. What [#watchStreamWrapper] answers. A session that ends well returns
    with nothing done but the session. A session that throws is rethrown,
    unless the error is none of the three expected ones, screenshots are on
    and saving one throws: then the wrapper throws the failure of the
    screenshot instead, and the failed session is not counted. *)
Theorem session_outcome (streamUrl : string) (components : Components) (s : State) :
  let answer := watchStream env streamUrl components (world s) in
  let watched := record (EvWatchStream streamUrl) (snd answer) s in
  match fst answer with
  | Ok _ => watchStreamWrapper env options streamUrl components s = (Returns tt, watched)
  | Thrown error =>
      if expectedError error || negb (SAVE_ERROR_SCREENSHOTS env) then
        exists s', watchStreamWrapper env options streamUrl components s = (Throws error, s')
      else
        match saveScreenshotAndHtml env (snd answer) with
        | (Ok _, _) =>
            exists s',
              watchStreamWrapper env options streamUrl components s = (Throws error, s')
        | (Thrown failure, w) =>
            watchStreamWrapper env options streamUrl components s
              = (Throws failure, record EvSaveScreenshot w watched)
        end
  end.
Proof.
  cbv zeta. unfold watchStreamWrapper. rewrite run_bind, try_watchStreamSession.
  destruct (watchStream env streamUrl components (world s)) as [[[]|error] w];
    cbn [fst snd]; [reflexivity |].
  rewrite run_bind.
  assert (Hcount : forall s1 : State,
             exists s',
               (incrementFailureCounter env options streamUrl
                  ≫= λ _ : (), @throw World unit error) s1 = (Throws error, s')).
  { intros s1. rewrite run_bind.
    destruct (incrementFailureCounter_run env options streamUrl s1) as (s' & Hrun & _).
    rewrite Hrun. exists s'. reflexivity. }
  unfold expectedError.
  destruct (isHighPriorityError error); cbn [orb].
  { unfold mret at 1, M_ret at 1. cbn beta iota. apply Hcount. }
  destruct (isStreamLoadFailedError error); cbn [orb].
  { unfold mret at 1, M_ret at 1. cbn beta iota. apply Hcount. }
  destruct (isStreamDownError error); cbn [orb].
  { rewrite run_bind. unfold now at 1. cbn beta iota.
    unfold modify_bot at 1. cbn beta iota. apply Hcount. }
  destruct (SAVE_ERROR_SCREENSHOTS env); cbn [negb].
  - unfold call. cbn [world record].
    destruct (saveScreenshotAndHtml env w) as [[[]|failure] w2]; cbn beta iota.
    + apply Hcount.
    + reflexivity.
  - unfold mret at 1, M_ret at 1. cbn beta iota. apply Hcount.
Qed.

(** What the wrapper throws is what the session threw, or what the
    screenshot threw. *)
Lemma watchStreamWrapper_throws streamUrl components (s : @State World) error w :
  watchStream env streamUrl components (world s) = (Thrown error, w) ->
  exists thrown s',
    watchStreamWrapper env options streamUrl components s = (Throws thrown, s') /\
    (thrown = error \/ fst (saveScreenshotAndHtml env w) = Thrown thrown).
Proof.
  intros Hrun. unfold watchStreamWrapper.
  rewrite run_bind, try_watchStreamSession, Hrun. cbn [fst snd].
  rewrite run_bind.
  assert (Hcount : forall s1 : State,
             exists thrown s',
               (incrementFailureCounter env options streamUrl
                  ≫= λ _ : (), @throw World unit error) s1 = (Throws thrown, s') /\
               (thrown = error \/ fst (saveScreenshotAndHtml env w) = Thrown thrown)).
  { intros s1. rewrite run_bind.
    destruct (incrementFailureCounter_run env options streamUrl s1) as (s' & Hinc & _).
    rewrite Hinc. exists error, s'. split; [reflexivity | now left]. }
  destruct (isHighPriorityError error).
  { unfold mret at 1, M_ret at 1. cbn beta iota. apply Hcount. }
  destruct (isStreamLoadFailedError error).
  { unfold mret at 1, M_ret at 1. cbn beta iota. apply Hcount. }
  destruct (isStreamDownError error).
  { rewrite run_bind. unfold now at 1. cbn beta iota.
    unfold modify_bot at 1. cbn beta iota. apply Hcount. }
  destruct (SAVE_ERROR_SCREENSHOTS env).
  - unfold call. cbn [world record].
    destruct (saveScreenshotAndHtml env w) as [[[]|failure] w2]; cbn beta iota.
    + apply Hcount.
    + eexists failure, _. split; [reflexivity | now right].
  - unfold mret at 1, M_ret at 1. cbn beta iota. apply Hcount.
Qed.

Lemma sameOtherStreams_refl streamUrl b : sameOtherStreams streamUrl b b.
Proof. split; [reflexivity |]. intros; split; reflexivity. Qed.

Lemma sameOtherStreams_trans streamUrl b1 b2 b3 :
  sameOtherStreams streamUrl b1 b2 -> sameOtherStreams streamUrl b2 b3 ->
  sameOtherStreams streamUrl b1 b3.
Proof.
  intros [H1 H2] [H3 H4]. split; [congruence |].
  intros other Hne. destruct (H2 other Hne), (H4 other Hne). split; congruence.
Qed.

Lemma watchStreamWrapper_frame (streamUrl : string) (components : Components)
    (s : @State World) :
  let answer := watchStream env streamUrl components (world s) in
  let s' := snd (watchStreamWrapper env options streamUrl components s) in
  sameSchedule (bot s) (bot s') /\ sameOtherStreams streamUrl (bot s) (bot s') /\
  pendingHighPriority (bot s') =
    match fst answer with
    | Thrown error =>
        if isHighPriorityError error then false else pendingHighPriority (bot s)
    | Ok _ => pendingHighPriority (bot s)
    end.
Proof.
  cbv zeta. unfold watchStreamWrapper. rewrite run_bind, try_watchStreamSession.
  destruct (watchStream env streamUrl components (world s)) as [[[]|error] w];
    cbn [fst snd].
  { split; [apply sameSchedule_refl |]. split; [apply sameOtherStreams_refl | reflexivity]. }
  rewrite run_bind.
  assert (Hcount : forall (s1 : State) (flag : bool),
             sameSchedule (bot s) (bot s1) ->
             sameOtherStreams streamUrl (bot s) (bot s1) ->
             pendingHighPriority (bot s1) = flag ->
             let s' := snd ((incrementFailureCounter env options streamUrl
                               ≫= λ _ : (), @throw World unit error) s1) in
             sameSchedule (bot s) (bot s') /\ sameOtherStreams streamUrl (bot s) (bot s') /\
             pendingHighPriority (bot s') = flag).
  { intros s1 flag Hs Ho Hflag. cbv zeta. rewrite run_bind.
    pose proof (incrementFailureCounter_frame streamUrl s1) as Hf. cbv zeta in Hf.
    destruct (incrementFailureCounter_run env options streamUrl s1) as (s' & Hrun & _).
    rewrite Hrun in *. cbn [snd] in *. destruct Hf as (Hf1 & Hf2 & Hf3).
    split; [eapply sameSchedule_trans; eassumption |].
    split; [eapply sameOtherStreams_trans; eassumption |].
    exact (eq_trans Hf3 Hflag). }
  destruct (isHighPriorityError error).
  { unfold mret at 1, M_ret at 1. cbn beta iota.
    apply Hcount; [repeat split | | reflexivity].
    split; [reflexivity |]. intros other Hne. split; reflexivity. }
  destruct (isStreamLoadFailedError error).
  { unfold mret at 1, M_ret at 1. cbn beta iota.
    apply Hcount; [apply sameSchedule_refl | apply sameOtherStreams_refl | reflexivity]. }
  destruct (isStreamDownError error).
  { rewrite run_bind. unfold now at 1. cbn beta iota.
    unfold modify_bot at 1. cbn beta iota. apply Hcount.
    - repeat split.
    - split; [reflexivity |]. intros other Hne. simpl.
      rewrite !lookup_insert_ne by congruence. split; reflexivity.
    - reflexivity. }
  destruct (SAVE_ERROR_SCREENSHOTS env).
  - unfold call. cbn [world record].
    destruct (saveScreenshotAndHtml env w) as [[[]|failure] w2]; cbn beta iota.
    + apply Hcount; [apply sameSchedule_refl | apply sameOtherStreams_refl | reflexivity].
    + split; [apply sameSchedule_refl |]. split; [apply sameOtherStreams_refl | reflexivity].
  - unfold mret at 1, M_ret at 1. cbn beta iota.
    apply Hcount; [apply sameSchedule_refl | apply sameOtherStreams_refl | reflexivity].
Qed.

End SessionFacts.

Section RepeatedFailures.
Context {World Inventory : Type}.
Variable env : Env World Inventory.
Variable options : Options.

(** A session that fails for another reason than the stream going down, with
    no screenshot to save, goes straight to the counting. *)
Lemma failed_session_is_counted streamUrl components (s : State) error w :
  watchStream env streamUrl components (world s) = (Thrown error, w) ->
  isStreamDownError error = false ->
  SAVE_ERROR_SCREENSHOTS env = false ->
  exists s0 s',
    watchStreamWrapper env options streamUrl components s = (Throws error, s') /\
    incrementFailureCounter env options streamUrl s0 = (Returns tt, s') /\
    failedStreamUrlCounts (bot s0) = failedStreamUrlCounts (bot s) /\
    streamUrlTemporaryBlacklist (bot s0) = streamUrlTemporaryBlacklist (bot s).
Proof.
  intros Hrun Hdown Hshot. unfold watchStreamWrapper.
  rewrite run_bind, try_watchStreamSession, Hrun. cbn [fst snd].
  rewrite Hdown, Hshot.
  set (s0 := if isHighPriorityError error
             then givenWay (record (EvWatchStream streamUrl) w s)
             else record (EvWatchStream streamUrl) w s).
  destruct (incrementFailureCounter_run env options streamUrl s0) as (s' & Hinc & _).
  exists s0, s'. split; [| split; [exact Hinc |]].
  - rewrite run_bind.
    destruct (isHighPriorityError error); [| destruct (isStreamLoadFailedError error)];
      unfold mret at 1, M_ret at 1; cbn beta iota; rewrite run_bind, Hinc; reflexivity.
  - unfold s0. destruct (isHighPriorityError error); split; reflexivity.
Qed.

Lemma sessionsInARow_counts (n : nat) (streamUrl : string) (components : Components) :
  (forall w, exists error w',
      watchStream env streamUrl components w = (Thrown error, w') /\
      isStreamDownError error = false) ->
  SAVE_ERROR_SCREENSHOTS env = false ->
  forall (s : State) (count : Z),
    default 0 (failedStreamUrlCounts (bot s) !! streamUrl) = count ->
    0 <= count ->
    count + Z.of_nat (S n) <= failedStreamRetryCount options ->
    let s' := snd (sessionsInARow env options (S n) streamUrl components s) in
    (count + Z.of_nat (S n) < failedStreamRetryCount options ->
     failedStreamUrlCounts (bot s') !! streamUrl = Some (count + Z.of_nat (S n)) /\
     streamUrlTemporaryBlacklist (bot s') = streamUrlTemporaryBlacklist (bot s)) /\
    (count + Z.of_nat (S n) = failedStreamRetryCount options ->
     failedStreamUrlCounts (bot s') !! streamUrl = Some 0 /\
     is_Some (ts_expiry (streamUrlTemporaryBlacklist (bot s')) !! streamUrl)).
Proof.
  intros Hfail Hshot. induction n as [|n IH]; intros s count Hcount Hpos Hle; cbv zeta.
  - cbn [sessionsInARow]. rewrite run_bind. unfold try.
    destruct (Hfail (world s)) as (error & w & Hrun & Hdown).
    destruct (failed_session_is_counted streamUrl components s error w Hrun Hdown Hshot)
      as (s0 & s1 & Hwrap & Hinc & Hsame & Hlist).
    rewrite Hwrap. change (snd ((mret tt : @M World unit) s1)) with s1.
    destruct (incrementFailureCounter_run env options streamUrl s0)
      as (s2 & Hinc2 & _ & _ & _ & H).
    rewrite Hinc in Hinc2. injection Hinc2 as <-.
    rewrite Hsame, Hlist, Hcount in H.
    change (Z.of_nat 1) with 1 in *.
    destruct (Z.leb_spec (failedStreamRetryCount options) (count + 1)); split;
      intros Hcase; try lia.
    + destruct H as [H1 H2]. split; [exact H1 |]. rewrite H2. simpl.
      rewrite lookup_insert_eq. eauto.
    + exact H.
  - destruct (Hfail (world s)) as (error & w & Hrun & Hdown).
    destruct (failed_session_is_counted streamUrl components s error w Hrun Hdown Hshot)
      as (s0 & s1 & Hwrap & Hinc & Hsame & Hlist).
    assert (Hstep : sessionsInARow env options (S (S n)) streamUrl components s
                    = sessionsInARow env options (S n) streamUrl components s1).
    { change (sessionsInARow env options (S (S n)) streamUrl components)
        with (try (watchStreamWrapper env options streamUrl components)
                ≫= λ _, sessionsInARow env options (S n) streamUrl components).
      rewrite run_bind. unfold try at 1. rewrite Hwrap. reflexivity. }
    rewrite Hstep.
    destruct (incrementFailureCounter_run env options streamUrl s0)
      as (s2 & Hinc2 & _ & _ & _ & H).
    rewrite Hinc in Hinc2. injection Hinc2 as <-.
    rewrite Hsame, Hlist, Hcount in H.
    destruct (Z.leb_spec (failedStreamRetryCount options) (count + 1)); [lia |].
    destruct H as [H1 H2].
    specialize (IH s1 (count + 1)). cbv zeta in IH.
    destruct IH as [IH1 IH2]; [now rewrite H1 | lia | lia |].
    split; intros Hcase.
    + destruct IH1 as [I1 I2]; [lia |]. split; [rewrite I1; f_equal; lia | congruence].
    + apply IH2. lia.
Qed.

(** X9. Sessions on a stream that fail one after the other, for another
    reason than the stream going down and with screenshots off: below
    [failedStreamRetryCount] failures the counter of the url holds their
    number and the blacklist is as before; at the [failedStreamRetryCount]-th
    the url is on the blacklist and its counter is back at 0. *)
Theorem repeated_failures_blacklist (n : nat) (streamUrl : string)
    (components : Components) (s : State) :
  (forall w, exists error w',
      watchStream env streamUrl components w = (Thrown error, w') /\
      isStreamDownError error = false) ->
  SAVE_ERROR_SCREENSHOTS env = false ->
  failedStreamUrlCounts (bot s) !! streamUrl = None ->
  (1 <= n)%nat ->
  Z.of_nat n <= failedStreamRetryCount options ->
  let s' := snd (sessionsInARow env options n streamUrl components s) in
  (Z.of_nat n < failedStreamRetryCount options ->
   failedStreamUrlCounts (bot s') !! streamUrl = Some (Z.of_nat n) /\
   streamUrlTemporaryBlacklist (bot s') = streamUrlTemporaryBlacklist (bot s)) /\
  (Z.of_nat n = failedStreamRetryCount options ->
   failedStreamUrlCounts (bot s') !! streamUrl = Some 0 /\
   is_Some (ts_expiry (streamUrlTemporaryBlacklist (bot s')) !! streamUrl)).
Proof.
  intros Hfail Hshot Hnone Hn Hle. destruct n as [|n]; [lia |].
  pose proof (sessionsInARow_counts n streamUrl components Hfail Hshot s 0) as H.
  cbv zeta in *. rewrite Hnone in H. specialize (H eq_refl).
  destruct H as [H1 H2]; [lia | lia |].
  split; intros Hcase; [apply H1 | apply H2]; lia.
Qed.
End RepeatedFailures.

(** ** What an attempt leaves alone *)

Section ScheduleFacts.
Context {World Inventory : Type}.
Variable env : Env World Inventory.
Variable options : Options.

Lemma keepsSchedule_ret {A} (a : A) : keepsSchedule (mret a : @M World A).
Proof. intros s. apply sameSchedule_refl. Qed.

Lemma keepsSchedule_throw {A} (e : Error) : keepsSchedule (@throw World A e).
Proof. intros s. apply sameSchedule_refl. Qed.

Lemma keepsSchedule_diverge {A} : keepsSchedule (@diverge World A).
Proof. intros s. apply sameSchedule_refl. Qed.

Lemma keepsSchedule_get_bot : keepsSchedule (@get_bot World).
Proof. intros s. apply sameSchedule_refl. Qed.

Lemma keepsSchedule_now : keepsSchedule (now env).
Proof. intros s. apply sameSchedule_refl. Qed.

Lemma keepsSchedule_emit ev : keepsSchedule (@emit World ev).
Proof. intros s. apply sameSchedule_refl. Qed.

Lemma keepsSchedule_call {A} ev (f : World -> Result A * World) : keepsSchedule (call ev f).
Proof.
  intros s. unfold call. destruct (f (world s)) as [[a|e] w]; apply sameSchedule_refl.
Qed.

Lemma keepsSchedule_reset_counts :
  keepsSchedule (@modify_bot World (set_failedStreamUrlCounts ∅)).
Proof. intros s. repeat split. Qed.

Lemma keepsSchedule_bind {A B} (m : @M World A) (f : A -> @M World B) :
  keepsSchedule m -> (forall a, keepsSchedule (f a)) -> keepsSchedule (m ≫= f).
Proof.
  intros Hm Hf s. rewrite run_bind. specialize (Hm s).
  destruct (m s) as [[a|e|] s1]; simpl in *; try assumption.
  eapply sameSchedule_trans; [exact Hm | apply Hf].
Qed.

Lemma keepsSchedule_try {A} (m : @M World A) : keepsSchedule m -> keepsSchedule (try m).
Proof.
  intros Hm s. unfold try. specialize (Hm s).
  destruct (m s) as [[a|e|] s1]; exact Hm.
Qed.

Lemma keepsSchedule_if {A} (c : bool) (m1 m2 : @M World A) :
  keepsSchedule m1 -> keepsSchedule m2 -> keepsSchedule (if c then m1 else m2).
Proof. destruct c; auto. Qed.

Lemma keepsSchedule_watchStreamWrapper streamUrl components :
  keepsSchedule (watchStreamWrapper env options streamUrl components).
Proof. intros s. apply (watchStreamWrapper_frame env options streamUrl components s). Qed.

Create HintDb schedule.
Hint Resolve keepsSchedule_ret keepsSchedule_throw keepsSchedule_diverge
  keepsSchedule_get_bot keepsSchedule_now keepsSchedule_emit keepsSchedule_call
  keepsSchedule_reset_counts keepsSchedule_try keepsSchedule_if
  keepsSchedule_watchStreamWrapper : schedule.

Ltac schedule :=
  repeat first
    [ apply keepsSchedule_bind; [| intros ? ]
    | progress auto with schedule
    | match goal with
      | |- keepsSchedule (match ?x with _ => _ end) => destruct x
      end ].

Lemma keepsSchedule_claimDropReward drop : keepsSchedule (claimDropReward env drop).
Proof. unfold claimDropReward. schedule. Qed.

Lemma keepsSchedule_getActiveStreams id details :
  keepsSchedule (getActiveStreams env id details).
Proof. unfold getActiveStreams. schedule. Qed.

Hint Resolve keepsSchedule_claimDropReward keepsSchedule_getActiveStreams : schedule.

Lemma keepsSchedule_watchLoop fuel id details drop :
  keepsSchedule (watchLoop env options fuel id details drop).
Proof. induction fuel as [|fuel IH]; cbn [watchLoop]; schedule. Qed.

Hint Resolve keepsSchedule_watchLoop : schedule.

Lemma keepsSchedule_dropLoop fuel id details :
  keepsSchedule (dropLoop env options fuel id details).
Proof. induction fuel as [|fuel IH]; cbn [dropLoop]; schedule. Qed.

Hint Resolve keepsSchedule_dropLoop : schedule.

(** *** The preemption flag *)

Lemma yields_still {A} (m : @M World A) :
  (forall s, pendingHighPriority (bot (snd (m s))) = pendingHighPriority (bot s)) ->
  yieldsOnPreemption m.
Proof. intros H s. rewrite H. split; intros; [reflexivity | assumption]. Qed.

Lemma yields_ret {A} (a : A) : yieldsOnPreemption (mret a : @M World A).
Proof. apply yields_still. reflexivity. Qed.

Lemma yields_throw {A} (e : Error) : yieldsOnPreemption (@throw World A e).
Proof. apply yields_still. reflexivity. Qed.

Lemma yields_diverge {A} : yieldsOnPreemption (@diverge World A).
Proof. apply yields_still. reflexivity. Qed.

Lemma yields_get_bot : yieldsOnPreemption (@get_bot World).
Proof. apply yields_still. reflexivity. Qed.

Lemma yields_now : yieldsOnPreemption (now env).
Proof. apply yields_still. reflexivity. Qed.

Lemma yields_call {A} ev (f : World -> Result A * World) : yieldsOnPreemption (call ev f).
Proof.
  apply yields_still. intros s. unfold call.
  destruct (f (world s)) as [[a|e] w]; reflexivity.
Qed.

Lemma yields_reset_counts :
  yieldsOnPreemption (@modify_bot World (set_failedStreamUrlCounts ∅)).
Proof. apply yields_still. reflexivity. Qed.

Lemma yields_bind {A B} (m : @M World A) (f : A -> @M World B) :
  yieldsOnPreemption m -> (forall a, yieldsOnPreemption (f a)) ->
  yieldsOnPreemption (m ≫= f).
Proof.
  intros Hm Hf s. rewrite run_bind. destruct (Hm s) as [H1 H2].
  destruct (m s) as [[a|e|] s1]; cbn [fst snd] in *; [| split; assumption ..].
  destruct (Hf a s1) as [H3 H4]. specialize (H1 eq_refl). rewrite <- H1.
  split; assumption.
Qed.

Lemma yields_if {A} (c : bool) (m1 m2 : @M World A) :
  yieldsOnPreemption m1 -> yieldsOnPreemption m2 ->
  yieldsOnPreemption (if c then m1 else m2).
Proof. destruct c; auto. Qed.

(** A caught computation keeps the property when the handler throws the
    preemption signal on. *)
Lemma yields_try_bind {A B} (m : @M World A) (k : Result A -> @M World B) :
  yieldsOnPreemption m ->
  (forall a, yieldsOnPreemption (k (Ok a))) ->
  (forall e, isHighPriorityError e = false -> yieldsOnPreemption (k (Thrown e))) ->
  (forall e s, isHighPriorityError e = true -> k (Thrown e) s = (Throws e, s)) ->
  yieldsOnPreemption (try m ≫= k).
Proof.
  intros Hm Hok Hother Hpre s. rewrite run_bind. unfold try.
  destruct (Hm s) as [H1 H2].
  destruct (m s) as [[a|e|] s1]; cbn [fst snd preempted] in *.
  - destruct (Hok a s1) as [H3 H4]. specialize (H1 eq_refl). rewrite <- H1.
    split; assumption.
  - destruct (isHighPriorityError e) eqn:E.
    + rewrite (Hpre e s1 E). cbn [fst snd preempted]. rewrite E.
      split; [discriminate | exact H2].
    + destruct (Hother e E s1) as [H3 H4]. specialize (H1 eq_refl). rewrite <- H1.
      split; assumption.
  - split; assumption.
Qed.

Lemma yields_watchStreamWrapper streamUrl components :
  yieldsOnPreemption (watchStreamWrapper env options streamUrl components).
Proof.
  intros s.
  pose proof (watchStreamWrapper_frame env options streamUrl components s) as H.
  cbv zeta in H. destruct H as (_ & _ & H).
  destruct (watchStream env streamUrl components (world s)) as [[[]|error] w] eqn:Hrun;
    cbn [fst] in H; [rewrite H; split; intros; [reflexivity | assumption] |].
  destruct (isHighPriorityError error) eqn:E;
    [| rewrite H; split; intros; [reflexivity | assumption]].
  assert (error = HighPriorityError) as -> by (destruct error; try discriminate; reflexivity).
  destruct (preempted_session_is_counted env options streamUrl components s w Hrun)
    as (s' & Hwrap & _).
  rewrite Hwrap in *. cbn [fst snd preempted isHighPriorityError] in *.
  rewrite H. split; discriminate.
Qed.

Lemma yields_claimDropReward drop : yieldsOnPreemption (claimDropReward env drop).
Proof. unfold claimDropReward. apply yields_call. Qed.

Lemma yields_getActiveStreams id details :
  yieldsOnPreemption (getActiveStreams env id details).
Proof.
  unfold getActiveStreams. apply yields_bind; [apply yields_get_bot | intros b].
  destruct (getDropCampaignById (dropCampaignMap b) id); [| apply yields_throw].
  apply yields_bind; [apply yields_call | intros streams; apply yields_ret].
Qed.

Lemma yields_watchLoop fuel id details drop :
  yieldsOnPreemption (watchLoop env options fuel id details drop).
Proof.
  induction fuel as [|fuel IH]; cbn [watchLoop]; [apply yields_diverge |].
  apply yields_bind; [apply yields_getActiveStreams | intros streams].
  apply yields_bind; [apply yields_get_bot | intros b].
  apply yields_bind; [apply yields_now | intros time].
  destruct (List.filter _ streams) as [|first others]; [apply yields_throw |].
  apply yields_try_bind.
  - apply yields_watchStreamWrapper.
  - intros a. apply yields_ret.
  - intros e He. rewrite He. exact IH.
  - intros e s He. rewrite He. reflexivity.
Qed.

Lemma yields_dropLoop fuel id details :
  yieldsOnPreemption (dropLoop env options fuel id details).
Proof.
  induction fuel as [|fuel IH]; cbn [dropLoop]; [apply yields_diverge |].
  apply yields_bind; [apply yields_call | intros inventory].
  destruct (getFirstUnclaimedDrop env id details inventory) as [drop|];
    [| apply yields_ret].
  destruct (readyToClaim _) as [inventoryDrop|].
  - apply yields_bind; [apply yields_claimDropReward | intros _; exact IH].
  - apply yields_bind; [apply yields_now | intros time].
    apply yields_if; [apply yields_ret |].
    apply yields_bind; [apply yields_reset_counts | intros _].
    apply yields_bind; [apply yields_watchLoop | intros _; exact IH].
Qed.

(** *** The flag after a preemption *)

Lemma gives_quiet {A} (m : @M World A) :
  (forall s, preempted (fst (m s)) = false) -> givesWay m.
Proof. intros H s Hp. rewrite H in Hp. discriminate. Qed.

Lemma gives_call {A} ev (f : World -> Result A * World) :
  (forall w e, fst (f w) = Thrown e -> isHighPriorityError e = false) ->
  givesWay (call ev f).
Proof.
  intros H. apply gives_quiet. intros s. unfold call.
  destruct (f (world s)) as [[a|e] w] eqn:E; [reflexivity |].
  apply (H (world s)). now rewrite E.
Qed.

Lemma gives_bind {A B} (m : @M World A) (f : A -> @M World B) :
  givesWay m -> (forall a, givesWay (f a)) -> givesWay (m ≫= f).
Proof.
  intros Hm Hf s. rewrite run_bind. specialize (Hm s).
  destruct (m s) as [[a|e|] s1]; cbn [fst snd] in *; [apply Hf | exact Hm | exact Hm].
Qed.

Lemma gives_try_bind {A B} (m : @M World A) (k : Result A -> @M World B) :
  givesWay m ->
  (forall a, givesWay (k (Ok a))) ->
  (forall e, isHighPriorityError e = false -> givesWay (k (Thrown e))) ->
  (forall e s, isHighPriorityError e = true -> k (Thrown e) s = (Throws e, s)) ->
  givesWay (try m ≫= k).
Proof.
  intros Hm Hok Hother Hpre s. rewrite run_bind. unfold try. specialize (Hm s).
  destruct (m s) as [[a|e|] s1]; cbn [fst snd preempted] in *.
  - apply Hok.
  - destruct (isHighPriorityError e) eqn:E.
    + rewrite (Hpre e s1 E). cbn [fst snd preempted]. intros _. exact (Hm eq_refl).
    + now apply Hother.
  - discriminate.
Qed.

Lemma gives_watchStreamWrapper streamUrl components :
  onlySessionsPreempt env ->
  givesWay (watchStreamWrapper env options streamUrl components).
Proof.
  intros (_ & _ & _ & _ & Hshot) s Hp.
  pose proof (watchStreamWrapper_frame env options streamUrl components s) as H.
  cbv zeta in H. destruct H as (_ & _ & H).
  destruct (watchStream env streamUrl components (world s)) as [[[]|error] w] eqn:Hrun.
  - pose proof (try_watchStreamSession env streamUrl components s) as Ht.
    unfold watchStreamWrapper in Hp. rewrite run_bind, Ht, Hrun in Hp. discriminate.
  - destruct (watchStreamWrapper_throws env options streamUrl components s error w Hrun)
      as (thrown & s' & Hwrap & Hwhich).
    rewrite Hwrap in Hp. cbn [fst preempted] in Hp.
    destruct Hwhich as [-> | Hfail].
    + cbn [fst] in H. rewrite Hp in H. exact H.
    + rewrite (Hshot w thrown Hfail) in Hp. discriminate.
Qed.

Lemma gives_watchLoop fuel id details drop :
  onlySessionsPreempt env ->
  givesWay (watchLoop env options fuel id details drop).
Proof.
  intros Honly. pose proof Honly as (_ & _ & _ & Hstreams & _).
  induction fuel as [|fuel IH]; cbn [watchLoop]; [now apply gives_quiet |].
  apply gives_bind; [| intros streams].
  { unfold getActiveStreams. apply gives_bind; [now apply gives_quiet | intros b].
    destruct (getDropCampaignById (dropCampaignMap b) id); [| now apply gives_quiet].
    apply gives_bind; [| intros ?; now apply gives_quiet].
    apply gives_call. apply Hstreams. }
  apply gives_bind; [now apply gives_quiet | intros b].
  apply gives_bind; [now apply gives_quiet | intros time].
  destruct (List.filter _ streams) as [|first others]; [now apply gives_quiet |].
  apply gives_try_bind.
  - now apply gives_watchStreamWrapper.
  - intros a. now apply gives_quiet.
  - intros e He. rewrite He. exact IH.
  - intros e s He. rewrite He. reflexivity.
Qed.

Lemma gives_dropLoop fuel id details :
  onlySessionsPreempt env ->
  givesWay (dropLoop env options fuel id details).
Proof.
  intros Honly. pose proof Honly as (Hinv & _ & Hclaim & _).
  induction fuel as [|fuel IH]; cbn [dropLoop]; [now apply gives_quiet |].
  apply gives_bind; [apply gives_call, Hinv | intros inventory].
  destruct (getFirstUnclaimedDrop env id details inventory) as [drop|];
    [| now apply gives_quiet].
  destruct (readyToClaim _) as [inventoryDrop|].
  - apply gives_bind; [| intros _; exact IH].
    unfold claimDropReward. apply gives_call. apply Hclaim.
  - apply gives_bind; [now apply gives_quiet | intros time].
    destruct (negb _ && _); [now apply gives_quiet |].
    apply gives_bind; [now apply gives_quiet | intros _].
    apply gives_bind; [now apply gives_watchLoop | intros _; exact IH].
Qed.

(** *** The attempt *)

Lemma processDropCampaign_frame (fuel : nat) (dropCampaignId : string) (s : State) :
  let run := processDropCampaign env options fuel dropCampaignId s in
  pendingDropCampaignIds (bot (snd run)) = pendingDropCampaignIds (bot s) /\
  dropCampaignMap (bot (snd run)) = dropCampaignMap (bot s) /\
  currentDropCampaignId (bot (snd run)) = currentDropCampaignId (bot s) /\
  lastDropCampaignAttemptTimes (bot (snd run)) =
    match dropCampaignMap (bot s) !! dropCampaignId with
    | Some _ =>
        <[dropCampaignId := getTime env (world s)]> (lastDropCampaignAttemptTimes (bot s))
    | None => lastDropCampaignAttemptTimes (bot s)
    end /\
  (preempted (fst run) = false ->
   pendingHighPriority (bot (snd run)) = pendingHighPriority (bot s)) /\
  (pendingHighPriority (bot (snd run)) = true -> pendingHighPriority (bot s) = true) /\
  (onlySessionsPreempt env -> preempted (fst run) = true ->
   pendingHighPriority (bot (snd run)) = false).
Proof.
  assert (Hstep :
    processDropCampaign env options fuel dropCampaignId s =
      match dropCampaignMap (bot s) !! dropCampaignId with
      | Some _ =>
          (call (EvGetDropCampaignDetails dropCampaignId)
                (client_getDropCampaignDetails env dropCampaignId)
             ≫= λ details, dropLoop env options fuel dropCampaignId details)
            {| bot := set_lastDropCampaignAttemptTimes
                        (<[dropCampaignId := getTime env (world s)]>
                           (lastDropCampaignAttemptTimes (bot s))) (bot s);
               world := world s; trace := trace s |}
      | None => (Throws TypeError, s)
      end).
  { unfold processDropCampaign. rewrite run_bind. unfold get_bot at 1.
    cbn beta iota. unfold getDropCampaignById.
    destruct (dropCampaignMap (bot s) !! dropCampaignId); reflexivity. }
  cbv zeta. rewrite Hstep. clear Hstep.
  destruct (dropCampaignMap (bot s) !! dropCampaignId) as [campaign|];
    [| repeat split; intros; (assumption || discriminate)].
  match goal with
  | |- context [ (?m ≫= ?k) ?s1 ] =>
      assert (Hk : keepsSchedule (m ≫= k)) by schedule;
      assert (Hy : yieldsOnPreemption (m ≫= k))
        by (apply yields_bind; [apply yields_call | intros ?; apply yields_dropLoop]);
      assert (Hg : onlySessionsPreempt env -> givesWay (m ≫= k))
        by (intros Honly; apply gives_bind;
            [apply gives_call, Honly | intros ?; now apply gives_dropLoop]);
      destruct (Hk s1) as (H1 & H2 & H3 & H4);
      destruct (Hy s1) as (H5 & H6);
      pose proof (fun Honly => Hg Honly s1) as H7
  end.
  split; [exact H1 |]. split; [exact H2 |]. split; [exact H3 |].
  split; [exact H4 |]. split; [exact H5 |]. split; [exact H6 | exact H7].
Qed.


Lemma getNext_skips_recent (b : Bot) (time : Z) (dropCampaignId : string) ids :
  attemptedRecently b time dropCampaignId = true ->
  getNextPendingDropCampaignId_from b time ids <> Ok (Some dropCampaignId).
Proof.
  intros Hrec. induction ids as [|id rest IH]; simpl; [discriminate |].
  destruct (dropCampaignMap b !! id); [| discriminate].
  destruct (negb (status d =? "ACTIVE")%string); [exact IH |].
  destruct (attemptedRecently b time id) eqn:E; [exact IH |].
  intros [= ->]. congruence.
Qed.

(** X13. A campaign that has just been attempted rests: however the attempt
    ended, the scan for the next campaign does not return it while less than
    [sleepTimeMilliseconds] have passed since the attempt began. *)
Theorem attempted_campaign_rests (fuel : nat) (dropCampaignId : string) (s : State)
    (time : Z) (ids : list string) :
  is_Some (dropCampaignMap (bot s) !! dropCampaignId) ->
  getTime env (world s) <> 0 ->
  time - getTime env (world s) < sleepTimeMilliseconds ->
  getNextPendingDropCampaignId_from
    (bot (snd (processDropCampaign env options fuel dropCampaignId s))) time ids
    <> Ok (Some dropCampaignId).
Proof.
  intros [campaign Hc] Hnz Hlt. apply getNext_skips_recent.
  pose proof (processDropCampaign_frame fuel dropCampaignId s) as (_ & _ & _ & H & _).
  rewrite Hc in H. unfold attemptedRecently. rewrite H, lookup_insert_eq.
  apply andb_true_iff. split.
  - apply negb_true_iff. now apply Z.eqb_neq.
  - now apply Z.ltb_lt.
Qed.

(** X11. Preemption ends the stream loop: when the session on the first
    stream that is not blacklisted throws [HighPriorityError], [watchLoop]
    throws it on and starts no further session. *)
Theorem preemption_ends_stream_loop (fuel : nat) (dropCampaignId : string)
    (details : DropCampaign) (drop : TimeBasedDrop) (s s1 : State)
    (streams others : list Stream) (first : Stream) (w : World) :
  getActiveStreams env dropCampaignId details s = (Returns streams, s1) ->
  List.filter
    (fun stream =>
       negb (TimedSet_has (getTime env (world s1)) (url stream)
               (streamUrlTemporaryBlacklist (bot s1)))) streams = first :: others ->
  watchStream env (url first) (CampaignComponents drop) (world s1)
    = (Thrown HighPriorityError, w) ->
  exists s',
    watchLoop env options (S fuel) dropCampaignId details drop s
      = (Throws HighPriorityError, s') /\
    trace s' = trace s1 ++ [EvWatchStream (url first)] /\
    world s' = w.
Proof.
  intros Hstreams Hfilter Hrun.
  destruct (preempted_session_is_counted env options (url first) (CampaignComponents drop)
              s1 w Hrun) as (s' & Hwrap & Hcount).
  destruct (incrementFailureCounter_run env options (url first)
              (givenWay (record (EvWatchStream (url first)) w s1)))
    as (s'' & Hrun' & Hw & Ht & _).
  rewrite Hcount in Hrun'. injection Hrun' as <-.
  exists s'. split; [| split; [exact Ht | exact Hw]].
  cbn [watchLoop]. rewrite run_bind, Hstreams.
  rewrite run_bind. unfold get_bot at 1. cbn beta iota.
  rewrite run_bind. unfold now at 1. cbn beta iota.
  rewrite Hfilter. rewrite run_bind. unfold try. rewrite Hwrap. reflexivity.
Qed.
End ScheduleFacts.

(** ** The handler of ['update'] *)

Section UpdateFacts.
Context {World Inventory : Type}.
Variable env : Env World Inventory.
Variable options : Options.

Lemma recorded_dec (campaign : DropCampaign) :
  negb (negb (String.eqb (status campaign) "ACTIVE")
        && negb (String.eqb (status campaign) "UPCOMING"))
  && negb (includes (ignoredGameIds options) (game_id (game campaign))) = true
  <-> recorded options campaign.
Proof.
  unfold recorded.
  rewrite andb_true_iff, !negb_true_iff, andb_false_iff, !negb_false_iff.
  rewrite !String.eqb_eq, <- not_true_iff_false, includes_elem_of. tauto.
Qed.

Lemma addToPending_fields (campaign : DropCampaign) (s : State) :
  queueInMap (bot s) ->
  let s' := snd (addToPending env options campaign s) in
  sameSession (bot s) (bot s') /\
  pendingHighPriority (bot s') = pendingHighPriority (bot s) /\
  ((recorded options campaign /\
    dropCampaignMap (bot s')
      = <[campaign_id campaign := campaign]> (dropCampaignMap (bot s))) \/
   (~ recorded options campaign /\ dropCampaignMap (bot s') = dropCampaignMap (bot s))).
Proof.
  intros Hq. cbv zeta. pose proof (recorded_dec campaign) as Hrec.
  assert (Hstep :
    addToPending env options campaign s =
      if negb (negb (String.eqb (status campaign) "ACTIVE")
               && negb (String.eqb (status campaign) "UPCOMING"))
         && negb (includes (ignoredGameIds options) (game_id (game campaign)))
      then
        (if (Nat.eqb (length (gameIds options)) 0)
            || includes (gameIds options) (game_id (game campaign))
            || watchUnlistedGames options
         then
           b ← get_bot;
           match SortedArray_insert
                   (comparator (Date_parse env) (gameIds options) (dropCampaignMap b))
                   (campaign_id campaign) (pendingDropCampaignIds b) with
           | Ok ids => modify_bot (set_pendingDropCampaignIds ids)
           | Thrown e => throw e
           end
         else mret tt)
          {| bot := set_dropCampaignMap
                      (<[campaign_id campaign := campaign]> (dropCampaignMap (bot s)))
                      (bot s);
             world := world s; trace := trace s |}
      else (Returns tt, s)).
  { unfold addToPending.
    destruct (negb (String.eqb (status campaign) "ACTIVE")
              && negb (String.eqb (status campaign) "UPCOMING")); [reflexivity |].
    destruct (includes (ignoredGameIds options) (game_id (game campaign)));
      reflexivity. }
  destruct (addToPending env options campaign s) as [o s'] eqn:E. cbn [snd].
  clear E. rename Hstep into E. symmetry in E.
  destruct (negb (negb (String.eqb (status campaign) "ACTIVE")
                   && negb (String.eqb (status campaign) "UPCOMING"))
            && negb (includes (ignoredGameIds options) (game_id (game campaign))))
    eqn:Hc.
  2:{ injection E as <- <-. split; [repeat split |]. split; [reflexivity |].
      right. split; [| reflexivity]. intros H. apply Hrec in H. discriminate. }
  assert (Hyes : recorded options campaign) by (now apply Hrec).
  destruct ((Nat.eqb (length (gameIds options)) 0)
            || includes (gameIds options) (game_id (game campaign))
            || watchUnlistedGames options).
  2:{ injection E as <- <-. split; [repeat split |]. split; [reflexivity |].
      left. split; [exact Hyes | reflexivity]. }
  rewrite run_bind in E. unfold get_bot at 1 in E. cbn beta iota in E. cbn [bot] in E.
  match type of E with
  | context [SortedArray_insert ?cmp ?v ?xs] => destruct (SortedArray_insert cmp v xs)
  end; injection E as <- <-; (split; [repeat split |]); (split; [reflexivity |]);
    left; (split; [exact Hyes | reflexivity]).
Qed.

Lemma sameSession_refl b : sameSession b b.
Proof. repeat split. Qed.

Lemma sameSession_trans b1 b2 b3 :
  sameSession b1 b2 -> sameSession b2 b3 -> sameSession b1 b3.
Proof. unfold sameSession. intros (?&?&?&?) (?&?&?&?). repeat split; congruence. Qed.

Lemma forEach_addToPending_fields (campaigns : list DropCampaign) :
  forall s : State,
    queueInMap (bot s) ->
    let s' := snd (forEach (addToPending env options) campaigns s) in
    sameSession (bot s) (bot s') /\
    pendingHighPriority (bot s') = pendingHighPriority (bot s) /\
    (forall id campaign, dropCampaignMap (bot s) !! id = Some campaign ->
       is_Some (dropCampaignMap (bot s') !! id)) /\
    (forall id,
       (forall campaign, campaign ∈ campaigns -> campaign_id campaign = id ->
                         ~ recorded options campaign) ->
       dropCampaignMap (bot s') !! id = dropCampaignMap (bot s) !! id) /\
    (forall campaign, campaign ∈ campaigns -> recorded options campaign ->
       exists latest,
         latest ∈ campaigns /\ campaign_id latest = campaign_id campaign /\
         recorded options latest /\
         dropCampaignMap (bot s') !! campaign_id campaign = Some latest).
Proof.
  induction campaigns as [|campaign rest IH]; intros s Hq; cbv zeta.
  - cbn. split; [apply sameSession_refl |]. split; [reflexivity |].
    split; [eauto |]. split; [reflexivity |].
    intros c Hc. apply elem_of_nil in Hc. contradiction.
  - cbn [forEach]. rewrite run_bind.
    destruct (addToPending_run env options campaign s Hq) as (s1 & Hrun & Hq1 & _).
    pose proof (addToPending_fields campaign s Hq) as Hf. cbv zeta in Hf.
    rewrite Hrun in *. cbn [snd] in Hf. destruct Hf as (Hs1 & Hp1 & Hm1).
    specialize (IH s1 Hq1). cbv zeta in IH.
    destruct IH as (Hs2 & Hp2 & Hkeep & Hstale & Hlatest).
    split; [eapply sameSession_trans; eassumption |].
    split; [congruence |].
    assert (Hkeep1 : forall id c, dropCampaignMap (bot s) !! id = Some c ->
                       is_Some (dropCampaignMap (bot s1) !! id)).
    { intros id c Hc. destruct Hm1 as [[_ ->]|[_ ->]]; [| eauto].
      destruct (decide (campaign_id campaign = id)) as [<-|Hne].
      - rewrite lookup_insert_eq. eauto.
      - rewrite lookup_insert_ne by exact Hne. eauto. }
    split; [| split].
    + intros id c Hc. destruct (Hkeep1 id c Hc) as [c1 Hc1]. eauto.
    + intros id Hnone. rewrite Hstale.
      * destruct Hm1 as [[Hrec ->]|[_ ->]]; [| reflexivity].
        destruct (decide (campaign_id campaign = id)) as [Heq|Hne].
        -- exfalso. apply (Hnone campaign); [left | exact Heq | exact Hrec].
        -- now rewrite lookup_insert_ne.
      * intros c Hc. apply Hnone. now right.
    + intros c Hc Hrec.
      assert (Hdec : (exists c', c' ∈ rest /\ campaign_id c' = campaign_id c /\ recorded options c')
                     \/ ~ (exists c', c' ∈ rest /\ campaign_id c' = campaign_id c
                                      /\ recorded options c')).
      { pose (test := fun c' : DropCampaign =>
                 String.eqb (campaign_id c') (campaign_id c)
                 && (negb (negb (String.eqb (status c') "ACTIVE")
                           && negb (String.eqb (status c') "UPCOMING"))
                     && negb (includes (ignoredGameIds options) (game_id (game c'))))).
        destruct (existsb test rest) eqn:Ex.
        - left. apply existsb_exists in Ex as (c' & Hin & Ht). unfold test in Ht.
          apply andb_true_iff in Ht as [Ht1 Ht2]. exists c'.
          split; [now apply list_elem_of_In |].
          split; [now apply String.eqb_eq | now apply recorded_dec].
        - right. intros (c' & Hin & Hid & Hr).
          assert (existsb test rest = true); [| congruence].
          apply existsb_exists. exists c'. split; [now apply list_elem_of_In |].
          unfold test. apply andb_true_iff.
          split; [now apply String.eqb_eq | now apply recorded_dec]. }
      destruct Hdec as [(c' & Hc' & Hid & Hrec')|Hno].
      * destruct (Hlatest c' Hc' Hrec') as (latest & Hl1 & Hl2 & Hl3 & Hl4).
        exists latest. split; [now right |]. split; [congruence |].
        split; [exact Hl3 |]. rewrite <- Hid. exact Hl4.
      * apply elem_of_cons in Hc as [->|Hc].
        2:{ exfalso. apply Hno. exists c. split; [exact Hc | split; [reflexivity | exact Hrec]]. }
        exists campaign. split; [left |]. split; [reflexivity |]. split; [exact Hrec |].
        rewrite Hstale.
        -- destruct Hm1 as [[_ ->]|[Hn _]]; [apply lookup_insert_eq | contradiction].
        -- intros c' Hc' Hid Hrec'. apply Hno. exists c'.
           split; [exact Hc' | split; [exact Hid | exact Hrec']].
Qed.

(** The bot after the ['update'] handler: the rebuilt queue and map, with the
    preemption flag raised when the check found a campaign. *)
Lemma onUpdate_bot (campaigns : list DropCampaign) (s : State) :
  let cleared := {| bot := set_pendingDropCampaignIds [] (bot s);
                    world := world s; trace := trace s |} in
  let rebuilt := snd (forEach (addToPending env options) campaigns cleared) in
  let s' := snd (onUpdate env options campaigns s) in
  exists found : bool,
    bot s' = (if found then set_pendingHighPriority true (bot rebuilt) else bot rebuilt) /\
    (currentDropCampaignId (bot s) = None ->
     found = false /\ world s' = world s /\ trace s' = trace s ++ [EvNotifyAll]).
Proof.
  cbv zeta.
  set (cleared := {| bot := set_pendingDropCampaignIds [] (bot s);
                     world := world s; trace := trace s |}).
  assert (Hq0 : queueInMap (bot cleared)).
  { intros id Hid. simpl in Hid. apply elem_of_nil in Hid. contradiction. }
  destruct (forEach_addToPending_run env options campaigns cleared Hq0)
    as (s1 & Hrun & Hq1 & _ & Hw1 & Ht1 & Hc1).
  destruct (onUpdate env options campaigns s) as [o s'] eqn:E.
  unfold onUpdate in E. rewrite run_bind in E. unfold modify_bot at 1 in E.
  cbn beta iota in E. fold cleared in E. rewrite run_bind, Hrun in E.
  rewrite run_bind in E. unfold get_bot at 1 in E. cbn beta iota in E.
  rewrite run_bind in E. rewrite Hrun. cbn [snd].
  destruct (currentDropCampaignId (bot s1)) as [current|] eqn:Hcur.
  - destruct (hasPending_run env s1 Hq1) as (found & s2 & Hcheck & _ & Hbot).
    rewrite run_bind, Hcheck in E. exists found. split.
    + destruct found; cbn in E; injection E as <- <-; simpl; now rewrite Hbot.
    + intros Hnone. simpl in Hc1. congruence.
  - exists false. cbn in E. injection E as <- <-. split; [reflexivity |].
    intros _. split; [reflexivity |]. split; [exact Hw1 |]. simpl. now rewrite Ht1.
Qed.

Lemma getNext_from_total (b : Bot) (time : Z) (ids : list string) :
  (forall id, id ∈ ids -> is_Some (dropCampaignMap b !! id)) ->
  exists r, getNextPendingDropCampaignId_from b time ids = Ok r.
Proof.
  induction ids as [|id rest IH]; intros Hmap; simpl; [eauto |].
  destruct (Hmap id) as [campaign ->]; [left |].
  assert (Hrest : exists r, getNextPendingDropCampaignId_from b time rest = Ok r)
    by (apply IH; intros x Hx; apply Hmap; now right).
  destruct (negb (status campaign =? "ACTIVE")%string); [exact Hrest |].
  destruct (attemptedRecently b time id); [exact Hrest | eauto].
Qed.

(** X14. After the ['update'] handler has run, the scans of the queue cannot
    fail: every queued identifier is in the map, the scan for the next
    campaign returns, and the comparator returns on any two queued
    identifiers. *)
Theorem update_makes_scans_safe (campaigns : list DropCampaign) (s : State) :
  let s' := snd (onUpdate env options campaigns s) in
  (forall id, id ∈ pendingDropCampaignIds (bot s') ->
              is_Some (dropCampaignMap (bot s') !! id)) /\
  (forall time, exists next,
     getNextPendingDropCampaignId_from (bot s') time (pendingDropCampaignIds (bot s'))
       = Ok next) /\
  (forall a b, a ∈ pendingDropCampaignIds (bot s') -> b ∈ pendingDropCampaignIds (bot s') ->
     exists c, comparator (Date_parse env) (gameIds options) (dropCampaignMap (bot s')) a b
                 = Ok c).
Proof.
  cbv zeta.
  destruct (onUpdate_run env options campaigns s) as (s' & evs & Hrun & Hq & _).
  rewrite Hrun. cbn [snd].
  split; [exact Hq |]. split.
  - intros time. now apply getNext_from_total.
  - intros a b Ha Hb. destruct (Hq a Ha) as [ca Hca]. destruct (Hq b Hb) as [cb Hcb].
    destruct (comparator_total (Date_parse env) (gameIds options) (dropCampaignMap (bot s'))
                a b ca cb Hca Hcb) as (c & Hc & _).
    eauto.
Qed.

(** X15. The ['update'] handler never removes a campaign from the map: every
    entry stays, an identifier the fetched list has no recorded campaign for
    keeps its old entry, and a recorded campaign of the list leaves under its
    identifier a recorded campaign of the list. *)
Theorem update_never_prunes_map (campaigns : list DropCampaign) (s : State) :
  let s' := snd (onUpdate env options campaigns s) in
  (forall id campaign, dropCampaignMap (bot s) !! id = Some campaign ->
     is_Some (dropCampaignMap (bot s') !! id)) /\
  (forall id,
     (forall campaign, campaign ∈ campaigns -> campaign_id campaign = id ->
                       ~ recorded options campaign) ->
     dropCampaignMap (bot s') !! id = dropCampaignMap (bot s) !! id) /\
  (forall campaign, campaign ∈ campaigns -> recorded options campaign ->
     exists latest,
       latest ∈ campaigns /\ campaign_id latest = campaign_id campaign /\
       recorded options latest /\
       dropCampaignMap (bot s') !! campaign_id campaign = Some latest).
Proof.
  cbv zeta. pose proof (onUpdate_bot campaigns s) as H. cbv zeta in H.
  destruct H as (found & Hbot & _).
  set (cleared := {| bot := set_pendingDropCampaignIds [] (bot s);
                     world := world s; trace := trace s |}) in *.
  assert (Hq0 : queueInMap (bot cleared)).
  { intros id Hid. simpl in Hid. apply elem_of_nil in Hid. contradiction. }
  pose proof (forEach_addToPending_fields campaigns cleared Hq0) as Hf. cbv zeta in Hf.
  destruct Hf as (_ & _ & Hkeep & Hstale & Hlatest).
  assert (Hmap : dropCampaignMap (bot (snd (onUpdate env options campaigns s)))
                 = dropCampaignMap
                     (bot (snd (forEach (addToPending env options) campaigns cleared)))).
  { rewrite Hbot. destruct found; reflexivity. }
  rewrite Hmap. split; [exact Hkeep |]. split; [exact Hstale | exact Hlatest].
Qed.

(** X16. The ['update'] handler changes of the session nothing but the
    queue, the map and the preemption flag, and the flag it only raises; with
    no campaign active it leaves the flag, calls nothing and only notifies. *)
Theorem update_only_raises_flag (campaigns : list DropCampaign) (s : State) :
  let s' := snd (onUpdate env options campaigns s) in
  sameSession (bot s) (bot s') /\
  (pendingHighPriority (bot s) = true -> pendingHighPriority (bot s') = true) /\
  (currentDropCampaignId (bot s) = None ->
   pendingHighPriority (bot s') = pendingHighPriority (bot s) /\
   world s' = world s /\
   eventsSince s s' = [EvNotifyAll]).
Proof.
  cbv zeta. pose proof (onUpdate_bot campaigns s) as H. cbv zeta in H.
  destruct H as (found & Hbot & Hidle).
  set (cleared := {| bot := set_pendingDropCampaignIds [] (bot s);
                     world := world s; trace := trace s |}) in *.
  assert (Hq0 : queueInMap (bot cleared)).
  { intros id Hid. simpl in Hid. apply elem_of_nil in Hid. contradiction. }
  pose proof (forEach_addToPending_fields campaigns cleared Hq0) as Hf. cbv zeta in Hf.
  destruct Hf as (Hsame & Hflag & _).
  split; [| split].
  - rewrite Hbot. destruct Hsame as (?&?&?&?).
    destruct found; repeat split; assumption.
  - intros Hset. rewrite Hbot. destruct found; [reflexivity |].
    rewrite Hflag. exact Hset.
  - intros Hnone. destruct (Hidle Hnone) as (-> & Hw & Ht).
    split; [rewrite Hbot; exact Hflag |]. split; [exact Hw |].
    now apply eventsSince_app.
Qed.
End UpdateFacts.

(** ** The sleep *)

(** X17. The time the main loop sleeps is never negative, and when the clock
    has not gone backwards it is at most [sleepTimeMilliseconds]. *)
Theorem sleep_time_bounds (b : Bot) (time0 time1 : Z) :
  0 <= sleepTime b time0 time1 /\
  (time0 <= time1 -> sleepTime b time0 time1 <= sleepTimeMilliseconds).
Proof.
  unfold sleepTime. split; [lia |].
  intros Hle. pose proof (scan_le_start (lastDropCampaignAttemptTimes b)
                            (pendingDropCampaignIds b) time0) as H.
  unfold minLastDropCampaignCheckTime. unfold sleepTimeMilliseconds. lia.
Qed.

(** ** The idle stream, the rendering wait and the community points *)

Section IdleFacts.
Context {World Inventory : Type}.
Variable env : Env World Inventory.
Variable idleClient : IdleClient World.

Lemma idleBroadcasterUrl_found blacklist broadcasterIds w streamUrl w' :
  idleBroadcasterUrl env idleClient blacklist broadcasterIds w = (Ok (Some streamUrl), w') ->
  TimedSet_has (getTime env w') streamUrl blacklist = false /\
  exists broadcasterId,
    broadcasterId ∈ broadcasterIds /\
    streamUrl = ("https://www.twitch.tv/" ++ broadcasterId)%string.
Proof.
  revert w. induction broadcasterIds as [|x rest IH]; intros w; cbn [idleBroadcasterUrl].
  - discriminate.
  - destruct (client_isStreamOnline idleClient x w) as [[[|]|e] w1]; [| | discriminate].
    + destruct (TimedSet_has (getTime env w1) ("https://www.twitch.tv/" ++ x) blacklist)
        eqn:Hhas.
      * intros H. destruct (IH _ H) as [H1 (y & H2 & H3)].
        split; [exact H1 |]. exists y. split; [right; exact H2 | exact H3].
      * intros [= <- <-]. split; [exact Hhas |]. exists x. split; [left | reflexivity].
    + intros H. destruct (IH _ H) as [H1 (y & H2 & H3)].
      split; [exact H1 |]. exists y. split; [right; exact H2 | exact H3].
Qed.

Lemma idleCampaignUrl_found b ids w streamUrl w' :
  idleCampaignUrl env idleClient b ids w = (Ok (Some streamUrl), w') ->
  TimedSet_has (getTime env w') streamUrl (streamUrlTemporaryBlacklist b) = false /\
  exists dropCampaignId campaign w0 first others,
    dropCampaignId ∈ ids /\
    dropCampaignMap b !! dropCampaignId = Some campaign /\
    fst (client_getStreamsOfGame idleClient (displayName (game campaign)) w0)
      = Ok (first :: others) /\
    streamUrl = url first.
Proof.
  revert w. induction ids as [|x rest IH]; intros w; cbn [idleCampaignUrl].
  - discriminate.
  - destruct (dropCampaignMap b !! x) as [campaign|] eqn:Hmap; [| discriminate].
    destruct (client_getStreamsOfGame idleClient (displayName (game campaign)) w)
      as [[[|first others]|e] w1] eqn:Hcall; [| | discriminate].
    + intros H. destruct (IH _ H) as [H1 (y & c & w0 & f & o & H2 & H3)].
      split; [exact H1 |]. exists y, c, w0, f, o. split; [right; exact H2 | exact H3].
    + destruct (TimedSet_has (getTime env w1) (url first) (streamUrlTemporaryBlacklist b))
        eqn:Hhas.
      * intros H. destruct (IH _ H) as [H1 (y & c & w0 & f & o & H2 & H3)].
        split; [exact H1 |]. exists y, c, w0, f, o. split; [right; exact H2 | exact H3].
      * intros [= <- <-]. split; [exact Hhas |].
        exists x, campaign, w, first, others.
        split; [left |]. split; [exact Hmap |]. rewrite Hcall. split; reflexivity.
Qed.

(** X18. A url [#getNextIdleStreamUrl] returns is not on the blacklist at
    that time, and it is the page of a configured broadcaster or the first
    stream listed for the game of a pending campaign. *)
Theorem idle_stream_is_allowed (broadcasterIds : list string) (b : Bot) (w w' : World)
    (streamUrl : string) :
  getNextIdleStreamUrl env idleClient broadcasterIds b w = (Ok (Some streamUrl), w') ->
  TimedSet_has (getTime env w') streamUrl (streamUrlTemporaryBlacklist b) = false /\
  idleSource idleClient broadcasterIds b streamUrl.
Proof.
  unfold getNextIdleStreamUrl, idleSource.
  destruct (idleBroadcasterUrl env idleClient (streamUrlTemporaryBlacklist b) broadcasterIds w)
    as [[[found|]|e] w1] eqn:Hfirst.
  - intros [= <- <-]. destruct (idleBroadcasterUrl_found _ _ _ _ _ Hfirst) as [H1 H2].
    split; [exact H1 | left; exact H2].
  - intros H. destruct (idleCampaignUrl_found _ _ _ _ _ H) as [H1 H2].
    split; [exact H1 | right; exact H2].
  - discriminate.
Qed.


End IdleFacts.

Section RenderFacts.
Context {World : Type}.
Variable page : RenderedPage World.


(** A run that ends well before its turns are used up ends on equal sizes:
    four of them, or as many as the count of stable turns it started with
    still lacked. *)
Lemma renderLoop_settled checks last count w :
  0 <= count < minStableSizeIterations ->
  ended (renderLoop page checks last count w) = Ok tt ->
  (length (sizesRead (renderLoop page checks last count w)) < checks)%nat ->
  exists before size n,
    sizesRead (renderLoop page checks last count w) = before ++ replicate n size /\
    size <> 0 /\
    (n = 4%nat \/
     (before = [] /\ size = last /\ Z.of_nat n = minStableSizeIterations - count)).
Proof.
  unfold minStableSizeIterations.
  revert last count w. induction checks as [|remaining IH]; intros last count w Hcount;
    cbn [renderLoop]; [simpl; lia |].
  destruct (element_outerHTML page w) as [[[[|c text]|]|e] w1]; try discriminate.
  set (current := Z.of_nat (length (c :: text))).
  assert (Hcur : current <> 0) by (unfold current; simpl length; lia).
  set (count' := if negb (last =? 0) && (current =? last) then count + 1 else 0).
  unfold minStableSizeIterations.
  destruct (Z.leb_spec 3 count') as [Hstop|Hgo].
  - intros _ _. cbn [sizesRead].
    exists [], current, 1%nat. split; [reflexivity |]. split; [exact Hcur |]. right.
    unfold count' in Hstop.
    destruct (negb (last =? 0) && (current =? last)) eqn:Hsame; [| lia].
    apply andb_prop in Hsame as [_ Hsame%Z.eqb_eq].
    split; [reflexivity |]. split; [exact Hsame | lia].
  - destruct (page_waitForTimeout page checkDurationMsecs w1) as [[[]|e] w2];
      [| discriminate].
    cbn [read sizesRead ended]. intros Hend Hlen. simpl length in Hlen.
    assert (Hc' : 0 <= count' < 3).
    { unfold count'. destruct (negb (last =? 0) && (current =? last)); lia. }
    destruct (IH current count' w2 Hc' Hend ltac:(lia))
      as (before & size & n & Hsizes & Hsize & Hn).
    rewrite Hsizes.
    destruct Hn as [-> | (-> & -> & Hn)].
    + exists (current :: before), size, 4%nat.
      split; [reflexivity |]. split; [exact Hsize |]. left. reflexivity.
    + unfold count' in Hn, Hgo.
      destruct (negb (last =? 0) && (current =? last)) eqn:Hsame.
      * apply andb_prop in Hsame as [_ Hsame%Z.eqb_eq].
        exists [], current, (S n). split; [reflexivity |]. split; [exact Hcur |].
        right. split; [reflexivity |]. split; [exact Hsame | lia].
      * exists [], current, 4%nat. assert (n = 3%nat) as -> by lia.
        split; [reflexivity |]. split; [exact Hcur |]. left. reflexivity.
Qed.


(** X21. When [#waitUntilElementRendered] returns before its turns are used
    up, the last four sizes it read are the same. *)
Theorem render_wait_ends_on_stable_size (timeout : Z) (w : World) :
  ended (waitUntilElementRendered page timeout w) = Ok tt ->
  Z.of_nat (length (sizesRead (waitUntilElementRendered page timeout w))) < timeout / 1000 ->
  exists before size,
    sizesRead (waitUntilElementRendered page timeout w) = before ++ [size; size; size; size] /\
    size <> 0.
Proof.
  unfold waitUntilElementRendered, checkDurationMsecs. intros Hend Hlen.
  destruct (renderLoop_settled (Z.to_nat (timeout / 1000)) 0 0 w)
    as (before & size & n & Hsizes & Hsize & Hn);
    [unfold minStableSizeIterations; lia | exact Hend | lia |].
  destruct Hn as [-> | (_ & -> & _)]; [| congruence].
  exists before, size. split; [exact Hsizes | exact Hsize].
Qed.
End RenderFacts.

Section CommunityPointsFacts.
Context {World : Type}.
Variable page : PointsPage World.

End CommunityPointsFacts.

(** ** The further properties at work in the small worlds *)

Lemma comparator_strict_total_order_witness :
  let compare := comparator Scenario.parseDate ["g1"%string] Cases.threeCampaigns in
  compare "campaign-c" "campaign-a" = Ok (-1) /\
  compare "campaign-a" "campaign-b" = Ok (-1) /\
  compare "campaign-c" "campaign-b" = Ok (-1).
Proof.
  intros compare.
  destruct (comparator_strict_total_order Scenario.parseDate ["g1"%string]
              Cases.threeCampaigns "campaign-c" "campaign-a" "campaign-b") as [_ H].
  - exists Scenario.campaignC, 1646092800000. split; reflexivity.
  - exists Scenario.campaignA, 1646179200000. split; reflexivity.
  - exists Scenario.campaignB, 1646092800000. split; reflexivity.
  - split; [reflexivity |]. split; [reflexivity |]. apply H; reflexivity.
Defined.

Lemma comparator_unparsable_end_date_witness :
  let compare := comparator Scenario.parseDate ["g1"%string] Cases.undatedCampaigns in
  compare "campaign-a" "campaign-d" = Ok 1 /\ compare "campaign-d" "campaign-a" = Ok 1.
Proof.
  intros compare.
  apply (comparator_unparsable_end_date Scenario.parseDate ["g1"%string]
           Cases.undatedCampaigns "campaign-a" "campaign-d" Scenario.campaignA Cases.campaignD).
  - discriminate.
  - reflexivity.
  - reflexivity.
  - reflexivity.
  - right. reflexivity.
Defined.

Lemma check_true_means_attemptable_witness :
  let env := Scenario.scenario (Ok []) (Ok Cases.detailsD)
               (Ok [Cases.streamTwo; Scenario.streamOne]) (Ok tt) (Ok tt) in
  let s := Scenario.startState Cases.choosyBot [Scenario.dropInProgress] in
  fst (hasPendingHigherPriorityStream env s) = Returns true /\
  exists before dropCampaignId after s0,
    pendingDropCampaignIds (bot s) = before ++ dropCampaignId :: after /\
    currentDropCampaignId (bot s) <> Some dropCampaignId /\
    Forall (fun other => currentDropCampaignId (bot s) <> Some other) before /\
    hasPendingHigherPriorityStream_from env before s = (Returns false, s0) /\
    attemptable (bot s) (getTime env (world s0)) dropCampaignId.
Proof.
  intros env s. split; [vm_compute; reflexivity |].
  apply (check_true_means_attemptable env s); [| vm_compute; reflexivity].
  intros id Hid. simpl in Hid.
  apply elem_of_cons in Hid as [->|Hid];
    [exists Scenario.campaignA; vm_compute; reflexivity |].
  apply elem_of_cons in Hid as [->|Hid];
    [exists Cases.campaignD; vm_compute; reflexivity |].
  apply elem_of_cons in Hid as [->|Hid];
    [exists Scenario.campaignB; vm_compute; reflexivity |].
  apply elem_of_nil in Hid. contradiction.
Defined.

Lemma check_of_resting_queue_is_silent_witness :
  let env := Scenario.scenario (Ok []) (Ok Scenario.campaignA)
               (Ok [Scenario.streamOne]) (Ok tt) (Ok tt) in
  let s := Scenario.startState
             (set_currentDropCampaignId (Some "campaign-b"%string) Scenario.cooledBot) [] in
  hasPendingHigherPriorityStream env s = (Returns false, s).
Proof.
  intros env s. apply (check_of_resting_queue_is_silent env s).
  constructor; [| constructor; [| constructor]].
  - exists Scenario.campaignA. split; [reflexivity | right; reflexivity].
  - exists Scenario.campaignB. split; [reflexivity | right; reflexivity].
Defined.

Lemma repeated_failures_blacklist_witness :
  let env := Scenario.scenario (Ok []) (Ok Scenario.campaignA)
               (Ok [Scenario.streamOne]) (Ok tt) (Thrown StreamLoadFailedError) in
  let s := Scenario.startState Scenario.restingBot [] in
  let streamUrl := url Scenario.streamOne in
  let s' := snd (sessionsInARow env Scenario.options 3 streamUrl IdleComponents s) in
  failedStreamUrlCounts (bot s') !! streamUrl = Some 0 /\
  is_Some (ts_expiry (streamUrlTemporaryBlacklist (bot s')) !! streamUrl).
Proof.
  intros env s streamUrl.
  destruct (repeated_failures_blacklist env Scenario.options 3 streamUrl IdleComponents s)
    as [_ H].
  - intros w. exists StreamLoadFailedError, (Scenario.tick 60000 w). split; reflexivity.
  - reflexivity.
  - reflexivity.
  - repeat constructor.
  - vm_compute. discriminate.
  - apply H. reflexivity.
Defined.

Lemma watchLoop_avoids_blacklist_witness :
  let env := Scenario.scenario (Ok []) (Ok Scenario.campaignA)
               (Ok [Scenario.streamOne]) (Ok tt) (Ok tt) in
  let s := Scenario.startState Scenario.wearyBot [Scenario.dropInProgress] in
  let s1 := snd (getActiveStreams env "campaign-a" Scenario.campaignA s) in
  getActiveStreams env "campaign-a" Scenario.campaignA s
    = (Returns [Scenario.streamOne], s1) /\
  watchLoop env Scenario.options 1 "campaign-a" Scenario.campaignA Scenario.dropInProgress s
    = (Throws NoStreamsError, s1).
Proof.
  intros env s s1. split; [reflexivity |].
  exact (watchLoop_avoids_blacklist env Scenario.options 0 "campaign-a" Scenario.campaignA
           Scenario.dropInProgress s s1 [Scenario.streamOne] eq_refl).
Defined.

Lemma preemption_ends_stream_loop_witness :
  let env := Scenario.scenario (Ok []) (Ok Scenario.campaignA)
               (Ok [Scenario.streamOne]) (Ok tt) (Thrown HighPriorityError) in
  let s := Scenario.startState Scenario.busyBot [Scenario.dropInProgress] in
  exists s',
    watchLoop env Scenario.options 1 "campaign-a" Scenario.campaignA Scenario.dropInProgress s
      = (Throws HighPriorityError, s') /\
    trace s' = [EvGetActiveStreams "Game One"; EvWatchStream (url Scenario.streamOne)].
Proof.
  intros env s.
  destruct (preemption_ends_stream_loop env Scenario.options 0 "campaign-a"
              Scenario.campaignA Scenario.dropInProgress s
              (snd (getActiveStreams env "campaign-a" Scenario.campaignA s))
              [Scenario.streamOne] [] Scenario.streamOne
              (Scenario.tick 60001 (world s)) eq_refl eq_refl eq_refl)
    as (s' & H1 & H2 & _).
  exists s'. split; [exact H1 | exact H2].
Defined.


Lemma attempted_campaign_rests_witness :
  let env := Scenario.scenario (Ok []) (Ok Scenario.campaignA)
               (Ok [Scenario.streamOne]) (Ok tt) (Ok tt) in
  let s := Scenario.startState Scenario.restingBot [Scenario.dropInProgress] in
  getNextPendingDropCampaignId_from
    (bot (snd (processDropCampaign env Scenario.options 1 "campaign-a" s)))
    (1646000000000 + 60000) ["campaign-a"%string; "campaign-b"%string]
    <> Ok (Some "campaign-a"%string).
Proof.
  intros env s.
  apply (attempted_campaign_rests env Scenario.options 1 "campaign-a" s).
  - exists Scenario.campaignA. reflexivity.
  - discriminate.
  - reflexivity.
Defined.

Lemma idle_stream_is_allowed_witness :
  let env := Scenario.scenario (Ok []) (Ok Scenario.campaignA)
               (Ok [Scenario.streamOne]) (Ok tt) (Ok tt) in
  let client := Cases.quietClient ["alice"%string] [Scenario.streamOne] in
  let w := world (Scenario.startState Scenario.restingBot []) in
  let streamUrl := "https://www.twitch.tv/alice"%string in
  getNextIdleStreamUrl env client ["bob"%string; "alice"%string] Scenario.restingBot w
    = (Ok (Some streamUrl), w) /\
  TimedSet_has (getTime env w) streamUrl (streamUrlTemporaryBlacklist Scenario.restingBot)
    = false /\
  idleSource client ["bob"%string; "alice"%string] Scenario.restingBot streamUrl.
Proof.
  intros env client w streamUrl. split; [reflexivity |].
  apply (idle_stream_is_allowed env client ["bob"%string; "alice"%string]
           Scenario.restingBot w w streamUrl).
  reflexivity.
Defined.


Lemma render_wait_ends_on_stable_size_witness :
  exists before size,
    sizesRead (waitUntilElementRendered Cases.settledPage 10000 0%nat)
      = before ++ [size; size; size; size] /\
    size <> 0.
Proof.
  apply (render_wait_ends_on_stable_size Cases.settledPage 10000 0%nat).
  - reflexivity.
  - reflexivity.
Defined.
